(** * IP blocking and rate limiting: a model of [Scripts/ip_blocker.py]

    The engine of [IPBlocker] is embedded as functions in a small
    state-and-exception monad over the fields of the Python object and the
    blocklist file on disk.  The clock readings ([time.time()],
    [datetime.now()]), the outcome of a file write and the [st_mtime] the
    file system reports are inputs of the operations. *)

From Stdlib Require Import QArith Lqa Ascii.
From stdpp Require Import gmap strings list sorting.

Local Open Scope Z_scope.

(** ** Python values held by the block record *)

(** A value of [blocked_ips] is whatever [json.load] found under the key.
    The code looks at it in two ways only: it hands it to
    [datetime.fromisoformat] (a [TypeError] unless it is a [str]) and it
    serialises it.  A value that is not a string is therefore carried by
    the text [json.dumps(_, sort_keys=True)] gives for it. *)
Inductive pyval : Type :=
| PStr (s : string)
| PNonStr (canon : string).

Global Instance pyval_eq_dec : EqDecision pyval.
Proof. solve_decision. Defined.

(** A Python [dict] with [str] keys, in insertion order. *)
Abbreviation pydict := (list (string * pyval)).

Fixpoint dict_get (k : string) (d : pydict) : option pyval :=
  match d with
  | [] => None
  | (k', v) :: d' => if decide (k = k') then Some v else dict_get k d'
  end.

(** [k in d] *)
Definition dict_mem (k : string) (d : pydict) : bool :=
  match dict_get k d with Some _ => true | None => false end.

(** [d[k] = v]: an existing key keeps its place, a new key goes last. *)
Fixpoint dict_set (k : string) (v : pyval) (d : pydict) : pydict :=
  match d with
  | [] => [(k, v)]
  | (k', v') :: d' =>
      if decide (k = k') then (k', v) :: d' else (k', v') :: dict_set k v d'
  end.

(** Removal of a key that is present ([del d[k]]) or may be absent
    ([d.pop(k, None)]). *)
Definition dict_del (k : string) (d : pydict) : pydict :=
  List.filter (fun kv => negb (bool_decide (kv.1 = k))) d.

(** [dict(pairs)], as [json.load] builds an object: a repeated key keeps
    its first place and its last value. *)
Definition dict_of_pairs (pairs : pydict) : pydict :=
  fold_left (fun d kv => dict_set kv.1 kv.2 d) pairs [].

Definition dict_keys (d : pydict) : list string := map fst d.

(** ** Serialisation *)

(** [sorted(d.items())] compares the (unique) keys. *)
Definition key_le (a b : string * pyval) : Prop := String.le a.1 b.1.

Global Instance key_le_dec : RelDecision key_le.
Proof. intros a b. unfold key_le. apply _. Defined.

(** [json.dumps(d, sort_keys=True)].  The compact text determines, and is
    determined by, the sequence of its key/value pairs; it is represented by
    that sequence. *)
Definition json_dumps_sorted (d : pydict) : pydict := merge_sort key_le d.

(** ** The blocklist file *)

(** One element of a legacy array: an address string, or a nested array or
    object, which is unhashable and cannot become a key.  (Numbers, booleans
    and [null] would become keys that are not [str]; the record is declared
    [Dict[str, str]], the model has string keys only.) *)
Inductive legacy_item : Type :=
| LAddr (ip : string)
| LUnhashable.

(** What [json.load] makes of the file's text. *)
Inductive file_data : Type :=
| Corrupt                       (* [open] or [json.load] raises *)
| DictDoc (pairs : pydict)      (* a JSON object, pairs in file order *)
| ListDoc (items : list legacy_item)  (* a JSON array: the old format *)
| StrDoc (cs : list string)     (* a JSON string, given by the strings of
                                   one character (code point) each that
                                   iterating over it yields *)
| ScalarDoc.                    (* a number, [true], [false] or [null] *)

Record file : Type := mkFile {
  f_data : file_data;
  f_mtime : Q                   (* [stat().st_mtime] *)
}.

(** ** The engine's state *)

Record IPBlocker : Type := mkIPBlocker {
  blocked_ips : pydict;                       (* IP -> block time *)
  to_block : gmap string Q;                   (* IP -> failure count *)
  connection_attempts : gmap string (list Q); (* IP -> [timestamps] *)
  block_threshold : Z;
  _last_save_state : option pydict;
  _last_file_mtime : Q
}.

(** What is at the path [BLOCKLIST_FILE]: no file; a file; or a path that
    cannot be examined, for which [BLOCKLIST_FILE.exists()] raises an
    [OSError] ([Path.exists] returns [False] for a missing path and lets
    the other errors of [stat] through, [PermissionError] for one). *)
Inductive disk_state : Type :=
| NoFile
| File (f : file)
| NoAccess.

(** The object together with [BLOCKLIST_FILE]. *)
Record sys : Type := mkSys {
  blocker : IPBlocker;
  disk : disk_state
}.

(** ** Configuration ([Scripts/config.py]) *)

(** [timedelta(hours=1)], in microseconds, the resolution of [datetime]. *)
Definition BLOCK_RESET_INTERVAL : Z := 3600 * 1000000.
Definition BLOCK_THRESHOLD : Z := 10.
Definition CONNECTION_TIMEOUT : Q := 30#1.

(** ** State and exceptions *)

Inductive exn : Type :=
| JSONDecodeError | TypeError | ValueError | OSError | KeyError.

Inductive res (A : Type) : Type :=
| Ret (a : A)
| Raise (e : exn).
Arguments Ret {A} a.
Arguments Raise {A} e.

(** A computation changes the state and returns or raises; what it changed
    before it raised stays changed. *)
Definition M (A : Type) : Type := sys -> res A * sys.

Global Instance M_ret : MRet M := fun A a s => (Ret a, s).
Global Instance M_bind : MBind M := fun A B f m s =>
  match m s with
  | (Ret a, s') => f a s'
  | (Raise e, s') => (Raise e, s')
  end.

Definition raise {A} (e : exn) : M A := fun s => (Raise e, s).

(** [try: body  except <classes>: handler] *)
Definition try_except {A} (body : M A) (catches : exn -> bool)
    (handler : M A) : M A := fun s =>
  match body s with
  | (Raise e, s') => if catches e then handler s' else (Raise e, s')
  | r => r
  end.

Definition Exception (e : exn) : bool := true.
Definition ValueError_TypeError (e : exn) : bool :=
  match e with ValueError | TypeError => true | _ => false end.

Definition read {A} (f : IPBlocker -> A) : M A :=
  fun s => (Ret (f (blocker s)), s).
Definition read_disk : M disk_state := fun s => (Ret (disk s), s).
Definition write_disk (f : file) : M unit :=
  fun s => (Ret (), mkSys (blocker s) (File f)).
Definition update (f : IPBlocker -> IPBlocker) : M unit :=
  fun s => (Ret (), mkSys (f (blocker s)) (disk s)).

Definition set_blocked_ips (d : pydict) : M unit :=
  update (fun b => mkIPBlocker d (to_block b) (connection_attempts b)
    (block_threshold b) (_last_save_state b) (_last_file_mtime b)).
Definition set_to_block (m : gmap string Q) : M unit :=
  update (fun b => mkIPBlocker (blocked_ips b) m (connection_attempts b)
    (block_threshold b) (_last_save_state b) (_last_file_mtime b)).
Definition set_connection_attempts (m : gmap string (list Q)) : M unit :=
  update (fun b => mkIPBlocker (blocked_ips b) (to_block b) m
    (block_threshold b) (_last_save_state b) (_last_file_mtime b)).
Definition set_last_save_state (st : option pydict) : M unit :=
  update (fun b => mkIPBlocker (blocked_ips b) (to_block b)
    (connection_attempts b) (block_threshold b) st (_last_file_mtime b)).
Definition set_last_file_mtime (t : Q) : M unit :=
  update (fun b => mkIPBlocker (blocked_ips b) (to_block b)
    (connection_attempts b) (block_threshold b) (_last_save_state b) t).

(** [self.blocked_ips[ip] = v] *)
Definition blocked_ips_setitem (ip : string) (v : pyval) : M unit :=
  d ← read blocked_ips; set_blocked_ips (dict_set ip v d).

(** [del self.blocked_ips[ip]] *)
Definition blocked_ips_delitem (ip : string) : M unit :=
  d ← read blocked_ips;
  if dict_mem ip d then set_blocked_ips (dict_del ip d) else raise KeyError.

(** [self.to_block.pop(ip, None)] *)
Definition to_block_pop (ip : string) : M unit :=
  m ← read to_block; set_to_block (delete ip m).

(** [del self.to_block[ip]] *)
Definition to_block_delitem (ip : string) : M unit :=
  m ← read to_block;
  match m !! ip with
  | Some _ => set_to_block (delete ip m)
  | None => raise KeyError
  end.

(** [self.connection_attempts.pop(ip, None)] *)
Definition connection_attempts_pop (ip : string) : M unit :=
  m ← read connection_attempts; set_connection_attempts (delete ip m).

(** [del self.connection_attempts[ip]] *)
Definition connection_attempts_delitem (ip : string) : M unit :=
  m ← read connection_attempts;
  match m !! ip with
  | Some _ => set_connection_attempts (delete ip m)
  | None => raise KeyError
  end.

(** [t > cutoff_time] on timestamps *)
Definition Qgtb (t cutoff : Q) : bool := negb (Qle_bool t cutoff).

(** [[t for t in l if t > cutoff_time]] *)
Definition recent (cutoff : Q) (l : list Q) : list Q :=
  List.filter (fun t => Qgtb t cutoff) l.

(** [self.connection_attempts[ip]]: the map is a [defaultdict(list)], a
    missing key is created with the empty list. *)
Definition connection_attempts_getitem (ip : string) : M (list Q) :=
  m ← read connection_attempts;
  match m !! ip with
  | Some l => mret l
  | None => set_connection_attempts (<[ip := []]> m);; mret []
  end.

(** [self.connection_attempts[ip] = l] *)
Definition connection_attempts_setitem (ip : string) (l : list Q) : M unit :=
  m ← read connection_attempts; set_connection_attempts (<[ip := l]> m).

(** [self.connection_attempts[ip].append(t)] *)
Definition connection_attempts_append (ip : string) (t : Q) : M unit :=
  l ← connection_attempts_getitem ip;
  connection_attempts_setitem ip (l ++ [t]).

(** [self.connection_attempts[ip] = [t for t in
    self.connection_attempts[ip] if t > cutoff_time]] *)
Definition connection_attempts_prune (ip : string) (cutoff_time : Q)
    : M unit :=
  l ← connection_attempts_getitem ip;
  connection_attempts_setitem ip (recent cutoff_time l).

(** ** The operations of [IPBlocker] *)

Section Engine.

(** [datetime.isoformat] and [datetime.fromisoformat] belong to Python's
    library.  A naive [datetime] is its count of microseconds;
    [fromisoformat s = None] when the call raises [ValueError], and also when
    it yields a datetime with an offset, from which the naive
    [datetime.now()] cannot be subtracted ([TypeError], caught by the same
    handlers). *)
Variable isoformat : Z -> string.
Variable fromisoformat : string -> option Z.

(** [datetime.fromisoformat(v)] for a stored value. *)
Definition parse_block_time (v : pyval) : M Z :=
  match v with
  | PStr s =>
      match fromisoformat s with
      | Some t => mret t
      | None => raise ValueError
      end
  | PNonStr _ => raise TypeError
  end.

(** [for ip in data: self.blocked_ips[ip] = datetime.now().isoformat()];
    [nows i] is the clock at the [i]-th turn of the loop. *)
Fixpoint load_legacy (nows : nat -> Z) (i : nat) (items : list legacy_item)
    : M unit :=
  match items with
  | [] => mret ()
  | LAddr ip :: rest =>
      blocked_ips_setitem ip (PStr (isoformat (nows i)));;
      load_legacy nows (S i) rest
  | LUnhashable :: _ => raise TypeError
  end.

(** The body of the [try] of [_load_blocked_ips], for the file [f]. *)
Definition load_body (nows : nat -> Z) (f : file) : M unit :=
  set_last_file_mtime (f_mtime f);;
  match f_data f with
  | Corrupt => raise JSONDecodeError
  | DictDoc pairs => set_blocked_ips (dict_of_pairs pairs)
  | ListDoc items => set_blocked_ips [];; load_legacy nows 0 items
  | StrDoc cs => set_blocked_ips [];; load_legacy nows 0 (map LAddr cs)
  | ScalarDoc => set_blocked_ips [];; raise TypeError
  end.

(** [if BLOCKLIST_FILE.exists():] comes before the [try]: what it raises
    goes to the caller. *)
Definition _load_blocked_ips (nows : nat -> Z) : M unit :=
  d ← read_disk;
  match d with
  | NoAccess => raise OSError
  | NoFile => mret ()
  | File f => try_except (load_body nows f) Exception (set_blocked_ips [])
  end.

(** The write of [_save_blocked_ips]: [json.dump] to the temporary file and
    its [replace] over the target either fail ([None]) or succeed, after
    which [stat] reports [Some mtime]. *)
Definition write_blocklist (io : option Q) (d : pydict) : M unit :=
  match io with
  | None => raise OSError
  | Some mtime =>
      write_disk (mkFile (DictDoc d) mtime);;
      set_last_file_mtime mtime
  end.

Definition _save_blocked_ips (io : option Q) : M unit :=
  d ← read blocked_ips;
  last ← read _last_save_state;
  let current_state := json_dumps_sorted d in
  if decide (Some current_state = last) then mret ()
  else
    try_except
      (write_blocklist io d;;
       set_last_save_state (Some current_state))
      Exception
      (mret ()).

(** Here too [BLOCKLIST_FILE.exists()] comes before the [try]. *)
Definition _check_external_changes (nows : nat -> Z) : M unit :=
  f ← read_disk;
  match f with
  | NoAccess => raise OSError
  | NoFile =>
      d ← read blocked_ips;
      match d with
      | [] => mret ()
      | _ :: _ => set_blocked_ips [];; set_last_file_mtime 0%Q
      end
  | File f =>
      try_except
        (last ← read _last_file_mtime;
         if Qgtb (f_mtime f) last then _load_blocked_ips nows else mret ())
        Exception
        (mret ())
  end.

(** The first loop of [_cleanup_expired_blocks]. *)
Fixpoint expired_ips (current_time : Z) (items : pydict) : list string :=
  match items with
  | [] => []
  | (ip, PStr s) :: rest =>
      match fromisoformat s with
      | Some block_time =>
          if decide (current_time - block_time > BLOCK_RESET_INTERVAL)
          then ip :: expired_ips current_time rest
          else expired_ips current_time rest
      | None => ip :: expired_ips current_time rest
      end
  | (ip, PNonStr _) :: rest => ip :: expired_ips current_time rest
  end.

(** Its second loop. *)
Fixpoint unblock_all (ips : list string) : M unit :=
  match ips with
  | [] => mret ()
  | ip :: rest =>
      blocked_ips_delitem ip;;
      to_block_pop ip;;
      connection_attempts_pop ip;;
      unblock_all rest
  end.

Definition _cleanup_expired_blocks (current_time : Z) (io : option Q)
    : M unit :=
  d ← read blocked_ips;
  let to_unblock := expired_ips current_time d in
  match to_unblock with
  | [] => mret ()
  | _ :: _ => unblock_all to_unblock;; _save_blocked_ips io
  end.

(** The loop of [_cleanup_old_connections] over a snapshot of the keys. *)
Fixpoint prune_ips (cutoff_time : Q) (ips : list string) : M unit :=
  match ips with
  | [] => mret ()
  | ip :: rest =>
      connection_attempts_prune ip cutoff_time;;
      l ← connection_attempts_getitem ip;
      match l with
      | [] => connection_attempts_delitem ip
      | _ :: _ => mret ()
      end;;
      prune_ips cutoff_time rest
  end.

Definition _cleanup_old_connections (current_time : Q) : M unit :=
  let cutoff_time := (current_time - CONNECTION_TIMEOUT)%Q in
  m ← read connection_attempts;
  prune_ips cutoff_time (map fst (map_to_list m)).

(** One turn of the loop of [_periodic_cleanup], after its sleep. *)
Definition cleanup_tick (nows : nat -> Z) (now : Z) (io : option Q)
    (current_time : Q) : M unit :=
  try_except
    (_check_external_changes nows;;
     _cleanup_expired_blocks now io;;
     _cleanup_old_connections current_time)
    Exception
    (mret ()).

Definition track_connection_attempt (current_time : Q) (now : Z)
    (io : option Q) (ip : string) : M bool :=
  d ← read blocked_ips;
  if dict_mem ip d then mret true
  else
    connection_attempts_append ip current_time;;
    let cutoff_time := (current_time - CONNECTION_TIMEOUT)%Q in
    connection_attempts_prune ip cutoff_time;;
    l ← connection_attempts_getitem ip;
    let attempt_count := length l in
    threshold ← read block_threshold;
    if decide (Z.of_nat attempt_count >= threshold) then
      blocked_ips_setitem ip (PStr (isoformat now));;
      to_block_pop ip;;
      connection_attempts_delitem ip;;
      _save_blocked_ips io;;
      mret true
    else mret false.

Definition is_ip_blocked (now : Z) (io : option Q) (ip : string) : M bool :=
  d ← read blocked_ips;
  match dict_get ip d with
  | Some v =>
      try_except
        (block_time ← parse_block_time v;
         if decide (now - block_time > BLOCK_RESET_INTERVAL) then
           blocked_ips_delitem ip;;
           to_block_pop ip;;
           connection_attempts_pop ip;;
           _save_blocked_ips io;;
           mret false
         else mret true)
        ValueError_TypeError
        (blocked_ips_delitem ip;; mret false)
  | None => mret false
  end.

Definition block_ip (now : Z) (io : option Q) (ip : string) : M unit :=
  blocked_ips_setitem ip (PStr (isoformat now));;
  to_block_pop ip;;
  connection_attempts_pop ip;;
  _save_blocked_ips io.

Definition unblock_ip (io : option Q) (ip : string) : M bool :=
  d ← read blocked_ips;
  if dict_mem ip d then
    blocked_ips_delitem ip;;
    to_block_pop ip;;
    connection_attempts_pop ip;;
    _save_blocked_ips io;;
    mret true
  else mret false.

Definition increment_failure_count (now : Z) (io : option Q) (ip : string)
    : M bool :=
  d ← read blocked_ips;
  if dict_mem ip d then mret false
  else
    m ← read to_block;
    let current_count := Qred (default 0%Q (m !! ip) + 1 / 2)%Q in
    set_to_block (<[ip := current_count]> m);;
    threshold ← read block_threshold;
    if Qle_bool (inject_Z threshold) current_count then
      blocked_ips_setitem ip (PStr (isoformat now));;
      to_block_delitem ip;;
      connection_attempts_pop ip;;
      _save_blocked_ips io;;
      mret true
    else mret false.

Definition reset_failure_count (ip : string) : M unit :=
  m ← read to_block;
  match m !! ip with
  | Some _ => to_block_delitem ip
  | None => mret ()
  end.

(** [__init__], without the start of the two background threads. *)
Definition init_blocker : IPBlocker :=
  mkIPBlocker [] ∅ ∅ BLOCK_THRESHOLD None 0%Q.

Definition init (nows : nat -> Z) (d : disk_state) : res unit * sys :=
  _load_blocked_ips nows (mkSys init_blocker d).

End Engine.

(** A stand-in for the two library functions on a few instants, for running
    the model on concrete inputs. *)
Definition sample_times : list (Z * string) :=
  [ (0, "1970-01-01T00:00:00");
    (1, "1970-01-01T00:00:00.000001");
    (1000000, "1970-01-01T00:00:01");
    (3600000000, "1970-01-01T01:00:00");
    (3600000001, "1970-01-01T01:00:00.000001") ].

Definition sample_isoformat (t : Z) : string :=
  match List.find (fun p => bool_decide (p.1 = t)) sample_times with
  | Some p => p.2
  | None => "?"
  end.

Definition sample_fromisoformat (s : string) : option Z :=
  match List.find (fun p => bool_decide (p.2 = s)) sample_times with
  | Some p => Some p.1
  | None => None
  end.


(** ** Derived notions used in the statements *)

(** The state in which a call of [_save_blocked_ips] leaves the system. *)
Definition saved (io : option Q) (s : sys) : sys :=
  let b := blocker s in
  let current_state := json_dumps_sorted (blocked_ips b) in
  if decide (Some current_state = _last_save_state b) then s
  else
    match io with
    | None => s
    | Some mtime =>
        mkSys (mkIPBlocker (blocked_ips b) (to_block b)
                 (connection_attempts b) (block_threshold b)
                 (Some current_state) mtime)
              (File (mkFile (DictDoc (blocked_ips b)) mtime))
    end.

(** The timestamps a call of [track_connection_attempt] at [current_time]
    counts for [ip]. *)
Definition counted (current_time : Q) (ip : string) (s : sys) : list Q :=
  recent (current_time - CONNECTION_TIMEOUT)%Q
    (default [] (connection_attempts (blocker s) !! ip) ++ [current_time]).

(** The inputs of one call of [track_connection_attempt]: [time.time()],
    [datetime.now()] and the outcome of the write, should there be one. *)
Record attempt : Type := mkAttempt {
  at_time : Q;
  at_now : Z;
  at_io : option Q
}.

(** All timestamps lie in the window [(window_end - CONNECTION_TIMEOUT,
    window_end]], the window the code counts over at [window_end]. *)
Definition one_window (window_end : Q) (ts : list Q) : Prop :=
  Forall (fun t => (window_end - CONNECTION_TIMEOUT < t /\ t <= window_end)%Q) ts.

(** All timestamps lie in the closed interval
    [[window_end - CONNECTION_TIMEOUT, window_end]]. *)
Definition closed_window (window_end : Q) (ts : list Q) : Prop :=
  Forall (fun t => (window_end - CONNECTION_TIMEOUT <= t /\ t <= window_end)%Q)
    ts.

(** The file's content does not list the address [ip]. *)
Definition omits (ip : string) (data : file_data) : Prop :=
  match data with
  | Corrupt | ScalarDoc => True
  | DictDoc pairs => ip ∉ dict_keys pairs
  | ListDoc items => LAddr ip ∉ items
  | StrDoc cs => ip ∉ cs
  end.

(** [s'] blocks no address and scores no address that [s] does not. *)
Definition shrinks (s s' : sys) : Prop :=
  (forall ip, dict_get ip (blocked_ips (blocker s)) = None ->
              dict_get ip (blocked_ips (blocker s')) = None) /\
  (forall ip, to_block (blocker s) !! ip = None ->
              to_block (blocker s') !! ip = None).

(** Presence in the block record implies absence from the failure counts. *)
Definition blocked_unscored (s : sys) : Prop :=
  forall ip, is_Some (dict_get ip (blocked_ips (blocker s))) ->
             to_block (blocker s) !! ip = None.

Section Runs.
Variable isoformat : Z -> string.

(** The record the loop over a legacy array of address strings builds from
    the record [d], the clock being read at each turn. *)
Fixpoint legacy_record (nows : nat -> Z) (i : nat) (ips : list string)
    (d : pydict) : pydict :=
  match ips with
  | [] => d
  | ip :: rest =>
      legacy_record nows (S i) rest (dict_set ip (PStr (isoformat (nows i))) d)
  end.

(** Successive calls of [track_connection_attempt] for one address: the
    results, oldest first, and the final state. *)
Fixpoint track_all (calls : list attempt) (ip : string) (s : sys)
    : list (res bool) * sys :=
  match calls with
  | [] => ([], s)
  | c :: rest =>
      let '(r, s') :=
        track_connection_attempt isoformat (at_time c) (at_now c) (at_io c) ip s in
      let '(rs, s'') := track_all rest ip s' in
      (r :: rs, s'')
  end.

End Runs.

(** The operations of the engine, with their inputs. *)
Inductive op : Type :=
| Load (nows : nat -> Z)
| Save (io : option Q)
| CheckExternalChanges (nows : nat -> Z)
| CleanupExpiredBlocks (now : Z) (io : option Q)
| CleanupOldConnections (t : Q)
| CleanupTick (nows : nat -> Z) (now : Z) (io : option Q) (t : Q)
| TrackConnectionAttempt (t : Q) (now : Z) (io : option Q) (ip : string)
| IsIpBlocked (now : Z) (io : option Q) (ip : string)
| BlockIp (now : Z) (io : option Q) (ip : string)
| UnblockIp (io : option Q) (ip : string)
| IncrementFailureCount (now : Z) (io : option Q) (ip : string)
| ResetFailureCount (ip : string).

(** The operations that may replace the block record by the file's. *)
Definition reloads (o : op) : bool :=
  match o with
  | Load _ | CheckExternalChanges _ | CleanupTick _ _ _ _ => true
  | _ => false
  end.

Section Ops.
Variable isoformat : Z -> string.
Variable fromisoformat : string -> option Z.

(** The state an operation leaves, whether it returns or raises. *)
Definition run_op (o : op) (s : sys) : sys :=
  match o with
  | Load nows => (_load_blocked_ips isoformat nows s).2
  | Save io => (_save_blocked_ips io s).2
  | CheckExternalChanges nows => (_check_external_changes isoformat nows s).2
  | CleanupExpiredBlocks now io =>
      (_cleanup_expired_blocks fromisoformat now io s).2
  | CleanupOldConnections t => (_cleanup_old_connections t s).2
  | CleanupTick nows now io t =>
      (cleanup_tick isoformat fromisoformat nows now io t s).2
  | TrackConnectionAttempt t now io ip =>
      (track_connection_attempt isoformat t now io ip s).2
  | IsIpBlocked now io ip => (is_ip_blocked fromisoformat now io ip s).2
  | BlockIp now io ip => (block_ip isoformat now io ip s).2
  | UnblockIp io ip => (unblock_ip io ip s).2
  | IncrementFailureCount now io ip =>
      (increment_failure_count isoformat now io ip s).2
  | ResetFailureCount ip => (reset_failure_count ip s).2
  end.

End Ops.

(** ** Simultaneous calls of [track_connection_attempt] *)

(** Where a thread stands in [track_connection_attempt]. *)
Inductive pc : Type :=
| Start          (* before [current_time = time.time()] *)
| Ready          (* before [with self.lock:] *)
| AtCheck        (* [if ip in self.blocked_ips:] *)
| AtAppend       (* [self.connection_attempts[ip].append(current_time)] *)
| AtPrune        (* [self.connection_attempts[ip] = [t for t in ...]] *)
| AtCount        (* [attempt_count = len(...)], [if attempt_count >= ...:] *)
| AtSetBlocked   (* [self.blocked_ips[ip] = datetime.now().isoformat()] *)
| AtPopScore     (* [self.to_block.pop(ip, None)] *)
| AtDelAttempts  (* [del self.connection_attempts[ip]] *)
| AtSave         (* [self._save_blocked_ips()] *)
| AtRelease (r : res bool)  (* leaving the [with] block, lock still held *)
| Done (r : res bool).      (* returned, or raised *)

(** The threads share the object, the file and the lock; [blockers] and
    [savers] record which threads have run the line that enters the address
    in the block record and the line that calls [_save_blocked_ips]. *)
Record config : Type := mkConfig {
  shared : sys;
  lock : option nat;
  pcs : list pc;
  blockers : list nat;
  savers : list nat
}.

(** The thread is inside the [with self.lock:] block. *)
Definition inside (p : pc) : bool :=
  match p with
  | Start | Ready | Done _ => false
  | _ => true
  end.

Section Threads.
Variable isoformat : Z -> string.
Variable ip : string.
Variable calls : list attempt.   (* the inputs of thread 0, 1, ... *)

(** Run one statement and go on at [k], or leave the block when it raises. *)
Definition after {A} (m : M A) (k : A -> pc) (s : sys) : pc * sys :=
  match m s with
  | (Ret a, s') => (k a, s')
  | (Raise e, s') => (AtRelease (Raise e), s')
  end.

(** One statement of the locked block. *)
Definition body_step (a : attempt) (p : pc) : sys -> pc * sys :=
  match p with
  | AtCheck =>
      after (read blocked_ips)
        (fun d => if dict_mem ip d then AtRelease (Ret true) else AtAppend)
  | AtAppend =>
      after (connection_attempts_append ip (at_time a)) (fun _ => AtPrune)
  | AtPrune =>
      after (connection_attempts_prune ip (at_time a - CONNECTION_TIMEOUT)%Q)
        (fun _ => AtCount)
  | AtCount =>
      after (l ← connection_attempts_getitem ip;
             threshold ← read block_threshold;
             mret (bool_decide (Z.of_nat (length l) >= threshold)))
        (fun b : bool => if b then AtSetBlocked else AtRelease (Ret false))
  | AtSetBlocked =>
      after (blocked_ips_setitem ip (PStr (isoformat (at_now a))))
        (fun _ => AtPopScore)
  | AtPopScore => after (to_block_pop ip) (fun _ => AtDelAttempts)
  | AtDelAttempts => after (connection_attempts_delitem ip) (fun _ => AtSave)
  | AtSave =>
      after (_save_blocked_ips (at_io a)) (fun _ => AtRelease (Ret true))
  | _ => fun s => (p, s)
  end.

(** The rest of the locked block, from [p] on. *)
Fixpoint run_body (fuel : nat) (a : attempt) (p : pc) (s : sys)
    : res bool * sys :=
  match p, fuel with
  | AtRelease r, _ => (r, s)
  | _, O => (Raise KeyError, s)
  | _, S fuel' => let '(p', s') := body_step a p s in run_body fuel' a p' s'
  end.

(** The number of statements from [p] to the end of the block, at most. *)
Definition dist (p : pc) : nat :=
  match p with
  | AtCheck => 8 | AtAppend => 7 | AtPrune => 6 | AtCount => 5
  | AtSetBlocked => 4 | AtPopScore => 3 | AtDelAttempts => 2 | AtSave => 1
  | _ => 0
  end%nat.

Definition finish (a : attempt) (p : pc) (s : sys) : res bool * sys :=
  run_body (dist p) a p s.

(** One step of thread [i], which stands at [p]; [None] when it cannot move:
    it has returned, or it waits for the lock. *)
Definition thread_step (i : nat) (a : attempt) (p : pc) (c : config)
    : option config :=
  let move p' := <[i := p']> (pcs c) in
  match p with
  | Start => Some (mkConfig (shared c) (lock c) (move Ready)
                     (blockers c) (savers c))
  | Ready =>
      match lock c with
      | None => Some (mkConfig (shared c) (Some i) (move AtCheck)
                        (blockers c) (savers c))
      | Some _ => None
      end
  | AtRelease r => Some (mkConfig (shared c) None (move (Done r))
                           (blockers c) (savers c))
  | Done _ => None
  | _ =>
      let '(p', s') := body_step a p (shared c) in
      Some (mkConfig s' (lock c) (move p')
              (match p with AtSetBlocked => blockers c ++ [i] | _ => blockers c end)
              (match p with AtSave => savers c ++ [i] | _ => savers c end))
  end.

(** The scheduler picks thread [i]. *)
Definition sched_step (c : config) (i : nat) : config :=
  match calls !! i, pcs c !! i with
  | Some a, Some p => default c (thread_step i a p c)
  | _, _ => c
  end.

Definition run_schedule (sched : list nat) (c : config) : config :=
  fold_left sched_step sched c.

Definition initial (s : sys) : config :=
  mkConfig s None (replicate (length calls) Start) [] [].

Definition is_done (p : pc) : bool :=
  match p with Done _ => true | _ => false end.

(** Every call has returned. *)
Definition all_done (c : config) : Prop :=
  Forall (fun p => is_done p = true) (pcs c).

(** The call with these inputs, made in state [s], enters the address in
    the block record. *)
Definition blocks_now (a : attempt) (s : sys) : bool :=
  negb (dict_mem ip (blocked_ips (blocker s))) &&
  bool_decide (Z.of_nat (length (counted (at_time a) ip s))
               >= block_threshold (blocker s)).

(** The calls of the threads [order], one after the other: their results,
    the threads whose call blocked the address, and the final state. *)
Fixpoint serial (order : list nat) (s : sys)
    : list (res bool) * list nat * sys :=
  match order with
  | [] => ([], [], s)
  | i :: rest =>
      match calls !! i with
      | Some a =>
          let '(r, s') :=
            track_connection_attempt isoformat (at_time a) (at_now a)
              (at_io a) ip s in
          let '(rs, bs, s'') := serial rest s' in
          (r :: rs, (if blocks_now a s then [i] else []) ++ bs, s'')
      | None => serial rest s
      end
  end.

(** The thread has run the line that enters the address in the block
    record and has not reached the end of the block. *)
Definition past_set (p : pc) : bool :=
  match p with
  | AtPopScore | AtDelAttempts | AtSave => true
  | _ => false
  end.

(** The result of a thread that has reached the end of the block. *)
Definition result_of (p : pc) : option (res bool) :=
  match p with
  | AtRelease r | Done r => Some r
  | _ => None
  end.

(** The thread stands at the line that enters the address in the block
    record. *)
Definition is_set (p : pc) : bool :=
  match p with AtSetBlocked => true | _ => false end.

(** The thread stands at the call of [_save_blocked_ips]. *)
Definition is_save (p : pc) : bool :=
  match p with AtSave => true | _ => false end.

(** The thread stands at a statement of the locked block. *)
Definition is_body (p : pc) : bool :=
  match p with
  | Start | Ready | AtRelease _ | Done _ => false
  | _ => true
  end.

(** What holds of the shared state [sh] while a thread with inputs [a]
    stands at [p] inside the locked block, [committed] being the state in
    which it took the lock. *)
Definition body_inv (a : attempt) (p : pc) (sh committed : sys) : Prop :=
  match p with
  | AtAppend | AtPrune | AtCount =>
      dict_mem ip (blocked_ips (blocker committed)) = false /\
      finish a p sh =
        track_connection_attempt isoformat (at_time a) (at_now a) (at_io a)
          ip committed
  | AtSetBlocked | AtPopScore | AtDelAttempts | AtSave =>
      blocks_now a committed = true /\
      finish a p sh =
        track_connection_attempt isoformat (at_time a) (at_now a) (at_io a)
          ip committed
  | _ => sh = committed
  end.

(** The configuration [c], reached from the state [s0], is what the calls
    of the threads [order], made one after the other, have produced, up to
    the progress of the thread that holds the lock. *)
Definition linearised (s0 : sys) (order : list nat) (c : config) : Prop :=
  let '(rs, bs, committed) := serial order s0 in
  NoDup order /\
  length (pcs c) = length calls /\
  length rs = length order /\
  (forall i p, pcs c !! i = Some p -> is_Some (result_of p) -> i ∈ order) /\
  (forall k i, order !! k = Some i ->
     exists p r, pcs c !! i = Some p /\ result_of p = Some r /\
       rs !! k = Some r) /\
  savers c = bs /\
  match lock c with
  | None =>
      shared c = committed /\ blockers c = bs /\
      forall i p, pcs c !! i = Some p -> inside p = false
  | Some i =>
      exists a p, calls !! i = Some a /\ pcs c !! i = Some p /\
        inside p = true /\
        (forall j p', j <> i -> pcs c !! j = Some p' -> inside p' = false) /\
        body_inv a p (shared c) committed /\
        blockers c = bs ++ (if past_set p then [i] else [])
  end.

End Threads.

(** The two states differ in the attempt windows at most. *)
Definition same_but_attempts (s s' : sys) : Prop :=
  blocked_ips (blocker s') = blocked_ips (blocker s) /\
  to_block (blocker s') = to_block (blocker s) /\
  block_threshold (blocker s') = block_threshold (blocker s) /\
  _last_save_state (blocker s') = _last_save_state (blocker s) /\
  _last_file_mtime (blocker s') = _last_file_mtime (blocker s) /\
  disk s' = disk s.

(** The state after [ip] has been entered in the block record at [now],
    before the save. *)
Definition entered (isoformat : Z -> string) (ip : string) (now : Z)
    (s : sys) : sys :=
  mkSys (mkIPBlocker
           (dict_set ip (PStr (isoformat now)) (blocked_ips (blocker s)))
           (delete ip (to_block (blocker s)))
           (delete ip (connection_attempts (blocker s)))
           (block_threshold (blocker s)) (_last_save_state (blocker s))
           (_last_file_mtime (blocker s)))
        (disk s).

(** ** Sample inputs *)

Definition sample_ip : string := "10.0.0.1".

(** A new object, no file. *)
Definition fresh : sys := mkSys init_blocker NoFile.

(** Ten attempts, one second apart. *)
Definition sample_calls : list attempt :=
  map (fun k => mkAttempt (inject_Z k) 0 (Some (inject_Z k)))
    [1; 2; 3; 4; 5; 6; 7; 8; 9; 10].

(** The address blocked at the instant 0. *)
Definition sample_blocked : sys :=
  mkSys (mkIPBlocker [(sample_ip, PStr "1970-01-01T00:00:00")] ∅ ∅
           BLOCK_THRESHOLD None 0%Q)
        NoFile.

(** One earlier attempt, at second 0. *)
Definition sample_tracking : sys :=
  mkSys (mkIPBlocker [] ∅ {[sample_ip := [0%Q]]} BLOCK_THRESHOLD None 0%Q)
        NoFile.

(** A record whose keys were inserted in the order ["b"], ["a"]. *)
Definition sample_unsorted : sys :=
  mkSys (mkIPBlocker [("b", PStr "1970-01-01T00:00:00");
                      ("a", PStr "1970-01-01T00:00:01")] ∅ ∅
           BLOCK_THRESHOLD None 0%Q)
        NoFile.

(** A legacy file with one address. *)
Definition sample_legacy : sys :=
  mkSys init_blocker (File (mkFile (ListDoc [LAddr "1.2.3.4"]) 1%Q)).

(** The address has a failure count, and a file written by someone else
    lists it. *)
Definition sample_scored : sys :=
  mkSys (mkIPBlocker [] {[sample_ip := (1 # 2)%Q]} ∅ BLOCK_THRESHOLD None 0%Q)
        (File (mkFile (DictDoc [(sample_ip, PStr "1970-01-01T00:00:00")]) 5%Q)).

(** The address is blocked, and a file written by someone else is empty. *)
Definition sample_edited : sys :=
  mkSys (mkIPBlocker [(sample_ip, PStr "1970-01-01T00:00:00")] ∅ ∅
           BLOCK_THRESHOLD None 0%Q)
        (File (mkFile (DictDoc []) 5%Q)).

(** Two threads and a threshold of two. *)
Definition sample_pair : list attempt :=
  [mkAttempt 1%Q 0 (Some 1%Q); mkAttempt 2%Q 1 (Some 2%Q)].
Definition sample_low : sys :=
  mkSys (mkIPBlocker [] ∅ ∅ 2 None 0%Q) NoFile.

(** Thread 1 reads the clock and takes the lock first; thread 0 waits. *)
Definition sample_schedule : list nat :=
  [1; 0; 1; 0; 1; 1; 0; 1; 1; 1; 0; 0; 0; 0; 0; 0; 0; 0; 0; 0; 0; 0; 0]%nat.

(** ** Further notions *)

(** What [_cleanup_old_connections] makes of one address's list. *)
Definition pruned (cutoff : Q) (o : option (list Q)) : option (list Q) :=
  match o with
  | Some l =>
      match recent cutoff l with
      | [] => None
      | l' => Some l'
      end
  | None => None
  end.

(** The attempt windows after the loop of [_cleanup_old_connections] has
    passed over the addresses [ips]. *)
Fixpoint prune_map (cutoff : Q) (ips : list string)
    (m : gmap string (list Q)) : gmap string (list Q) :=
  match ips with
  | [] => m
  | ip :: rest =>
      prune_map cutoff rest
        (match recent cutoff (default [] (m !! ip)) with
         | [] => delete ip m
         | l => <[ip := l]> m
         end)
  end.

(** [s'] holds no failure count and no attempt window that [s] does not
    hold, and has the same threshold. *)
Definition counts_narrow (s s' : sys) : Prop :=
  (forall ip q, to_block (blocker s') !! ip = Some q ->
                to_block (blocker s) !! ip = Some q) /\
  (forall ip l, connection_attempts (blocker s') !! ip = Some l ->
                connection_attempts (blocker s) !! ip = Some l) /\
  block_threshold (blocker s') = block_threshold (blocker s).

(** Every stored attempt window is non-empty and shorter than the
    threshold. *)
Definition attempts_bounded (s : sys) : Prop :=
  forall ip l, connection_attempts (blocker s) !! ip = Some l ->
    l <> [] /\ Z.of_nat (length l) < block_threshold (blocker s).

(** Every stored failure count is a positive number of halves below the
    threshold. *)
Definition scores_bounded (s : sys) : Prop :=
  forall ip q, to_block (blocker s) !! ip = Some q ->
    (0 < q /\ q < inject_Z (block_threshold (blocker s)))%Q /\
    exists k : Z, (q == k # 2)%Q.

Section Stale.
Variable fromisoformat : string -> option Z.

(** The stored value makes [_cleanup_expired_blocks] at [current_time]
    unblock the address: it is older than the reset interval, or it is not
    a timestamp. *)
Definition stale (current_time : Z) (v : pyval) : bool :=
  match v with
  | PStr s =>
      match fromisoformat s with
      | Some block_time =>
          bool_decide (current_time - block_time > BLOCK_RESET_INTERVAL)
      | None => true
      end
  | PNonStr _ => true
  end.

Definition stale_entry (current_time : Z) (d : pydict) (ip : string) : bool :=
  match dict_get ip d with
  | Some v => stale current_time v
  | None => false
  end.

End Stale.

Section OpRuns.
Variable isoformat : Z -> string.
Variable fromisoformat : string -> option Z.

(** The operations [ops] one after the other, under the lock. *)
Fixpoint run_ops (ops : list op) (s : sys) : sys :=
  match ops with
  | [] => s
  | o :: rest => run_ops rest (run_op isoformat fromisoformat o s)
  end.

End OpRuns.

Section FailRuns.
Variable isoformat : Z -> string.

(** Successive calls of [increment_failure_count] for one address, each
    with its [datetime.now()] and the outcome of the write, should there be
    one: the results, oldest first, and the final state. *)
Fixpoint fail_all (calls : list (Z * option Q)) (ip : string) (s : sys)
    : list (res bool) * sys :=
  match calls with
  | [] => ([], s)
  | c :: rest =>
      let '(r, s') := increment_failure_count isoformat c.1 c.2 ip s in
      let '(rs, s'') := fail_all rest ip s' in
      (r :: rs, s'')
  end.

End FailRuns.

(** Each timestamp is at least [CONNECTION_TIMEOUT] seconds later than the
    one before, [prev] being the one before the first. *)
Fixpoint spaced (prev : Q) (ts : list Q) : Prop :=
  match ts with
  | [] => True
  | t :: rest => (prev + CONNECTION_TIMEOUT <= t)%Q /\ spaced t rest
  end.

(** ** The address of the client ([utils.py]) *)

(** [s.replace(c, new)] for a pattern [c] of one character.  A Python
    [str] is taken in its UTF-8 encoding, in which the ASCII characters
    replaced here occur as themselves only. *)
Fixpoint replace_char (c : Ascii.ascii) (new : string) (s : string)
    : string :=
  match s with
  | EmptyString => EmptyString
  | String a rest =>
      if decide (a = c) then String.append new (replace_char c new rest)
      else String a (replace_char c new rest)
  end.

Definition normalize_ip (ip : string) : string :=
  match ip with
  | EmptyString => "unknown"
  | _ =>
      replace_char "]"%char ""
        (replace_char "["%char "" (replace_char ":"%char "_" ip))
  end.

(** The characters [normalize_ip] takes out. *)
Definition special (a : Ascii.ascii) : bool :=
  bool_decide (a = ":"%char) || bool_decide (a = "["%char)
  || bool_decide (a = "]"%char).

(** ** The handlers of the addon ([script.py]) *)

Definition HTTP_OK : Z := 200.
Definition HTTP_MULTIPLE_CHOICES : Z := 300.
Definition HTTP_UNAUTHORIZED : Z := 401.
Definition HTTP_FORBIDDEN : Z := 403.
Definition HTTP_PROXY_AUTH_REQUIRED : Z := 407.

(** The clock readings and write outcomes of one call of a method of the
    engine. *)
Record clock : Type := mkClock {
  ck_time : Q;          (* [time.time()] *)
  ck_now : Z;           (* [datetime.now()] *)
  ck_io : option Q      (* the write of [_save_blocked_ips] *)
}.

Section Handlers.
Variable isoformat : Z -> string.
Variable fromisoformat : string -> option Z.


(** [http_connect] and [requestheaders], for the address [client_ip] that
    [get_client_ip] has found: whether [flow.kill()] was called. *)
Definition requestheaders (client_ip : string) (c1 : clock) : M bool :=
  try_except
    (blocked ← is_ip_blocked fromisoformat (ck_now c1) (ck_io c1) client_ip;
     if blocked : bool then mret true else mret false)
    Exception
    (mret false).

(** The branch of [response] on the status code: whether the handler
    returns there. *)
Definition on_status (client_ip : string) (status_code : Z) (c2 : clock)
    : M bool :=
  if decide (status_code = HTTP_PROXY_AUTH_REQUIRED) then
    increment_failure_count isoformat (ck_now c2) (ck_io c2) client_ip
  else if bool_decide (status_code ∈ [HTTP_UNAUTHORIZED; HTTP_FORBIDDEN]) then
    increment_failure_count isoformat (ck_now c2) (ck_io c2) client_ip
  else if bool_decide (HTTP_OK <= status_code < HTTP_MULTIPLE_CHOICES) then
    reset_failure_count client_ip;; mret false
  else mret false.

(** [response], for the address [client_ip] that [get_client_ip] has found
    and the status code of [flow.response], if there is a response; the
    result tells whether the handler reaches the lines that create the HAR
    entry and hand it to [add_flow]. *)
Definition response (client_ip : string) (status : option Z)
    (c1 c2 c3 : clock) : M bool :=
  try_except
    (blocked ← is_ip_blocked fromisoformat (ck_now c1) (ck_io c1) client_ip;
     if blocked : bool then mret false
     else
       match status with
       | None => mret false
       | Some status_code =>
           was_blocked ← on_status client_ip status_code c2;
           if was_blocked : bool then mret false
           else
             blocked' ← is_ip_blocked fromisoformat (ck_now c3) (ck_io c3)
                          client_ip;
             if blocked' : bool then mret false else mret true
       end)
    Exception
    (mret false).

End Handlers.

(** ** Traffic capture ([har_capture.py]) *)

(** How the turn of the loop of [_save_flows] for one client goes on the
    file system: [mkdir] raises; or the directory is there and the write of
    the temporary file or its [replace] raises; or the file is written. *)
Inductive write_outcome : Type :=
| MkdirFails
| WriteFails
| WriteOk.

Section Capture.
(** A HAR entry, or whatever JSON value a file lists among its entries. *)
Variable entry : Type.

(** What [_save_flows] finds when it reads an existing [.har] file. *)
Inductive har_doc : Type :=
| HarUnreadable                   (* the [try] raises: [old = []] *)
| HarEntries (old : list entry)   (* [log.entries], [[]] without the keys *)
| HarNotList.                     (* [log.entries] is not a list *)

(** [flows] is the [defaultdict(list)] of the object, in insertion order;
    [files] maps the path of a [.har] file to its content. *)
Record TrafficCapture : Type := mkTrafficCapture {
  flows : list (string * list entry);
  files : gmap string har_doc
}.

Fixpoint flows_get (ip : string) (fl : list (string * list entry))
    : option (list entry) :=
  match fl with
  | [] => None
  | (k, l) :: rest => if decide (ip = k) then Some l else flows_get ip rest
  end.

(** [self.flows[client_ip].append(har_entry)] *)
Fixpoint flows_append (ip : string) (e : entry)
    (fl : list (string * list entry)) : list (string * list entry) :=
  match fl with
  | [] => [(ip, [e])]
  | (k, l) :: rest =>
      if decide (ip = k) then (k, l ++ [e]) :: rest
      else (k, l) :: flows_append ip e rest
  end.

Definition add_flow (client_ip : string) (har_entry : entry)
    (c : TrafficCapture) : TrafficCapture :=
  mkTrafficCapture (flows_append client_ip har_entry (flows c)) (files c).

(** [old + entries], [old] being what the file gave: [None] when the sum
    raises [TypeError]. *)
Definition all_entries (found : option har_doc) (entries : list entry)
    : option (list entry) :=
  match found with
  | None | Some HarUnreadable => Some entries
  | Some (HarEntries old) => Some (old ++ entries)
  | Some HarNotList => None
  end.

(** The loop of [_save_flows] over the copy of the flows; [har_file] gives
    the path of a client's file under the directory of the day. *)
Fixpoint save_each (har_file : string -> string)
    (outcome : string -> write_outcome)
    (items : list (string * list entry)) (fs : gmap string har_doc)
    : res unit * gmap string har_doc :=
  match items with
  | [] => (Ret (), fs)
  | (client_ip, entries) :: rest =>
      match outcome client_ip with
      | MkdirFails => (Raise OSError, fs)
      | o =>
          match all_entries (fs !! har_file client_ip) entries with
          | None => (Raise TypeError, fs)
          | Some all =>
              save_each har_file outcome rest
                (match o with
                 | WriteOk => <[har_file client_ip := HarEntries all]> fs
                 | _ => fs
                 end)
          end
      end
  end.

Definition _save_flows (har_file : string -> string)
    (outcome : string -> write_outcome) (c : TrafficCapture)
    : res unit * TrafficCapture :=
  match flows c with
  | [] => (Ret (), c)
  | flows_copy =>
      let '(r, fs) := save_each har_file outcome flows_copy (files c) in
      (r, mkTrafficCapture [] fs)
  end.

End Capture.

Arguments HarUnreadable {entry}.
Arguments HarEntries {entry} old.
Arguments HarNotList {entry}.
Arguments mkTrafficCapture {entry} flows files.
Arguments flows {entry} t.
Arguments files {entry} t.
Arguments flows_get {entry} ip fl.
Arguments flows_append {entry} ip e fl.
Arguments add_flow {entry} client_ip har_entry c.
Arguments all_entries {entry} found entries.
Arguments save_each {entry} har_file outcome items fs.
Arguments _save_flows {entry} har_file outcome c.

(** ** Further sample inputs *)

(** The address is listed with a value that is no timestamp, and has a
    failure count. *)
Definition sample_invalid : sys :=
  mkSys (mkIPBlocker [(sample_ip, PStr "yesterday")]
           {[sample_ip := (1 # 2)%Q]} ∅ BLOCK_THRESHOLD None 0%Q)
        NoFile.

(** An attempt, a failure, a cleanup of the windows a minute later. *)
Definition sample_ops : list op :=
  [TrackConnectionAttempt 1%Q 0 None sample_ip;
   IncrementFailureCount 0 None sample_ip;
   CleanupOldConnections 61%Q].

(** Four failures, for a threshold of two. *)
Definition sample_failures : list (Z * option Q) :=
  [(0, None); (0, None); (1, None); (1000000, Some 1%Q)].

(** Three attempts, half a minute apart. *)
Definition sample_slow : list attempt :=
  [mkAttempt 0%Q 0 None; mkAttempt 30%Q 0 None; mkAttempt 60%Q 1 None].

Definition sample_clock : clock := mkClock 0%Q 0 None.

(** One client with two pending entries, whose file lists one entry. *)
Definition sample_har_file (client_ip : string) : string :=
  String.append client_ip ".har".
Definition sample_capture : TrafficCapture nat :=
  mkTrafficCapture [(sample_ip, [1; 2]%nat)]
    {[sample_har_file sample_ip := HarEntries [0%nat]]}.

(** ** More notions *)

(** Presence in the block record implies absence from the attempt
    windows. *)
Definition blocked_untracked (s : sys) : Prop :=
  forall ip, is_Some (dict_get ip (blocked_ips (blocker s))) ->
             connection_attempts (blocker s) !! ip = None.

(** What [get_client_ip] looks at in a flow: whether the flow and its
    client connection are there, the two headers of the request (a header
    that is absent is [None]), and [client_conn.peername[0]]. *)
Record request_headers : Type := mkHeaders {
  x_real_ip : option string;
  x_forwarded_for : option string
}.

Record flow : Type := mkFlow {
  fl_client_conn : bool;
  fl_request : option request_headers;
  fl_peername : option string
}.

(** [s.split(",")[0]] *)
Fixpoint before_comma (s : string) : string :=
  match s with
  | EmptyString => EmptyString
  | String a rest =>
      if decide (a = ","%char) then EmptyString
      else String a (before_comma rest)
  end.

(** The truth value of a [str]. *)
Definition truthy (s : string) : bool :=
  match s with
  | EmptyString => false
  | String _ _ => true
  end.

Section ClientIp.
(** [str.strip()], of Python's library. *)
Variable strip : string -> string.

(** The address the [X-Forwarded-For] header gives, if it gives one. *)
Definition from_forwarded (h : request_headers) : option string :=
  match x_forwarded_for h with
  | Some forwarded_for =>
      if truthy forwarded_for then
        let ip := strip (before_comma forwarded_for) in
        if truthy ip then Some (normalize_ip ip) else None
      else None
  | None => None
  end.

(** The address the headers give, if they give one. *)
Definition from_headers (h : request_headers) : option string :=
  match x_real_ip h with
  | Some real_ip =>
      if truthy real_ip then Some (normalize_ip real_ip)
      else from_forwarded h
  | None => from_forwarded h
  end.

Definition get_client_ip (f : flow) : string :=
  if negb (fl_client_conn f) then "unknown"
  else
    match from_option from_headers None (fl_request f) with
    | Some ip => ip
    | None =>
        match fl_peername f with
        | Some peer => normalize_ip peer
        | None => "unknown"
        end
    end.

End ClientIp.

(** The peer is the blocked sample address; the request carries an
    [X-Real-IP] header that names another address. *)
Definition sample_flow : flow :=
  mkFlow true (Some (mkHeaders (Some "10.9.9.9") None)) (Some sample_ip).

(** ** The record a file gives *)

(** The addresses of a legacy array, when all its elements are strings. *)
Fixpoint legacy_addrs (items : list legacy_item) : option (list string) :=
  match items with
  | [] => Some []
  | LAddr ip :: rest => cons ip <$> legacy_addrs rest
  | LUnhashable :: _ => None
  end.

(** The block record that stands for the content of a file: the object's
    pairs; for the old format the listed addresses under the clock of their
    turn of the loop; nothing for a content that cannot be taken in. *)
Definition loaded_record (isoformat : Z -> string) (nows : nat -> Z)
    (data : file_data) : pydict :=
  match data with
  | Corrupt | ScalarDoc => []
  | DictDoc pairs => dict_of_pairs pairs
  | ListDoc items =>
      match legacy_addrs items with
      | Some ips => legacy_record isoformat nows 0 ips []
      | None => []
      end
  | StrDoc cs => legacy_record isoformat nows 0 cs []
  end.

(** ** Sample inputs at the edges *)

(** Ten attempts in the closed interval from second 0 to second 30: nine at
    the seconds 0 to 8, the tenth at second 30. *)
Definition sample_boundary_calls : list attempt :=
  map (fun k => mkAttempt (inject_Z k) 0 None) [0; 1; 2; 3; 4; 5; 6; 7; 8; 30].

(** Two threads whose clocks read second 0 and second 30; thread 0 runs to
    its end before thread 1 starts. *)
Definition sample_edge_pair : list attempt :=
  [mkAttempt 0%Q 0 (Some 1%Q); mkAttempt 30%Q 1 (Some 2%Q)].
Definition sample_serial_schedule : list nat :=
  [0; 0; 0; 0; 0; 0; 0; 0; 0; 0; 0; 0; 1; 1; 1; 1; 1; 1; 1; 1; 1; 1; 1; 1]%nat.

(** The sample address is blocked and has a failure count, as the reload of
    a file written by someone else leaves it; the file has since been
    deleted. *)
Definition sample_deleted : sys :=
  mkSys (blocker (_load_blocked_ips sample_isoformat (fun _ => 0)
                    sample_scored).2)
        NoFile.

(** One address is blocked, another has a failure count, and a file written
    by someone else lists a third. *)
Definition sample_mixed : sys :=
  mkSys (mkIPBlocker [("b", PStr "1970-01-01T00:00:00")]
           {[sample_ip := (1 # 2)%Q]} ∅ BLOCK_THRESHOLD None 0%Q)
        (File (mkFile (DictDoc [("a", PStr "1970-01-01T00:00:01")]) 5%Q)).

(** ** Facts about the dictionary operations *)

Lemma dict_mem_get k d : dict_mem k d = true <-> is_Some (dict_get k d).
Proof.
  unfold dict_mem. destruct (dict_get k d); split; intros H; eauto.
  - discriminate.
  - destruct H; discriminate.
Qed.

Lemma dict_mem_false k d : dict_mem k d = false <-> dict_get k d = None.
Proof.
  unfold dict_mem. destruct (dict_get k d); split; intros H;
    congruence.
Qed.

Lemma dict_get_set_eq k v d : dict_get k (dict_set k v d) = Some v.
Proof.
  induction d as [|[k' v'] d IH]; simpl.
  - rewrite decide_True; auto.
  - destruct (decide (k = k')) as [->|Hne]; simpl.
    + rewrite decide_True; auto.
    + rewrite decide_False; auto.
Qed.

Lemma dict_get_set_ne k k' v d :
  k <> k' -> dict_get k' (dict_set k v d) = dict_get k' d.
Proof.
  intros Hne. induction d as [|[k1 v1] d IH]; simpl.
  - rewrite decide_False; auto.
  - destruct (decide (k = k1)) as [->|Hk]; simpl.
    + rewrite !decide_False; auto.
    + destruct (decide (k' = k1)); auto.
Qed.

Lemma dict_get_del_eq k d : dict_get k (dict_del k d) = None.
Proof.
  induction d as [|[k' v'] d IH]; simpl; auto.
  case_bool_decide; simpl; auto.
  rewrite decide_False; auto.
Qed.

Lemma dict_get_del_ne k k' d :
  k <> k' -> dict_get k' (dict_del k d) = dict_get k' d.
Proof.
  intros Hne. induction d as [|[k1 v1] d IH]; simpl; auto.
  case_bool_decide; simpl in *; subst.
  - rewrite decide_False; auto.
  - destruct (decide (k' = k1)); auto.
Qed.

Lemma dict_get_keys k d : dict_get k d = None <-> k ∉ dict_keys d.
Proof.
  induction d as [|[k' v'] d IH]; simpl.
  - split; auto. intros _ H. inversion H.
  - rewrite not_elem_of_cons. destruct (decide (k = k')); split.
    + discriminate.
    + intros [? _]; contradiction.
    + intros; split; auto. apply IH; auto.
    + intros [_ ?]. apply IH; auto.
Qed.

Lemma dict_keys_del k d :
  dict_keys (dict_del k d) = List.filter (fun x => negb (bool_decide (x = k))) (dict_keys d).
Proof.
  induction d as [|[k' v'] d IH]; simpl; auto.
  case_bool_decide; simpl; auto. f_equal. auto.
Qed.

Lemma dict_keys_set_in k v d :
  k ∈ dict_keys d -> dict_keys (dict_set k v d) = dict_keys d.
Proof.
  induction d as [|[k' v'] d IH]; simpl; intros H.
  - inversion H.
  - destruct (decide (k = k')); simpl; auto.
    f_equal. apply IH. apply elem_of_cons in H as [?|?]; auto. contradiction.
Qed.

Lemma dict_keys_set_notin k v d :
  k ∉ dict_keys d -> dict_keys (dict_set k v d) = dict_keys d ++ [k].
Proof.
  induction d as [|[k' v'] d IH]; simpl; intros H; auto.
  apply not_elem_of_cons in H as [H1 H2].
  rewrite decide_False; auto. simpl. f_equal. auto.
Qed.

Lemma NoDup_dict_set k v d :
  NoDup (dict_keys d) -> NoDup (dict_keys (dict_set k v d)).
Proof.
  intros H. destruct (decide (k ∈ dict_keys d)).
  - rewrite dict_keys_set_in; auto.
  - rewrite dict_keys_set_notin; auto.
    apply NoDup_app. split; [auto|]. split.
    + intros x Hx Hx'. apply list_elem_of_singleton in Hx'. subst. auto.
    + apply NoDup_singleton.
Qed.

Lemma NoDup_dict_del k d :
  NoDup (dict_keys d) -> NoDup (dict_keys (dict_del k d)).
Proof.
  intros H. rewrite dict_keys_del.
  induction H as [|x l Hx Hl IH]; simpl; [constructor|].
  case_bool_decide; simpl; auto.
  constructor; auto. intros Hin. apply Hx.
  apply list_elem_of_In in Hin. apply filter_In in Hin as [Hin _].
  apply list_elem_of_In; auto.
Qed.

(** ** Facts about the window filter *)

Lemma Qgtb_spec t c : Qgtb t c = true <-> (c < t)%Q.
Proof.
  unfold Qgtb. rewrite negb_true_iff. split.
  - intros H. apply Qnot_le_lt. intros Hle.
    apply Qle_bool_iff in Hle. congruence.
  - intros H. destruct (Qle_bool t c) eqn:E; auto.
    apply Qle_bool_iff in E. exfalso. lra.
Qed.

Lemma recent_app c l1 l2 : recent c (l1 ++ l2) = recent c l1 ++ recent c l2.
Proof. unfold recent. apply List.filter_app. Qed.

Lemma recent_all c l : Forall (fun t => (c < t)%Q) l -> recent c l = l.
Proof.
  induction 1 as [|t l Ht Hl IH]; simpl; auto.
  apply Qgtb_spec in Ht. rewrite Ht. f_equal. exact IH.
Qed.

Lemma recent_spec c l t : t ∈ recent c l <-> t ∈ l /\ (c < t)%Q.
Proof.
  unfold recent. rewrite !list_elem_of_In, filter_In, Qgtb_spec. tauto.
Qed.

(** ** What each operation does to the state *)

(** Unfolding of the monad's plumbing. *)
Ltac run_monad :=
  cbv beta iota zeta delta
    [mbind mret M_bind M_ret raise try_except read read_disk write_disk update
     set_blocked_ips set_to_block set_connection_attempts
     set_last_save_state set_last_file_mtime
     blocked_ips_setitem blocked_ips_delitem to_block_pop to_block_delitem
     connection_attempts_pop connection_attempts_delitem
     connection_attempts_getitem connection_attempts_setitem
     connection_attempts_append connection_attempts_prune
     Exception ValueError_TypeError];
  cbn [blocker disk blocked_ips to_block connection_attempts block_threshold
       _last_save_state _last_file_mtime].

Ltac run_lookups :=
  repeat (run_monad; rewrite ?lookup_insert_eq, ?insert_insert_eq).

Section EngineFacts.
Variable isoformat : Z -> string.
Variable fromisoformat : string -> option Z.

Lemma save_run io s : _save_blocked_ips io s = (Ret (), saved io s).
Proof.
  destruct s as [[d tb ca th lss lfm] dk].
  unfold _save_blocked_ips, saved; simpl.
  unfold mbind, M_bind, read; simpl.
  destruct (decide (Some (json_dumps_sorted d) = lss)); auto.
  destruct io; reflexivity.
Qed.

Lemma saved_blocked_ips io s :
  blocked_ips (blocker (saved io s)) = blocked_ips (blocker s).
Proof.
  unfold saved. destruct (decide _); auto. destruct io; auto.
Qed.

Lemma saved_to_block io s :
  to_block (blocker (saved io s)) = to_block (blocker s).
Proof.
  unfold saved. destruct (decide _); auto. destruct io; auto.
Qed.

Lemma saved_connection_attempts io s :
  connection_attempts (blocker (saved io s)) = connection_attempts (blocker s).
Proof.
  unfold saved. destruct (decide _); auto. destruct io; auto.
Qed.

Lemma saved_block_threshold io s :
  block_threshold (blocker (saved io s)) = block_threshold (blocker s).
Proof.
  unfold saved. destruct (decide _); auto. destruct io; auto.
Qed.

Lemma track_blocked t now io ip s :
  dict_mem ip (blocked_ips (blocker s)) = true ->
  track_connection_attempt isoformat t now io ip s = (Ret true, s).
Proof.
  intros H. unfold track_connection_attempt, mbind, M_bind, read; cbn.
  rewrite H. reflexivity.
Qed.

Lemma track_below t now io ip s :
  dict_mem ip (blocked_ips (blocker s)) = false ->
  Z.of_nat (length (counted t ip s)) < block_threshold (blocker s) ->
  track_connection_attempt isoformat t now io ip s =
    (Ret false,
     mkSys (mkIPBlocker (blocked_ips (blocker s)) (to_block (blocker s))
              (<[ip := counted t ip s]> (connection_attempts (blocker s)))
              (block_threshold (blocker s)) (_last_save_state (blocker s))
              (_last_file_mtime (blocker s)))
           (disk s)).
Proof.
  intros H Hlt. destruct s as [[d tb ca th lss lfm] dk]; simpl in *.
  unfold track_connection_attempt. run_monad.
  rewrite H. unfold counted in *; cbn [blocker connection_attempts] in *.
  destruct (ca !! ip) as [l|] eqn:E; cbn [default from_option id] in *;
    run_lookups; rewrite decide_False by lia; reflexivity.
Qed.

Lemma track_reached t now io ip s :
  dict_mem ip (blocked_ips (blocker s)) = false ->
  Z.of_nat (length (counted t ip s)) >= block_threshold (blocker s) ->
  track_connection_attempt isoformat t now io ip s =
    (Ret true,
     saved io
       (mkSys (mkIPBlocker
                 (dict_set ip (PStr (isoformat now)) (blocked_ips (blocker s)))
                 (delete ip (to_block (blocker s)))
                 (delete ip (connection_attempts (blocker s)))
                 (block_threshold (blocker s)) (_last_save_state (blocker s))
                 (_last_file_mtime (blocker s)))
              (disk s))).
Proof.
  intros H Hge. destruct s as [[d tb ca th lss lfm] dk]; simpl in *.
  unfold track_connection_attempt. run_monad.
  rewrite H. unfold counted in *; cbn [blocker connection_attempts] in *.
  destruct (ca !! ip) as [l|] eqn:E; cbn [default from_option id] in *;
    run_lookups; rewrite decide_True by lia; run_lookups;
    rewrite save_run, delete_insert_eq; reflexivity.
Qed.

Lemma is_ip_blocked_absent now io ip s :
  dict_get ip (blocked_ips (blocker s)) = None ->
  is_ip_blocked fromisoformat now io ip s = (Ret false, s).
Proof.
  destruct s as [[d tb ca th lss lfm] dk]; cbn. intros H.
  unfold is_ip_blocked. run_monad. rewrite H. reflexivity.
Qed.

Lemma is_ip_blocked_live now io ip s str block_time :
  dict_get ip (blocked_ips (blocker s)) = Some (PStr str) ->
  fromisoformat str = Some block_time ->
  now - block_time <= BLOCK_RESET_INTERVAL ->
  is_ip_blocked fromisoformat now io ip s = (Ret true, s).
Proof.
  destruct s as [[d tb ca th lss lfm] dk]; cbn. intros H Hp Hle.
  unfold is_ip_blocked, parse_block_time. run_monad.
  rewrite H. run_monad. rewrite Hp. run_monad.
  rewrite decide_False by lia. reflexivity.
Qed.

Lemma is_ip_blocked_expired now io ip s str block_time :
  dict_get ip (blocked_ips (blocker s)) = Some (PStr str) ->
  fromisoformat str = Some block_time ->
  now - block_time > BLOCK_RESET_INTERVAL ->
  is_ip_blocked fromisoformat now io ip s =
    (Ret false,
     saved io
       (mkSys (mkIPBlocker
                 (dict_del ip (blocked_ips (blocker s)))
                 (delete ip (to_block (blocker s)))
                 (delete ip (connection_attempts (blocker s)))
                 (block_threshold (blocker s)) (_last_save_state (blocker s))
                 (_last_file_mtime (blocker s)))
              (disk s))).
Proof.
  destruct s as [[d tb ca th lss lfm] dk]; cbn. intros H Hp Hgt.
  assert (Hm : dict_mem ip d = true).
  { apply dict_mem_get. rewrite H. eauto. }
  unfold is_ip_blocked, parse_block_time. run_monad.
  rewrite H. run_monad. rewrite Hp. run_monad.
  rewrite decide_True by lia. run_monad. rewrite Hm. run_monad.
  rewrite save_run. reflexivity.
Qed.

Lemma is_ip_blocked_invalid now io ip s v :
  dict_get ip (blocked_ips (blocker s)) = Some v ->
  match v with PStr str => fromisoformat str = None | PNonStr _ => True end ->
  is_ip_blocked fromisoformat now io ip s =
    (Ret false,
     mkSys (mkIPBlocker
              (dict_del ip (blocked_ips (blocker s)))
              (to_block (blocker s)) (connection_attempts (blocker s))
              (block_threshold (blocker s)) (_last_save_state (blocker s))
              (_last_file_mtime (blocker s)))
           (disk s)).
Proof.
  destruct s as [[d tb ca th lss lfm] dk]; cbn. intros H Hv.
  assert (Hm : dict_mem ip d = true).
  { apply dict_mem_get. rewrite H. eauto. }
  unfold is_ip_blocked, parse_block_time. run_monad. rewrite H.
  destruct v as [str|c]; [rewrite Hv|]; run_monad; rewrite Hm; reflexivity.
Qed.

(** ** Reaching the threshold within one window *)

Lemma counted_keeps t ip s pre done :
  default [] (connection_attempts (blocker s) !! ip) = pre ++ done ->
  Forall (fun u => (t - CONNECTION_TIMEOUT < u)%Q) done ->
  counted t ip s = recent (t - CONNECTION_TIMEOUT)%Q pre ++ done ++ [t].
Proof.
  intros Hs Hd. unfold counted. rewrite Hs, <- app_assoc, recent_app.
  f_equal. apply recent_all. apply Forall_app. split; auto.
  constructor; [|constructor]. unfold CONNECTION_TIMEOUT. lra.
Qed.

Lemma track_all_blocked calls ip s :
  dict_mem ip (blocked_ips (blocker s)) = true ->
  track_all isoformat calls ip s = (map (fun _ => Ret true) calls, s).
Proof.
  intros H. induction calls as [|c rest IH]; simpl; auto.
  rewrite track_blocked by exact H. rewrite IH. reflexivity.
Qed.

Lemma last_all_true {A} (calls : list A) (r : res bool) :
  last (r :: map (fun _ => Ret true) calls) =
    Some (match calls with [] => r | _ => Ret true end).
Proof.
  revert r. induction calls as [|c rest IH]; intros r; auto.
  change (last (Ret true :: map (fun _ => Ret true) rest)
          = Some (Ret true : res bool)).
  rewrite IH. destruct rest; auto.
Qed.

Lemma track_all_reaches ip window_end rest :
  forall (done pre : list Q) (s : sys),
  dict_mem ip (blocked_ips (blocker s)) = false ->
  default [] (connection_attempts (blocker s) !! ip) = pre ++ done ->
  one_window window_end (done ++ map at_time rest) ->
  rest <> [] ->
  block_threshold (blocker s) <= Z.of_nat (length done + length rest) ->
  exists c, c ∈ rest /\
    dict_get ip (blocked_ips (blocker (track_all isoformat rest ip s).2))
      = Some (PStr (isoformat (at_now c))) /\
    last (track_all isoformat rest ip s).1 = Some (Ret true).
Proof.
  induction rest as [|c rest IH]; intros done pre s Hfree Hdone Hwin Hne Hth.
  - congruence.
  - assert (Hcount : counted (at_time c) ip s =
              recent (at_time c - CONNECTION_TIMEOUT)%Q pre
                ++ done ++ [at_time c]).
    { apply counted_keeps; auto.
      unfold one_window in Hwin. rewrite Forall_app in Hwin.
      destruct Hwin as [Hd Hr]. simpl in Hr. inversion Hr as [|? ? [_ Hc] _]; subst.
      eapply Forall_impl; [exact Hd|]. simpl. intros u [Hu _]. lra. }
    simpl.
    destruct (Z_lt_ge_dec (Z.of_nat (length (counted (at_time c) ip s)))
                (block_threshold (blocker s))) as [Hlt|Hge].
    + rewrite track_below by assumption.
      destruct rest as [|c' rest'].
      { exfalso. rewrite Hcount in Hlt. rewrite !length_app in Hlt.
        simpl in Hlt, Hth. lia. }
      match goal with
      | |- context [track_all _ _ _ ?s1] =>
          destruct (IH (done ++ [at_time c])
                      (recent (at_time c - CONNECTION_TIMEOUT)%Q pre) s1)
            as (c0 & Hin & Hget & Hlast)
      end.
      * exact Hfree.
      * cbn [blocker connection_attempts]. rewrite lookup_insert_eq.
        cbn [default from_option id]. rewrite Hcount. reflexivity.
      * rewrite <- app_assoc. exact Hwin.
      * discriminate.
      * cbn [blocker block_threshold]. rewrite length_app. simpl in *. lia.
      * exists c0. split; [right; exact Hin|].
        destruct (track_all isoformat (c' :: rest') ip _) as [rs s'] eqn:E.
        simpl in *. split; [exact Hget|].
        destruct rs as [|r rs]; [discriminate|]. exact Hlast.
    + rewrite track_reached by assumption.
      rewrite track_all_blocked.
      2:{ rewrite saved_blocked_ips. cbn. apply dict_mem_get.
          rewrite dict_get_set_eq. eauto. }
      exists c. split; [left|]. simpl. split.
      * rewrite saved_blocked_ips. cbn. apply dict_get_set_eq.
      * rewrite last_all_true. destruct rest; reflexivity.
Qed.

(** C1 (as amended).  When an address that is not blocked makes at least
    [block_threshold] connection attempts (and at least one) whose
    timestamps all lie within one window of the code, later than
    [window_end - CONNECTION_TIMEOUT] and no later than [window_end],
    the address ends up in the block record, under the [datetime.now()] of
    one of these calls, the last call answers [True], and a call of
    [is_ip_blocked] made no more than the reset interval after the calls
    answers [True] and changes nothing.  The library is asked only to read
    back the timestamps it wrote. *)
Theorem track_threshold_blocks (s : sys) (ip : string) (calls : list attempt)
    (window_end : Q) (now' : Z) (io' : option Q) :
  dict_mem ip (blocked_ips (blocker s)) = false ->
  calls <> [] ->
  block_threshold (blocker s) <= Z.of_nat (length calls) ->
  one_window window_end (map at_time calls) ->
  Forall (fun c => fromisoformat (isoformat (at_now c)) = Some (at_now c)
                   /\ now' - at_now c <= BLOCK_RESET_INTERVAL) calls ->
  exists c, c ∈ calls /\
    dict_get ip (blocked_ips (blocker (track_all isoformat calls ip s).2))
      = Some (PStr (isoformat (at_now c))) /\
    last (track_all isoformat calls ip s).1 = Some (Ret true) /\
    is_ip_blocked fromisoformat now' io' ip (track_all isoformat calls ip s).2
      = (Ret true, (track_all isoformat calls ip s).2).
Proof.
  intros Hfree Hne Hth Hwin Hiso.
  destruct (track_all_reaches ip window_end calls []
              (default [] (connection_attempts (blocker s) !! ip)) s)
    as (c & Hin & Hget & Hlast); auto.
  - rewrite app_nil_r. reflexivity.
  - exists c. repeat split; auto.
    rewrite Forall_forall in Hiso. destruct (Hiso c Hin) as [Hrt Hsoon].
    eapply is_ip_blocked_live; eauto.
Qed.

(** ** Lazy expiry *)

(** C2 (as amended).  For an address blocked at time [T], with a timestamp
    the library parses back to [T], [is_ip_blocked] answers [True] and
    changes nothing at any check up to and including [T] plus the reset
    interval; at any check strictly later it answers [False] and removes the
    address from the block record, the failure counts and the attempt
    windows.  No cleanup pass is involved. *)
Theorem is_ip_blocked_lazy_expiry (s : sys) (ip str : string) (T now : Z)
    (io : option Q) :
  dict_get ip (blocked_ips (blocker s)) = Some (PStr str) ->
  fromisoformat str = Some T ->
  (now <= T + BLOCK_RESET_INTERVAL ->
     is_ip_blocked fromisoformat now io ip s = (Ret true, s)) /\
  (now > T + BLOCK_RESET_INTERVAL ->
     let r := is_ip_blocked fromisoformat now io ip s in
     r.1 = Ret false /\
     dict_get ip (blocked_ips (blocker r.2)) = None /\
     to_block (blocker r.2) !! ip = None /\
     connection_attempts (blocker r.2) !! ip = None).
Proof.
  intros Hget Hparse. split; intros Hnow.
  - eapply is_ip_blocked_live; eauto. lia.
  - rewrite (is_ip_blocked_expired now io ip s str T) by (auto; lia).
    cbn [fst snd]. rewrite saved_blocked_ips, saved_to_block,
      saved_connection_attempts. cbn.
    rewrite dict_get_del_eq, !lookup_delete_eq. auto.
Qed.

(** ** The attempt window *)

(** C4 (as amended).  A call of [track_connection_attempt] at time [t] for
    an address that is not blocked and stays below the threshold leaves, as
    the address's timestamps, the stored ones strictly later than
    [t - CONNECTION_TIMEOUT], in their order, followed by [t].  So an
    earlier attempt at [T0] is still there when [t < T0 + CONNECTION_TIMEOUT]
    and is gone when [T0 + CONNECTION_TIMEOUT <= t]. *)
Theorem track_window_contents (s : sys) (ip : string) (t : Q) (now : Z)
    (io : option Q) :
  dict_mem ip (blocked_ips (blocker s)) = false ->
  Z.of_nat (length (counted t ip s)) < block_threshold (blocker s) ->
  let old := default [] (connection_attempts (blocker s) !! ip) in
  let s' := (track_connection_attempt isoformat t now io ip s).2 in
  connection_attempts (blocker s') !! ip
    = Some (recent (t - CONNECTION_TIMEOUT)%Q old ++ [t]) /\
  (forall u, u ∈ recent (t - CONNECTION_TIMEOUT)%Q old
             <-> u ∈ old /\ (t - CONNECTION_TIMEOUT < u)%Q) /\
  (forall T0, T0 ∈ old ->
     ((t < T0 + CONNECTION_TIMEOUT)%Q ->
        T0 ∈ recent (t - CONNECTION_TIMEOUT)%Q old ++ [t]) /\
     ((T0 + CONNECTION_TIMEOUT <= t)%Q ->
        T0 ∉ recent (t - CONNECTION_TIMEOUT)%Q old ++ [t])).
Proof.
  intros Hfree Hlt old s'. subst s'.
  rewrite track_below by assumption. cbn [snd blocker connection_attempts].
  rewrite lookup_insert_eq. split; [|split].
  - unfold counted. fold old. rewrite recent_app. do 2 f_equal.
    apply recent_all. constructor; [|constructor].
    unfold CONNECTION_TIMEOUT. lra.
  - intros u. apply recent_spec.
  - intros T0 Hin. split; intros HT.
    + apply elem_of_app. left. apply recent_spec. split; auto. lra.
    + intros [Hr|Hr]%elem_of_app.
      * apply recent_spec in Hr as [_ Hr]. lra.
      * apply list_elem_of_singleton in Hr. subst T0.
        unfold CONNECTION_TIMEOUT in HT. lra.
Qed.

(** ** Failure counts *)

Lemma Qle_bool_false a b : Qle_bool a b = false <-> (b < a)%Q.
Proof.
  split; intros H.
  - apply Qnot_le_lt. intros Hle. apply Qle_bool_iff in Hle. congruence.
  - destruct (Qle_bool a b) eqn:E; auto.
    apply Qle_bool_iff in E. exfalso. lra.
Qed.

Lemma increment_blocked now io ip s :
  dict_mem ip (blocked_ips (blocker s)) = true ->
  increment_failure_count isoformat now io ip s = (Ret false, s).
Proof.
  destruct s as [[d tb ca th lss lfm] dk]; cbn. intros H.
  unfold increment_failure_count. run_monad. rewrite H. reflexivity.
Qed.

Lemma increment_below now io ip s :
  dict_mem ip (blocked_ips (blocker s)) = false ->
  let count := Qred (default 0%Q (to_block (blocker s) !! ip) + 1 / 2)%Q in
  (count < inject_Z (block_threshold (blocker s)))%Q ->
  increment_failure_count isoformat now io ip s =
    (Ret false,
     mkSys (mkIPBlocker (blocked_ips (blocker s))
              (<[ip := count]> (to_block (blocker s)))
              (connection_attempts (blocker s))
              (block_threshold (blocker s)) (_last_save_state (blocker s))
              (_last_file_mtime (blocker s)))
           (disk s)).
Proof.
  destruct s as [[d tb ca th lss lfm] dk]; cbn. intros H Hlt.
  unfold increment_failure_count. run_monad. rewrite H. run_monad.
  apply Qle_bool_false in Hlt. rewrite Hlt. reflexivity.
Qed.

Lemma increment_reached now io ip s :
  dict_mem ip (blocked_ips (blocker s)) = false ->
  let count := Qred (default 0%Q (to_block (blocker s) !! ip) + 1 / 2)%Q in
  (inject_Z (block_threshold (blocker s)) <= count)%Q ->
  increment_failure_count isoformat now io ip s =
    (Ret true,
     saved io
       (mkSys (mkIPBlocker
                 (dict_set ip (PStr (isoformat now)) (blocked_ips (blocker s)))
                 (delete ip (to_block (blocker s)))
                 (delete ip (connection_attempts (blocker s)))
                 (block_threshold (blocker s)) (_last_save_state (blocker s))
                 (_last_file_mtime (blocker s)))
              (disk s))).
Proof.
  destruct s as [[d tb ca th lss lfm] dk]; cbn. intros H Hle.
  unfold increment_failure_count. run_monad. rewrite H. run_monad.
  apply Qle_bool_iff in Hle. rewrite Hle. run_monad.
  rewrite lookup_insert_eq. run_monad. rewrite save_run.
  rewrite delete_insert_eq. reflexivity.
Qed.

Lemma reset_run ip s :
  reset_failure_count ip s =
    (Ret (),
     mkSys (mkIPBlocker (blocked_ips (blocker s))
              (delete ip (to_block (blocker s)))
              (connection_attempts (blocker s))
              (block_threshold (blocker s)) (_last_save_state (blocker s))
              (_last_file_mtime (blocker s)))
           (disk s)).
Proof.
  destruct s as [[d tb ca th lss lfm] dk]; cbn.
  unfold reset_failure_count. run_monad.
  destruct (tb !! ip) eqn:E; run_monad.
  - rewrite E. reflexivity.
  - rewrite delete_id by exact E. reflexivity.
Qed.

Lemma half_below (th : Z) (q : Q) :
  2 <= th -> (q <= 3 # 2)%Q -> (q < inject_Z th)%Q.
Proof.
  intros Hth Hq. apply Qle_lt_trans with (3 # 2)%Q; auto.
  unfold Qlt, inject_Z; simpl. lia.
Qed.

(** C5.  For an address that is not blocked, a call of
    [increment_failure_count] that stays below the threshold stores the
    previous count (0 when there is none) plus 1/2.  With a threshold of at
    least 2 (it is 10) and no count to start with, three calls give 1/2, 1
    and 3/2 and block nothing; [reset_failure_count] then removes the entry;
    one more call gives 1/2. *)
Theorem failure_count_interplay (s : sys) (ip : string) (now1 now2 now3 now4 : Z)
    (io1 io2 io3 io4 : option Q) :
  dict_mem ip (blocked_ips (blocker s)) = false ->
  to_block (blocker s) !! ip = None ->
  2 <= block_threshold (blocker s) ->
  (forall s0 now0 io0,
     dict_mem ip (blocked_ips (blocker s0)) = false ->
     let q := default 0%Q (to_block (blocker s0) !! ip) in
     (q + (1 # 2) < inject_Z (block_threshold (blocker s0)))%Q ->
     exists q',
       to_block (blocker (increment_failure_count isoformat now0 io0 ip s0).2) !! ip
         = Some q' /\ (q' == q + (1 # 2))%Q) /\
  let r1 := increment_failure_count isoformat now1 io1 ip s in
  let r2 := increment_failure_count isoformat now2 io2 ip r1.2 in
  let r3 := increment_failure_count isoformat now3 io3 ip r2.2 in
  let r4 := reset_failure_count ip r3.2 in
  let r5 := increment_failure_count isoformat now4 io4 ip r4.2 in
  (r1.1 = Ret false /\ to_block (blocker r1.2) !! ip = Some (1 # 2)%Q) /\
  (r2.1 = Ret false /\ to_block (blocker r2.2) !! ip = Some 1%Q) /\
  (r3.1 = Ret false /\ to_block (blocker r3.2) !! ip = Some (3 # 2)%Q) /\
  (r4.1 = Ret () /\ to_block (blocker r4.2) !! ip = None) /\
  (r5.1 = Ret false /\ to_block (blocker r5.2) !! ip = Some (1 # 2)%Q) /\
  dict_mem ip (blocked_ips (blocker r5.2)) = false.
Proof.
  intros Hfree Hnone Hth. split.
  - intros s0 now0 io0 Hfree0 q Hq.
    rewrite increment_below; auto.
    + cbn [snd blocker to_block]. rewrite lookup_insert_eq.
      eexists. split; [reflexivity|]. rewrite Qred_correct.
      fold q. apply Qplus_comp; reflexivity.
    + cbn zeta. fold q. rewrite Qred_correct.
      assert (1 / 2 == 1 # 2)%Q as -> by reflexivity. exact Hq.
  - cbn zeta.
    rewrite (increment_below now1 io1 ip s); auto.
    2:{ cbn zeta. rewrite Hnone. apply half_below; auto. vm_compute. discriminate. }
    cbn [fst snd]. rewrite Hnone.
    change (Qred (default 0%Q None + 1 / 2)) with (1 # 2)%Q.
    rewrite increment_below; cbn [blocker blocked_ips to_block block_threshold]; auto.
    2:{ rewrite lookup_insert_eq. apply half_below; auto. vm_compute. discriminate. }
    cbn [fst snd blocker blocked_ips to_block block_threshold].
    rewrite lookup_insert_eq.
    change (Qred (default 0%Q (Some (1 # 2)%Q) + 1 / 2)) with 1%Q.
    rewrite increment_below; cbn [blocker blocked_ips to_block block_threshold]; auto.
    2:{ rewrite lookup_insert_eq. apply half_below; auto. vm_compute. discriminate. }
    cbn [fst snd blocker blocked_ips to_block block_threshold].
    rewrite lookup_insert_eq.
    change (Qred (default 0%Q (Some 1%Q) + 1 / 2)) with (3 # 2)%Q.
    rewrite reset_run.
    cbn [fst snd blocker blocked_ips to_block block_threshold].
    rewrite increment_below; cbn [blocker blocked_ips to_block block_threshold]; auto.
    2:{ rewrite lookup_delete_eq. apply half_below; auto. vm_compute. discriminate. }
    cbn [fst snd blocker blocked_ips to_block block_threshold].
    rewrite !lookup_insert_eq, !lookup_delete_eq.
    change (Qred (default 0%Q None + 1 / 2)) with (1 # 2)%Q.
    rewrite ?lookup_insert_eq. repeat split; auto.
Qed.

(** ** Loading the blocklist *)

Lemma try_except_all {A} (body handler : M A) s :
  try_except body Exception handler s =
    match body s with
    | (Ret a, s') => (Ret a, s')
    | (Raise _, s') => handler s'
    end.
Proof. unfold try_except. destruct (body s) as [[a|e] s']; reflexivity. Qed.

Lemma load_absent nows s :
  disk s = NoFile -> _load_blocked_ips isoformat nows s = (Ret (), s).
Proof.
  destruct s as [b dk]; cbn. intros ->. reflexivity.
Qed.

Lemma load_no_access nows s :
  disk s = NoAccess ->
  _load_blocked_ips isoformat nows s = (Raise OSError, s).
Proof.
  destruct s as [b dk]; cbn. intros ->. reflexivity.
Qed.

Lemma load_present nows s f :
  disk s = File f ->
  _load_blocked_ips isoformat nows s =
    match load_body isoformat nows f s with
    | (Ret _, s') => (Ret (), s')
    | (Raise _, s') =>
        (Ret (),
         mkSys (mkIPBlocker [] (to_block (blocker s'))
                  (connection_attempts (blocker s'))
                  (block_threshold (blocker s')) (_last_save_state (blocker s'))
                  (_last_file_mtime (blocker s')))
               (disk s'))
    end.
Proof.
  destruct s as [b dk]; cbn. intros ->.
  unfold _load_blocked_ips. cbv beta iota delta [mbind M_bind read_disk disk].
  rewrite try_except_all.
  destruct (load_body isoformat nows f _) as [[[]|e] s']; reflexivity.
Qed.

Lemma load_legacy_unhashable nows items :
  LUnhashable ∈ items ->
  forall i s, (load_legacy isoformat nows i items s).1 = Raise TypeError.
Proof.
  induction items as [|[ip|] rest IH]; intros Hin i s.
  - inversion Hin.
  - apply elem_of_cons in Hin as [Hin|Hin]; [discriminate|].
    cbn [load_legacy]. run_monad. apply IH. exact Hin.
  - reflexivity.
Qed.

Lemma load_legacy_addrs nows ips :
  forall i s,
  load_legacy isoformat nows i (map LAddr ips) s =
    (Ret (),
     mkSys (mkIPBlocker
              (legacy_record isoformat nows i ips (blocked_ips (blocker s)))
              (to_block (blocker s)) (connection_attempts (blocker s))
              (block_threshold (blocker s)) (_last_save_state (blocker s))
              (_last_file_mtime (blocker s)))
           (disk s)).
Proof.
  induction ips as [|ip rest IH]; intros i s.
  - destruct s as [[d tb ca th lss lfm] dk]. reflexivity.
  - cbn [map load_legacy legacy_record]. run_monad. rewrite IH.
    destruct s as [[d tb ca th lss lfm] dk]. reflexivity.
Qed.

Lemma load_returns nows s :
  disk s <> NoAccess -> (_load_blocked_ips isoformat nows s).1 = Ret ().
Proof.
  intros Hacc. destruct (disk s) as [|f|] eqn:E.
  - rewrite load_absent by exact E. reflexivity.
  - rewrite (load_present nows s f E).
    destruct (load_body isoformat nows f s) as [[[]|e] s']; reflexivity.
  - congruence.
Qed.

(** C8.  What [_load_blocked_ips] does with the path.  When
    [BLOCKLIST_FILE.exists()] raises, the call raises to its caller and
    changes nothing, and so does the constructor: that test stands before
    the [try].  In every other case the call returns: when the body of the
    [try] raises (a text that is not JSON, a scalar, an array with an
    unhashable element: in general, anything) the block record is empty
    afterwards; without a file nothing is done, and the record of a fresh
    object stays empty. *)
Theorem load_raises_before_try (nows : nat -> Z) (s : sys) :
  (disk s = NoAccess ->
     _load_blocked_ips isoformat nows s = (Raise OSError, s)) /\
  init isoformat nows NoAccess = (Raise OSError, mkSys init_blocker NoAccess) /\
  (disk s <> NoAccess -> (_load_blocked_ips isoformat nows s).1 = Ret ()) /\
  (forall f, disk s = File f ->
     (load_body isoformat nows f s).1 <> Ret () ->
     blocked_ips (blocker (_load_blocked_ips isoformat nows s).2) = []) /\
  (forall f, disk s = File f ->
     f_data f = Corrupt \/ f_data f = ScalarDoc \/
     (exists items, f_data f = ListDoc items /\ LUnhashable ∈ items) ->
     (load_body isoformat nows f s).1 <> Ret ()) /\
  (disk s = NoFile -> _load_blocked_ips isoformat nows s = (Ret (), s)) /\
  init isoformat nows NoFile = (Ret (), mkSys init_blocker NoFile).
Proof.
  split; [|split; [|split; [|split; [|split; [|split]]]]].
  - apply load_no_access.
  - reflexivity.
  - apply load_returns.
  - intros f E Hraise. rewrite (load_present nows s f E).
    destruct (load_body isoformat nows f s) as [[[]|e] s']; [|reflexivity].
    exfalso. apply Hraise. reflexivity.
  - intros f E Hbad. unfold load_body.
    destruct Hbad as [->|[->|(items & -> & Hin)]]; run_monad;
      try discriminate.
    rewrite load_legacy_unhashable by exact Hin. discriminate.
  - apply load_absent.
  - reflexivity.
Qed.

(** ** The legacy format *)

Lemma legacy_record_other nows ip ips :
  ip ∉ ips ->
  forall i d, dict_get ip (legacy_record isoformat nows i ips d) = dict_get ip d.
Proof.
  induction ips as [|ip' rest IH]; intros Hnin i d; [reflexivity|].
  apply not_elem_of_cons in Hnin as [Hne Hnin]. cbn [legacy_record].
  rewrite IH by exact Hnin. apply dict_get_set_ne. congruence.
Qed.

Lemma legacy_record_listed nows ip ips :
  ip ∈ ips ->
  forall i d, exists j, (i <= j < i + length ips)%nat /\
    dict_get ip (legacy_record isoformat nows i ips d)
      = Some (PStr (isoformat (nows j))).
Proof.
  induction ips as [|ip' rest IH]; intros Hin i d; [inversion Hin|].
  cbn [legacy_record length].
  destruct (decide (ip ∈ rest)) as [Hr|Hr].
  - destruct (IH Hr (S i) (dict_set ip' (PStr (isoformat (nows i))) d))
      as (j & Hj & Hget).
    exists j. split; [lia|exact Hget].
  - apply elem_of_cons in Hin as [->|Hin]; [|contradiction].
    exists i. split; [lia|].
    rewrite legacy_record_other by exact Hr. apply dict_get_set_eq.
Qed.

Lemma legacy_record_NoDup nows ips :
  forall i d, NoDup (dict_keys d) ->
  NoDup (dict_keys (legacy_record isoformat nows i ips d)).
Proof.
  induction ips as [|ip rest IH]; intros i d Hd; [exact Hd|].
  cbn [legacy_record]. apply IH. apply NoDup_dict_set. exact Hd.
Qed.

Lemma dict_set_fresh k v d :
  k ∉ dict_keys d -> dict_set k v d = d ++ [(k, v)].
Proof.
  induction d as [|[k' v'] d IH]; simpl; intros H; auto.
  apply not_elem_of_cons in H as [H1 H2].
  rewrite decide_False by exact H1. f_equal. apply IH. exact H2.
Qed.

Lemma dict_of_pairs_app (pairs acc : pydict) :
  NoDup (dict_keys (acc ++ pairs)) ->
  fold_left (fun d kv => dict_set kv.1 kv.2 d) pairs acc = acc ++ pairs.
Proof.
  revert acc. induction pairs as [|[k v] rest IH]; intros acc Hnd; simpl.
  - symmetry. apply app_nil_r.
  - rewrite dict_set_fresh.
    + rewrite IH; rewrite <- app_assoc; [reflexivity|exact Hnd].
    + unfold dict_keys in *. rewrite map_app in Hnd.
      apply NoDup_app in Hnd as (_ & Hdisj & _).
      intros Hin. apply (Hdisj k Hin). simpl. left.
Qed.

Lemma dict_of_pairs_id (d : pydict) :
  NoDup (dict_keys d) -> dict_of_pairs d = d.
Proof. intros H. unfold dict_of_pairs. apply dict_of_pairs_app. exact H. Qed.

Lemma save_skipped io s :
  _last_save_state (blocker s)
    = Some (json_dumps_sorted (blocked_ips (blocker s))) ->
  saved io s = s.
Proof.
  intros H. unfold saved. rewrite decide_True; auto.
Qed.

Lemma save_written mtime s :
  _last_save_state (blocker s)
    <> Some (json_dumps_sorted (blocked_ips (blocker s))) ->
  saved (Some mtime) s =
    mkSys (mkIPBlocker (blocked_ips (blocker s)) (to_block (blocker s))
             (connection_attempts (blocker s)) (block_threshold (blocker s))
             (Some (json_dumps_sorted (blocked_ips (blocker s)))) mtime)
          (File (mkFile (DictDoc (blocked_ips (blocker s))) mtime)).
Proof.
  intros H. unfold saved. rewrite decide_False; auto.
Qed.

Lemma load_dict nows s pairs mtime :
  disk s = File (mkFile (DictDoc pairs) mtime) ->
  _load_blocked_ips isoformat nows s =
    (Ret (),
     mkSys (mkIPBlocker (dict_of_pairs pairs) (to_block (blocker s))
              (connection_attempts (blocker s)) (block_threshold (blocker s))
              (_last_save_state (blocker s)) mtime)
           (disk s)).
Proof.
  intros E. rewrite (load_present nows s _ E).
  destruct s as [[d tb ca th lss lfm] dk]. reflexivity.
Qed.

Lemma load_list nows s ips mtime :
  disk s = File (mkFile (ListDoc (map LAddr ips)) mtime) ->
  _load_blocked_ips isoformat nows s =
    (Ret (),
     mkSys (mkIPBlocker (legacy_record isoformat nows 0 ips [])
              (to_block (blocker s))
              (connection_attempts (blocker s)) (block_threshold (blocker s))
              (_last_save_state (blocker s)) mtime)
           (disk s)).
Proof.
  intros E. rewrite (load_present nows s _ E).
  unfold load_body. cbn [f_data f_mtime]. run_monad.
  rewrite load_legacy_addrs.
  destruct s as [[d tb ca th lss lfm] dk]. reflexivity.
Qed.

(** C9.  Loading a file that holds a bare array of address strings gives a
    record whose keys are the listed addresses, each with the ISO text of
    the clock at one turn of the loop, which the library parses back.
    Unless this process has already written that very record, a save whose
    write succeeds puts it in the file, in the timestamped format; loading
    that file gives the same record; from then on a save writes nothing and
    a load changes nothing. *)
Theorem legacy_round_trip (s : sys) (ips : list string) (mt m : Q)
    (nows nows' nows'' : nat -> Z) (io' : option Q) :
  disk s = File (mkFile (ListDoc (map LAddr ips)) mt) ->
  (forall i, fromisoformat (isoformat (nows i)) = Some (nows i)) ->
  let s1 := (_load_blocked_ips isoformat nows s).2 in
  let record := blocked_ips (blocker s1) in
  (forall ip, ip ∈ dict_keys record <-> ip ∈ ips) /\
  (forall ip, ip ∈ ips ->
     exists i v, (i < length ips)%nat /\ dict_get ip record = Some v /\
       v = PStr (isoformat (nows i)) /\
       forall s0, parse_block_time fromisoformat v s0 = (Ret (nows i), s0)) /\
  (_last_save_state (blocker s) <> Some (json_dumps_sorted record) ->
   let s2 := (_save_blocked_ips (Some m) s1).2 in
   let s3 := (_load_blocked_ips isoformat nows' s2).2 in
   disk s2 = File (mkFile (DictDoc record) m) /\
   blocked_ips (blocker s3) = record /\
   _save_blocked_ips io' s3 = (Ret (), s3) /\
   _load_blocked_ips isoformat nows'' s3 = (Ret (), s3)).
Proof.
  intros Hdisk Hiso s1 record. subst record s1.
  rewrite (load_list nows s ips mt Hdisk). cbn [snd blocker blocked_ips].
  assert (Hnd : NoDup (dict_keys (legacy_record isoformat nows 0 ips []))).
  { apply legacy_record_NoDup. constructor. }
  split; [|split].
  - intros ip. split; intros H.
    + destruct (decide (ip ∈ ips)) as [|Hn]; [assumption|].
      exfalso. revert H. apply dict_get_keys.
      rewrite legacy_record_other by exact Hn. reflexivity.
    + destruct (legacy_record_listed nows ip ips H 0%nat []) as (j & _ & Hget).
      destruct (decide (ip ∈ dict_keys (legacy_record isoformat nows 0 ips [])))
        as [|Hn]; [assumption|].
      apply dict_get_keys in Hn. congruence.
  - intros ip Hin.
    destruct (legacy_record_listed nows ip ips Hin 0%nat []) as (j & Hj & Hget).
    exists j, (PStr (isoformat (nows j))).
    split; [lia|]. split; [exact Hget|]. split; [reflexivity|].
    intros s0. unfold parse_block_time. rewrite Hiso. reflexivity.
  - intros Hnew. cbn zeta. rewrite save_run. cbn [snd].
    rewrite save_written by exact Hnew.
    cbn [blocker blocked_ips to_block connection_attempts block_threshold disk].
    erewrite load_dict by reflexivity.
    cbn [snd blocker blocked_ips to_block connection_attempts block_threshold
         _last_save_state disk].
    rewrite dict_of_pairs_id by exact Hnd.
    split; [reflexivity|]. split; [reflexivity|]. split.
    + rewrite save_run. rewrite save_skipped; reflexivity.
    + erewrite load_dict by reflexivity.
      cbn [blocker blocked_ips to_block connection_attempts block_threshold
           _last_save_state disk].
      rewrite dict_of_pairs_id by exact Hnd. reflexivity.
Qed.

(** ** What the remaining operations change *)

Lemma shrinks_refl s : shrinks s s.
Proof. split; auto. Qed.

Lemma shrinks_trans s1 s2 s3 : shrinks s1 s2 -> shrinks s2 s3 -> shrinks s1 s3.
Proof. intros [H1 H2] [H3 H4]. split; auto. Qed.

Lemma shrinks_saved io s : shrinks s (saved io s).
Proof.
  split; intros ip; rewrite ?saved_blocked_ips, ?saved_to_block; auto.
Qed.

Lemma shrinks_unblocked (s : sys) ip ca' :
  shrinks s
    (mkSys (mkIPBlocker (dict_del ip (blocked_ips (blocker s)))
              (delete ip (to_block (blocker s))) ca'
              (block_threshold (blocker s)) (_last_save_state (blocker s))
              (_last_file_mtime (blocker s)))
           (disk s)).
Proof.
  split; intros ip' H; cbn.
  - destruct (decide (ip = ip')) as [->|Hne].
    + apply dict_get_del_eq.
    + rewrite dict_get_del_ne; auto.
  - destruct (decide (ip = ip')) as [->|Hne].
    + apply lookup_delete_eq.
    + rewrite lookup_delete_ne; auto.
Qed.

Lemma shrinks_invariant s s' :
  shrinks s s' -> blocked_unscored s -> blocked_unscored s'.
Proof.
  intros [Hb Ht] Hinv ip [v Hv]. apply Ht. apply Hinv.
  destruct (dict_get ip (blocked_ips (blocker s))) eqn:E; eauto.
  apply Hb in E. congruence.
Qed.

Lemma unblock_all_shrinks ips :
  forall s, shrinks s (unblock_all ips s).2.
Proof.
  induction ips as [|ip rest IH]; intros s.
  - apply shrinks_refl.
  - destruct s as [[d tb ca th lss lfm] dk].
    cbn [unblock_all]. run_monad.
    destruct (dict_mem ip d); [|apply shrinks_refl].
    eapply shrinks_trans; [|apply IH].
    apply (shrinks_unblocked (mkSys (mkIPBlocker d tb ca th lss lfm) dk)).
Qed.

Lemma cleanup_expired_shrinks now io s :
  shrinks s (_cleanup_expired_blocks fromisoformat now io s).2.
Proof.
  destruct s as [[d tb ca th lss lfm] dk].
  unfold _cleanup_expired_blocks. run_monad.
  destruct (expired_ips fromisoformat now d) as [|ip ips]; [apply shrinks_refl|].
  destruct (unblock_all (ip :: ips) _) as [[[]|e] s'] eqn:E.
  - rewrite save_run. cbn [snd].
    eapply shrinks_trans; [|apply shrinks_saved].
    pose proof (unblock_all_shrinks (ip :: ips)
                  (mkSys (mkIPBlocker d tb ca th lss lfm) dk)) as H.
    rewrite E in H. exact H.
  - pose proof (unblock_all_shrinks (ip :: ips)
                  (mkSys (mkIPBlocker d tb ca th lss lfm) dk)) as H.
    rewrite E in H. exact H.
Qed.

Lemma prune_ips_frame cutoff ips :
  forall s,
  blocked_ips (blocker (prune_ips cutoff ips s).2) = blocked_ips (blocker s) /\
  to_block (blocker (prune_ips cutoff ips s).2) = to_block (blocker s).
Proof.
  induction ips as [|ip rest IH]; intros s; [split; reflexivity|].
  destruct s as [[d tb ca th lss lfm] dk].
  cbn [prune_ips]. run_monad.
  destruct (ca !! ip) as [l|]; run_lookups;
    [destruct (recent cutoff l) as [|t l'] eqn:E|cbn [recent List.filter]];
    run_lookups;
    match goal with |- context [prune_ips cutoff rest ?s1] =>
      destruct (IH s1) as [H1 H2] end;
    split; assumption.
Qed.

Lemma cleanup_old_shrinks t s :
  shrinks s (_cleanup_old_connections t s).2.
Proof.
  unfold _cleanup_old_connections. run_monad.
  match goal with |- context [prune_ips ?c ?l ?s1] =>
    destruct (prune_ips_frame c l s1) as [H1 H2] end.
  split; intros ip H.
  - rewrite H1. destruct s as [[d tb ca th lss lfm] dk]. exact H.
  - rewrite H2. destruct s as [[d tb ca th lss lfm] dk]. exact H.
Qed.

Lemma load_legacy_frame nows items :
  forall i s,
  to_block (blocker (load_legacy isoformat nows i items s).2)
    = to_block (blocker s).
Proof.
  induction items as [|[ip|] rest IH]; intros i s; try reflexivity.
  destruct s as [[d tb ca th lss lfm] dk].
  cbn [load_legacy]. run_monad. rewrite IH. reflexivity.
Qed.

Lemma load_legacy_omits nows ip items :
  LAddr ip ∉ items ->
  forall i s,
  dict_get ip (blocked_ips (blocker s)) = None ->
  dict_get ip (blocked_ips (blocker (load_legacy isoformat nows i items s).2))
    = None.
Proof.
  induction items as [|[ip'|] rest IH]; intros Hnin i s Hs; try exact Hs.
  apply not_elem_of_cons in Hnin as [Hne Hnin].
  destruct s as [[d tb ca th lss lfm] dk].
  cbn [load_legacy]. run_monad. apply IH; auto.
  cbn. rewrite dict_get_set_ne; [exact Hs|congruence].
Qed.

Lemma fold_dict_set_omits ip (pairs : pydict) :
  ip ∉ dict_keys pairs ->
  forall acc : pydict, dict_get ip acc = None ->
  dict_get ip (fold_left (fun d kv => dict_set kv.1 kv.2 d) pairs acc) = None.
Proof.
  induction pairs as [|[k v] rest IH]; intros Hnin acc Hacc; [exact Hacc|].
  simpl in Hnin. apply not_elem_of_cons in Hnin as [Hne Hnin].
  simpl. apply IH; auto. rewrite dict_get_set_ne; auto.
Qed.

Lemma dict_of_pairs_omits ip pairs :
  ip ∉ dict_keys pairs -> dict_get ip (dict_of_pairs pairs) = None.
Proof.
  intros H. unfold dict_of_pairs. apply fold_dict_set_omits; auto.
Qed.

Lemma load_to_block nows s :
  to_block (blocker (_load_blocked_ips isoformat nows s).2)
    = to_block (blocker s).
Proof.
  destruct (disk s) as [|f|] eqn:E.
  - rewrite load_absent by exact E. reflexivity.
  - rewrite (load_present nows s f E).
    assert (H : to_block (blocker (load_body isoformat nows f s).2)
                = to_block (blocker s)).
    { destruct s as [[d tb ca th lss lfm] dk].
      unfold load_body. run_monad.
      destruct (f_data f); run_monad; try reflexivity;
        rewrite load_legacy_frame; reflexivity. }
    destruct (load_body isoformat nows f s) as [[[]|e] s']; exact H.
  - rewrite load_no_access by exact E. reflexivity.
Qed.

Lemma load_omits nows s f ip :
  disk s = File f -> omits ip (f_data f) ->
  dict_get ip (blocked_ips (blocker (_load_blocked_ips isoformat nows s).2))
    = None.
Proof.
  intros E Hom. rewrite (load_present nows s f E).
  assert (H : dict_get ip
                (blocked_ips (blocker (load_body isoformat nows f s).2)) = None
              \/ exists e, (load_body isoformat nows f s).1 = Raise e).
  { destruct s as [[d tb ca th lss lfm] dk].
    unfold load_body. run_monad.
    destruct (f_data f) as [|pairs|items|cs|]; run_monad; cbn in Hom.
    - right. eexists. reflexivity.
    - left. apply dict_of_pairs_omits. exact Hom.
    - left. apply load_legacy_omits; auto.
    - left. apply load_legacy_omits; auto.
      intros Hin. apply Hom. apply list_elem_of_fmap in Hin as (x & [= ->] & Hx).
      exact Hx.
    - right. eexists. reflexivity. }
  destruct (load_body isoformat nows f s) as [[[]|e] s']; [|reflexivity].
  destruct H as [H|[e H]]; [exact H|discriminate].
Qed.

Lemma check_absent nows s :
  disk s = NoFile ->
  _check_external_changes isoformat nows s =
    (Ret (),
     match blocked_ips (blocker s) with
     | [] => s
     | _ :: _ =>
         mkSys (mkIPBlocker [] (to_block (blocker s))
                  (connection_attempts (blocker s))
                  (block_threshold (blocker s)) (_last_save_state (blocker s))
                  0%Q)
               (disk s)
     end).
Proof.
  destruct s as [[d tb ca th lss lfm] dk]; cbn. intros ->.
  unfold _check_external_changes. run_monad.
  destruct d; reflexivity.
Qed.

Lemma check_no_access nows s :
  disk s = NoAccess ->
  _check_external_changes isoformat nows s = (Raise OSError, s).
Proof.
  destruct s as [b dk]; cbn. intros ->. reflexivity.
Qed.

Lemma check_present nows s f :
  disk s = File f ->
  _check_external_changes isoformat nows s =
    if Qgtb (f_mtime f) (_last_file_mtime (blocker s))
    then _load_blocked_ips isoformat nows s
    else (Ret (), s).
Proof.
  intros E. unfold _check_external_changes.
  cbv beta iota delta [mbind M_bind read_disk read]. rewrite E.
  rewrite try_except_all.
  destruct (Qgtb _ _); [|reflexivity].
  assert (H : (_load_blocked_ips isoformat nows s).1 = Ret ())
    by (apply load_returns; congruence).
  destruct (_load_blocked_ips isoformat nows s) as [[[]|e] s']; [reflexivity|].
  discriminate.
Qed.

Lemma cleanup_tick_shrinks nows now io t s :
  (cleanup_tick isoformat fromisoformat nows now io t s).1 = Ret () /\
  shrinks (_check_external_changes isoformat nows s).2
          (cleanup_tick isoformat fromisoformat nows now io t s).2.
Proof.
  unfold cleanup_tick. rewrite try_except_all.
  cbv beta iota delta [mbind M_bind mret M_ret].
  destruct (_check_external_changes isoformat nows s) as [[[]|e] s1];
    [|split; [reflexivity|apply shrinks_refl]].
  pose proof (cleanup_expired_shrinks now io s1) as H1.
  destruct (_cleanup_expired_blocks fromisoformat now io s1) as [[[]|e] s2];
    [|split; [reflexivity|exact H1]].
  pose proof (cleanup_old_shrinks t s2) as H2.
  destruct (_cleanup_old_connections t s2) as [[[]|e] s3];
    (split; [reflexivity|eapply shrinks_trans; eassumption]).
Qed.

Lemma block_ip_run now io ip s :
  block_ip isoformat now io ip s =
    (Ret (),
     saved io
       (mkSys (mkIPBlocker
                 (dict_set ip (PStr (isoformat now)) (blocked_ips (blocker s)))
                 (delete ip (to_block (blocker s)))
                 (delete ip (connection_attempts (blocker s)))
                 (block_threshold (blocker s)) (_last_save_state (blocker s))
                 (_last_file_mtime (blocker s)))
              (disk s))).
Proof.
  destruct s as [[d tb ca th lss lfm] dk].
  unfold block_ip. run_monad. rewrite save_run. reflexivity.
Qed.

Lemma unblock_ip_absent io ip s :
  dict_mem ip (blocked_ips (blocker s)) = false ->
  unblock_ip io ip s = (Ret false, s).
Proof.
  destruct s as [[d tb ca th lss lfm] dk]; cbn. intros H.
  unfold unblock_ip. run_monad. rewrite H. reflexivity.
Qed.

Lemma unblock_ip_present io ip s :
  dict_mem ip (blocked_ips (blocker s)) = true ->
  unblock_ip io ip s =
    (Ret true,
     saved io
       (mkSys (mkIPBlocker
                 (dict_del ip (blocked_ips (blocker s)))
                 (delete ip (to_block (blocker s)))
                 (delete ip (connection_attempts (blocker s)))
                 (block_threshold (blocker s)) (_last_save_state (blocker s))
                 (_last_file_mtime (blocker s)))
              (disk s))).
Proof.
  destruct s as [[d tb ca th lss lfm] dk]; cbn. intros H.
  unfold unblock_ip. run_monad. rewrite H. run_monad. rewrite H. run_monad.
  rewrite save_run. reflexivity.
Qed.

Lemma blocking_invariant io ip v ca' (s : sys) :
  blocked_unscored s ->
  blocked_unscored
    (saved io
       (mkSys (mkIPBlocker (dict_set ip v (blocked_ips (blocker s)))
                 (delete ip (to_block (blocker s))) ca'
                 (block_threshold (blocker s)) (_last_save_state (blocker s))
                 (_last_file_mtime (blocker s)))
              (disk s))).
Proof.
  intros Hinv ip' Hb. rewrite saved_blocked_ips in Hb. rewrite saved_to_block.
  cbn in *. destruct (decide (ip = ip')) as [->|Hne].
  - apply lookup_delete_eq.
  - rewrite lookup_delete_ne by exact Hne. apply Hinv.
    rewrite dict_get_set_ne in Hb; auto.
Qed.

Lemma is_ip_blocked_shrinks now io ip s :
  shrinks s (is_ip_blocked fromisoformat now io ip s).2.
Proof.
  destruct (dict_get ip (blocked_ips (blocker s))) as [v|] eqn:E.
  - destruct v as [str|c].
    + destruct (fromisoformat str) as [bt|] eqn:Ep.
      * destruct (Z_le_gt_dec (now - bt) BLOCK_RESET_INTERVAL) as [Hle|Hgt].
        -- erewrite is_ip_blocked_live by eauto. apply shrinks_refl.
        -- erewrite is_ip_blocked_expired by eauto. cbn [snd].
           eapply shrinks_trans; [|apply shrinks_saved].
           apply shrinks_unblocked.
      * erewrite is_ip_blocked_invalid by (try exact E; exact Ep).
        cbn [snd]. split; intros ip' H; cbn; auto.
        destruct (decide (ip = ip')) as [->|Hne].
        -- apply dict_get_del_eq.
        -- rewrite dict_get_del_ne; auto.
    + erewrite is_ip_blocked_invalid by (try exact E; exact I).
      cbn [snd]. split; intros ip' H; cbn; auto.
      destruct (decide (ip = ip')) as [->|Hne].
      * apply dict_get_del_eq.
      * rewrite dict_get_del_ne; auto.
  - rewrite is_ip_blocked_absent by exact E. apply shrinks_refl.
Qed.

Lemma bool_cases (b : bool) : b = true \/ b = false.
Proof. destruct b; auto. Qed.

(** C10 (as amended).  Every operation that does not reload the block
    record from the file keeps the property that a blocked address has no
    failure count.  An operation that may reload keeps it when the file
    lists no address that has a failure count. *)
Theorem operations_keep_blocked_unscored (o : op) (s : sys) :
  blocked_unscored s ->
  (reloads o = true ->
   forall f ip, disk s = File f ->
     is_Some (to_block (blocker s) !! ip) -> omits ip (f_data f)) ->
  blocked_unscored (run_op isoformat fromisoformat o s).
Proof.
  intros Hinv Hsafe.
  assert (Hload : forall nows,
            (forall f ip, disk s = File f ->
               is_Some (to_block (blocker s) !! ip) -> omits ip (f_data f)) ->
            blocked_unscored (_load_blocked_ips isoformat nows s).2).
  { intros nows Hs. destruct (disk s) as [|f|] eqn:E.
    - rewrite load_absent by exact E. exact Hinv.
    - intros ip Hb. rewrite load_to_block.
      destruct (to_block (blocker s) !! ip) as [q|] eqn:Eq; [|reflexivity].
      exfalso. rewrite (load_omits nows s f ip E) in Hb.
      + destruct Hb; discriminate.
      + apply Hs; eauto.
    - rewrite load_no_access by exact E. exact Hinv. }
  assert (Hcheck : forall nows,
            (forall f ip, disk s = File f ->
               is_Some (to_block (blocker s) !! ip) -> omits ip (f_data f)) ->
            blocked_unscored (_check_external_changes isoformat nows s).2).
  { intros nows Hs. destruct (disk s) as [|f|] eqn:E.
    - rewrite check_absent by exact E. cbn [snd].
      destruct (blocked_ips (blocker s)) eqn:Ed; [exact Hinv|].
      intros ip [v Hv]. discriminate.
    - rewrite (check_present nows s f E).
      destruct (Qgtb _ _); [apply Hload; exact Hs|exact Hinv].
    - rewrite check_no_access by exact E. exact Hinv. }
  destruct o as [nows|io|nows|now io|t|nows now io t|t now io ip|now io ip
                |now io ip|io ip|now io ip|ip]; cbn [run_op reloads] in *.
  - apply Hload. apply Hsafe. reflexivity.
  - rewrite save_run. eapply shrinks_invariant; [apply shrinks_saved|exact Hinv].
  - apply Hcheck. apply Hsafe. reflexivity.
  - eapply shrinks_invariant; [apply cleanup_expired_shrinks|exact Hinv].
  - eapply shrinks_invariant; [apply cleanup_old_shrinks|exact Hinv].
  - eapply shrinks_invariant; [apply cleanup_tick_shrinks|].
    apply Hcheck. apply Hsafe. reflexivity.
  - destruct (bool_cases (dict_mem ip (blocked_ips (blocker s)))) as [Hb|Hb].
    + rewrite track_blocked by exact Hb. exact Hinv.
    + destruct (Z_lt_ge_dec (Z.of_nat (length (counted t ip s)))
                  (block_threshold (blocker s))) as [Hlt|Hge].
      * rewrite track_below by assumption. exact Hinv.
      * rewrite track_reached by assumption. cbn [snd].
        apply blocking_invariant. exact Hinv.
  - eapply shrinks_invariant; [apply is_ip_blocked_shrinks|exact Hinv].
  - rewrite block_ip_run. cbn [snd]. apply blocking_invariant. exact Hinv.
  - destruct (bool_cases (dict_mem ip (blocked_ips (blocker s)))) as [Hb|Hb].
    + rewrite unblock_ip_present by exact Hb. cbn [snd].
      eapply shrinks_invariant; [|exact Hinv].
      eapply shrinks_trans; [|apply shrinks_saved]. apply shrinks_unblocked.
    + rewrite unblock_ip_absent by exact Hb. exact Hinv.
  - destruct (bool_cases (dict_mem ip (blocked_ips (blocker s)))) as [Hb|Hb].
    + rewrite increment_blocked by exact Hb. exact Hinv.
    + destruct (Qlt_le_dec
                  (Qred (default 0%Q (to_block (blocker s) !! ip) + 1 / 2))
                  (inject_Z (block_threshold (blocker s)))) as [Hlt|Hle].
      * rewrite increment_below by assumption. cbn [snd].
        intros ip' Hb'. cbn in *. destruct (decide (ip = ip')) as [->|Hne].
        -- apply dict_mem_false in Hb. rewrite Hb in Hb'.
           destruct Hb'; discriminate.
        -- rewrite lookup_insert_ne by exact Hne. apply Hinv. exact Hb'.
      * rewrite increment_reached by assumption. cbn [snd].
        apply blocking_invariant. exact Hinv.
  - rewrite reset_run. cbn [snd]. intros ip' Hb'. cbn in *.
    destruct (decide (ip = ip')) as [->|Hne].
    + apply lookup_delete_eq.
    + rewrite lookup_delete_ne by exact Hne. apply Hinv. exact Hb'.
Qed.

End EngineFacts.

(** ** Saving and change detection *)

Global Instance key_le_trans : Transitive key_le.
Proof. intros a b c. unfold key_le. apply (transitivity (R := String.le)). Qed.

Global Instance key_le_total : Total key_le.
Proof. intros a b. unfold key_le. apply (total String.le). Qed.

Lemma dict_get_elem k v (d : pydict) :
  NoDup (dict_keys d) -> dict_get k d = Some v <-> (k, v) ∈ d.
Proof.
  induction d as [|[k' v'] d IH]; simpl; intros Hnd.
  - split; [discriminate|]. intros H. inversion H.
  - apply NoDup_cons in Hnd as [Hk Hnd]. rewrite elem_of_cons.
    destruct (decide (k = k')) as [->|Hne].
    + split.
      * intros [= ->]. left. reflexivity.
      * intros [[= ->]|Hin]; [reflexivity|].
        exfalso. apply Hk. unfold dict_keys.
        apply list_elem_of_fmap. exists (k', v). split; auto.
    + rewrite IH by exact Hnd. split; [auto|].
      intros [[= -> ->]|Hin]; [contradiction|exact Hin].
Qed.

Lemma same_record_Permutation (d d' : pydict) :
  NoDup (dict_keys d) -> NoDup (dict_keys d') ->
  (forall k, dict_get k d' = dict_get k d) <-> d' ≡ₚ d.
Proof.
  intros Hd Hd'. split.
  - intros Hsame. apply NoDup_Permutation.
    + eapply NoDup_fmap_1. exact Hd'.
    + eapply NoDup_fmap_1. exact Hd.
    + intros [k v]. rewrite <- !dict_get_elem by assumption.
      rewrite Hsame. reflexivity.
  - intros Hperm k.
    destruct (dict_get k d) as [v|] eqn:E.
    + apply dict_get_elem; auto. rewrite Hperm. apply dict_get_elem; auto.
    + destruct (dict_get k d') as [v|] eqn:E'; [|reflexivity].
      apply dict_get_elem in E'; auto. rewrite Hperm in E'.
      apply dict_get_elem in E'; auto. congruence.
Qed.

Lemma json_dumps_sorted_same_record (d d' : pydict) :
  NoDup (dict_keys d) -> NoDup (dict_keys d') ->
  json_dumps_sorted d' = json_dumps_sorted d <->
  forall k, dict_get k d' = dict_get k d.
Proof.
  intros Hd Hd'. rewrite same_record_Permutation by assumption.
  unfold json_dumps_sorted. split.
  - intros Heq. rewrite <- (merge_sort_Permutation key_le d'), Heq.
    apply merge_sort_Permutation.
  - intros Hperm. apply (StronglySorted_unique_strong key_le).
    + intros [k1 v1] [k2 v2] H1 H2 Hle Hge.
      rewrite merge_sort_Permutation in H1, H2. rewrite Hperm in H1.
      unfold key_le in Hle, Hge. cbn in Hle, Hge.
      assert (k1 = k2) as -> by (apply (anti_symm String.le); assumption).
      apply dict_get_elem in H1, H2; auto. congruence.
    + apply StronglySorted_merge_sort; apply _.
    + apply StronglySorted_merge_sort; apply _.
    + rewrite !merge_sort_Permutation. exact Hperm.
Qed.

(** C7 (as amended).  The text that [_save_blocked_ips] compares lists the
    pairs of the record by sorted key, so it is the same for two records
    exactly when they hold the same values under the same keys.  The save is
    skipped when that text equals the one kept from the last write that
    succeeded; otherwise the write is attempted, and when it succeeds the
    file holds the pairs in the record's own (insertion) order.  Hence,
    after a successful write of the record [d0], a save with a working disk
    leaves everything as it is exactly when the record holds the same values
    under the same keys as [d0]. *)
Theorem save_change_detection (s : sys) (m : Q) :
  NoDup (dict_keys (blocked_ips (blocker s))) ->
  let d := blocked_ips (blocker s) in
  (Sorted key_le (json_dumps_sorted d) /\ json_dumps_sorted d ≡ₚ d) /\
  (forall d', NoDup (dict_keys d') ->
     json_dumps_sorted d' = json_dumps_sorted d <->
     forall k, dict_get k d' = dict_get k d) /\
  (_last_save_state (blocker s) = Some (json_dumps_sorted d) ->
     forall io, _save_blocked_ips io s = (Ret (), s)) /\
  (_last_save_state (blocker s) <> Some (json_dumps_sorted d) ->
     _save_blocked_ips None s = (Ret (), s) /\
     _save_blocked_ips (Some m) s =
       (Ret (),
        mkSys (mkIPBlocker d (to_block (blocker s))
                 (connection_attempts (blocker s)) (block_threshold (blocker s))
                 (Some (json_dumps_sorted d)) m)
              (File (mkFile (DictDoc d) m)))) /\
  (forall d0, NoDup (dict_keys d0) ->
     _last_save_state (blocker s) = Some (json_dumps_sorted d0) ->
     _save_blocked_ips (Some m) s = (Ret (), s) <->
     forall k, dict_get k d = dict_get k d0).
Proof.
  intros Hnd d. split; [|split; [|split; [|split]]].
  - split; [apply Sorted_merge_sort; apply _|apply merge_sort_Permutation].
  - intros d' Hd'. apply json_dumps_sorted_same_record; assumption.
  - intros Hlast io. rewrite save_run. rewrite save_skipped; auto.
  - intros Hnew. rewrite !save_run. split.
    + unfold saved. rewrite decide_False by auto. reflexivity.
    + rewrite save_written by exact Hnew. reflexivity.
  - intros d0 Hd0 Hlast.
    rewrite <- (json_dumps_sorted_same_record d0 d) by assumption.
    rewrite save_run. split.
    + intros Hskip.
      destruct (decide (json_dumps_sorted d = json_dumps_sorted d0))
        as [|Hne]; [assumption|].
      exfalso. rewrite save_written in Hskip.
      * injection Hskip as Hskip. apply (f_equal blocker) in Hskip.
        apply (f_equal _last_save_state) in Hskip. cbn in Hskip.
        rewrite Hlast in Hskip. injection Hskip as Hskip. auto.
      * rewrite Hlast. intros [= Heq]. auto.
    + intros Heq. rewrite save_skipped; [reflexivity|].
      rewrite Hlast. fold d. rewrite Heq. reflexivity.
Qed.

(** ** Simultaneous connection attempts *)

Arguments run_body : simpl never.
Arguments finish : simpl never.

Section ThreadFacts.
Variable isoformat : Z -> string.
Variable ip : string.
Variable calls : list attempt.

Lemma track_cases a s r s' :
  track_connection_attempt isoformat (at_time a) (at_now a) (at_io a) ip s
    = (r, s') ->
  (r = Ret true /\ dict_mem ip (blocked_ips (blocker s)) = true /\ s' = s /\
     blocks_now ip a s = false) \/
  (r = Ret false /\ dict_mem ip (blocked_ips (blocker s)) = false /\
     blocks_now ip a s = false /\ same_but_attempts s s') \/
  (r = Ret true /\ blocks_now ip a s = true /\
     s' = saved (at_io a) (entered isoformat ip (at_now a) s)).
Proof.
  intros H. unfold blocks_now.
  destruct (bool_cases (dict_mem ip (blocked_ips (blocker s)))) as [Hb|Hb].
  - rewrite track_blocked in H by exact Hb. injection H as <- <-.
    left. rewrite Hb. auto.
  - rewrite Hb. cbn [negb andb].
    destruct (Z_lt_ge_dec (Z.of_nat (length (counted (at_time a) ip s)))
                (block_threshold (blocker s))) as [Hlt|Hge].
    + rewrite track_below in H by assumption. injection H as <- <-.
      right. left. rewrite bool_decide_eq_false_2 by lia.
      repeat split; reflexivity.
    + rewrite track_reached in H by assumption. injection H as <- <-.
      right. right. rewrite bool_decide_eq_true_2 by lia.
      repeat split; reflexivity.
Qed.

Lemma after_cases {A} (m : M A) (k : A -> pc) s p' s' :
  after m k s = (p', s') ->
  (exists x, m s = (Ret x, s') /\ p' = k x) \/
  (exists e, m s = (Raise e, s') /\ p' = AtRelease (Raise e)).
Proof.
  unfold after. destruct (m s) as [[x|e] s1]; intros [= <- <-]; eauto.
Qed.

Lemma track_returns a s e s' :
  track_connection_attempt isoformat (at_time a) (at_now a) (at_io a) ip s
    <> (Raise e, s').
Proof.
  intros H. apply track_cases in H as [(H & _)|[(H & _)|(H & _)]]; discriminate.
Qed.

Lemma run_body_release n a r s :
  run_body isoformat ip n a (AtRelease r) s = (r, s).
Proof. destruct n; reflexivity. Qed.

Lemma run_body_step n a p s :
  is_body p = true ->
  run_body isoformat ip (S n) a p s =
    let '(p', s') := body_step isoformat ip a p s in
    run_body isoformat ip n a p' s'.
Proof. destruct p; try discriminate; reflexivity. Qed.

Lemma finish_eq a p s :
  finish isoformat ip a p s = run_body isoformat ip (dist p) a p s.
Proof. reflexivity. Qed.

Lemma finish_unfold a p s :
  is_body p = true ->
  finish isoformat ip a p s =
    let '(p', s') := body_step isoformat ip a p s in
    match p' with
    | AtRelease r => (r, s')
    | _ => finish isoformat ip a p' s'
    end.
Proof.
  intros Hp. rewrite (finish_eq a p s).
  destruct p; try discriminate; cbn [dist];
    rewrite run_body_step by reflexivity;
    destruct (body_step isoformat ip a _ s) as [p' s'] eqn:E;
    cbn [body_step] in E;
    apply after_cases in E as [(x & _ & ->)|(e & _ & ->)];
    try (rewrite run_body_release; reflexivity).
  - destruct (dict_mem ip x); [rewrite run_body_release; reflexivity|].
    rewrite (finish_eq a AtAppend s'). reflexivity.
  - rewrite (finish_eq a AtPrune s'). reflexivity.
  - rewrite (finish_eq a AtCount s'). reflexivity.
  - destruct x; [|rewrite run_body_release; reflexivity].
    rewrite (finish_eq a AtSetBlocked s'). reflexivity.
  - rewrite (finish_eq a AtPopScore s'). reflexivity.
  - rewrite (finish_eq a AtDelAttempts s'). reflexivity.
  - rewrite (finish_eq a AtSave s'). reflexivity.
Qed.

Lemma finish_check a s :
  finish isoformat ip a AtCheck s =
    track_connection_attempt isoformat (at_time a) (at_now a) (at_io a) ip s.
Proof.
  destruct s as [[d tb ca th lss lfm] dk].
  rewrite finish_unfold by reflexivity.
  unfold track_connection_attempt.
  cbn [body_step]. unfold after. run_monad.
  destruct (dict_mem ip d); [reflexivity|].
  rewrite finish_unfold by reflexivity.
  cbn [body_step]. unfold after. run_monad.
  destruct (ca !! ip) as [l|]; run_lookups;
    rewrite finish_unfold by reflexivity;
    cbn [body_step]; unfold after; run_lookups;
    rewrite finish_unfold by reflexivity;
    cbn [body_step]; unfold after; run_lookups;
    (case_bool_decide as Hc;
     [rewrite decide_True by exact Hc|rewrite decide_False by exact Hc];
     [|reflexivity]);
    rewrite finish_unfold by reflexivity;
    cbn [body_step]; unfold after; run_lookups;
    rewrite finish_unfold by reflexivity;
    cbn [body_step]; unfold after; run_lookups;
    rewrite finish_unfold by reflexivity;
    cbn [body_step]; unfold after; run_lookups;
    rewrite finish_unfold by reflexivity;
    cbn [body_step]; unfold after;
    destruct (_save_blocked_ips (at_io a) _) as [[[]|e] s']; reflexivity.
Qed.

Lemma finish_save_result a s :
  (finish isoformat ip a AtSave s).1 <> Ret false.
Proof.
  rewrite finish_unfold by reflexivity.
  destruct (body_step isoformat ip a AtSave s) as [p' s'] eqn:E.
  cbn [body_step] in E.
  apply after_cases in E as [(x & _ & ->)|(e & _ & ->)]; discriminate.
Qed.

Lemma finish_del_result a s :
  (finish isoformat ip a AtDelAttempts s).1 <> Ret false.
Proof.
  rewrite finish_unfold by reflexivity.
  destruct (body_step isoformat ip a AtDelAttempts s) as [p' s'] eqn:E.
  cbn [body_step] in E.
  apply after_cases in E as [(x & _ & ->)|(e & _ & ->)]; [|discriminate].
  apply finish_save_result.
Qed.

Lemma finish_pop_result a s :
  (finish isoformat ip a AtPopScore s).1 <> Ret false.
Proof.
  rewrite finish_unfold by reflexivity.
  destruct (body_step isoformat ip a AtPopScore s) as [p' s'] eqn:E.
  cbn [body_step] in E.
  apply after_cases in E as [(x & _ & ->)|(e & _ & ->)]; [|discriminate].
  apply finish_del_result.
Qed.

Lemma finish_set_result a s :
  (finish isoformat ip a AtSetBlocked s).1 <> Ret false.
Proof.
  rewrite finish_unfold by reflexivity.
  destruct (body_step isoformat ip a AtSetBlocked s) as [p' s'] eqn:E.
  cbn [body_step] in E.
  apply after_cases in E as [(x & _ & ->)|(e & _ & ->)]; [|discriminate].
  apply finish_pop_result.
Qed.

Lemma body_step_cases a p sh committed p' s' :
  is_body p = true ->
  body_inv isoformat ip a p sh committed ->
  body_step isoformat ip a p sh = (p', s') ->
  (is_body p' = true /\ body_inv isoformat ip a p' s' committed /\
   past_set p' = (past_set p || is_set p) /\ is_save p = false) \/
  (exists r, p' = AtRelease r /\
     track_connection_attempt isoformat (at_time a) (at_now a) (at_io a) ip
       committed = (r, s') /\
     blocks_now ip a committed = is_save p /\ past_set p = is_save p /\
     is_set p = false).
Proof.
  intros Hbody Hinv Hstep.
  assert (Hfin : finish isoformat ip a p sh =
            track_connection_attempt isoformat (at_time a) (at_now a)
              (at_io a) ip committed).
  { destruct p; try discriminate; cbn [body_inv] in Hinv;
      try (destruct Hinv as [_ H]; exact H).
    subst. apply finish_check. }
  rewrite finish_unfold in Hfin by exact Hbody. rewrite Hstep in Hfin.
  destruct p; try discriminate; cbn [body_step] in Hstep;
    apply after_cases in Hstep as [(x & Hm & ->)|(e & Hm & ->)];
    try (exfalso; eapply track_returns; symmetry; exact Hfin);
    cbn [body_inv] in Hinv.
  - unfold read in Hm. injection Hm as <- <-. subst sh.
    destruct (dict_mem ip (blocked_ips (blocker committed))) eqn:E.
    + right. exists (Ret true). split; [reflexivity|].
      split; [symmetry; exact Hfin|].
      unfold blocks_now. rewrite E. repeat split; reflexivity.
    + left. split; [reflexivity|]. split; [|split; reflexivity].
      cbn [body_inv]. split; [exact E|exact Hfin].
  - left. destruct Hinv as [Hfree _]. split; [reflexivity|].
    split; [|split; reflexivity]. cbn [body_inv]. split; [exact Hfree|exact Hfin].
  - left. destruct Hinv as [Hfree _]. split; [reflexivity|].
    split; [|split; reflexivity]. cbn [body_inv]. split; [exact Hfree|exact Hfin].
  - destruct Hinv as [Hfree _]. destruct x.
    + left. split; [reflexivity|]. split; [|split; reflexivity].
      cbn [body_inv]. split; [|exact Hfin].
      pose proof (finish_set_result a s') as Hres.
      destruct (finish isoformat ip a AtSetBlocked s') as [r s1] eqn:Ef.
      symmetry in Hfin.
      apply track_cases in Hfin as [(_ & Hb & _)|[(-> & _)|(_ & Hb & _)]].
      * congruence.
      * exfalso. apply Hres. reflexivity.
      * exact Hb.
    + right. exists (Ret false). split; [reflexivity|].
      symmetry in Hfin. split; [exact Hfin|].
      apply track_cases in Hfin as [(H & _)|[(_ & _ & Hb & _)|(H & _)]];
        try discriminate.
      split; [exact Hb|split; reflexivity].
  - left. destruct Hinv as [Hb _]. split; [reflexivity|].
    split; [|split; reflexivity]. cbn [body_inv]. split; [exact Hb|exact Hfin].
  - left. destruct Hinv as [Hb _]. split; [reflexivity|].
    split; [|split; reflexivity]. cbn [body_inv]. split; [exact Hb|exact Hfin].
  - left. destruct Hinv as [Hb _]. split; [reflexivity|].
    split; [|split; reflexivity]. cbn [body_inv]. split; [exact Hb|exact Hfin].
  - right. destruct Hinv as [Hb _]. exists (Ret true). split; [reflexivity|].
    symmetry in Hfin. split; [exact Hfin|].
    split; [exact Hb|split; reflexivity].
Qed.

Lemma serial_snoc order i a :
  calls !! i = Some a ->
  forall s rs bs committed r s',
  serial isoformat ip calls order s = (rs, bs, committed) ->
  track_connection_attempt isoformat (at_time a) (at_now a) (at_io a) ip
    committed = (r, s') ->
  serial isoformat ip calls (order ++ [i]) s =
    (rs ++ [r], bs ++ (if blocks_now ip a committed then [i] else []), s').
Proof.
  intros Ha. induction order as [|j rest IH]; intros s rs bs committed r s' Hs Ht.
  - cbn in Hs. injection Hs as <- <- <-. cbn. rewrite Ha, Ht.
    rewrite app_nil_r. reflexivity.
  - cbn [app serial] in *. destruct (calls !! j) as [b|]; [|eauto].
    destruct (track_connection_attempt _ _ _ _ _ s) as [r1 s1].
    destruct (serial isoformat ip calls rest s1) as [[rs1 bs1] c1] eqn:E.
    injection Hs as <- <- <-.
    rewrite (IH s1 rs1 bs1 c1 r s' E Ht).
    rewrite app_assoc. reflexivity.
Qed.

Lemma move_results (ps : list pc) i p p' (order : list nat)
    (rs : list (res bool)) :
  ps !! i = Some p -> result_of p' = result_of p ->
  (forall j q, ps !! j = Some q -> is_Some (result_of q) -> j ∈ order) ->
  (forall k j, order !! k = Some j ->
     exists q r, ps !! j = Some q /\ result_of q = Some r /\ rs !! k = Some r) ->
  (forall j q, <[i := p']> ps !! j = Some q -> is_Some (result_of q) ->
     j ∈ order) /\
  (forall k j, order !! k = Some j ->
     exists q r, <[i := p']> ps !! j = Some q /\ result_of q = Some r /\
       rs !! k = Some r).
Proof.
  intros Hp Hres H2 H4. pose proof (lookup_lt_Some _ _ _ Hp) as Hlt. split.
  - intros j q Hq Hsome. destruct (decide (i = j)) as [<-|Hne].
    + rewrite list_lookup_insert_eq in Hq by exact Hlt. injection Hq as <-.
      rewrite Hres in Hsome. eauto.
    + rewrite list_lookup_insert_ne in Hq by exact Hne. eauto.
  - intros k j Hk. destruct (H4 k j Hk) as (q & r & Hq & Hr & Hrs).
    destruct (decide (i = j)) as [<-|Hne].
    + exists p', r. rewrite list_lookup_insert_eq by exact Hlt.
      split; [reflexivity|]. split; [|exact Hrs]. congruence.
    + exists q, r. rewrite list_lookup_insert_ne by exact Hne. auto.
Qed.

Lemma move_outside (ps : list pc) i p' (P : nat -> Prop) :
  (i < length ps)%nat -> (P i -> inside p' = false) ->
  (forall j q, P j -> ps !! j = Some q -> inside q = false) ->
  forall j q, P j -> <[i := p']> ps !! j = Some q -> inside q = false.
Proof.
  intros Hlt Hp H j q Hj Hq. destruct (decide (i = j)) as [<-|Hne].
  - rewrite list_lookup_insert_eq in Hq by exact Hlt. injection Hq as <-. auto.
  - rewrite list_lookup_insert_ne in Hq by exact Hne. eauto.
Qed.

Lemma thread_step_body i a p c :
  is_body p = true ->
  thread_step isoformat ip i a p c =
    let '(p', s') := body_step isoformat ip a p (shared c) in
    Some (mkConfig s' (lock c) (<[i := p']> (pcs c))
            (if is_set p then blockers c ++ [i] else blockers c)
            (if is_save p then savers c ++ [i] else savers c)).
Proof. destruct p; try discriminate; reflexivity. Qed.

Lemma is_body_inside p : is_body p = true -> inside p = true.
Proof. destruct p; auto. Qed.

Lemma is_body_result p : is_body p = true -> result_of p = None.
Proof. destruct p; auto; discriminate. Qed.

Lemma inside_cases p :
  inside p = true -> is_body p = true \/ exists r, p = AtRelease r.
Proof. destruct p; try discriminate; eauto. Qed.

Lemma holder_is s0 order c i p :
  linearised isoformat ip calls s0 order c ->
  pcs c !! i = Some p -> inside p = true -> lock c = Some i.
Proof.
  unfold linearised. destruct (serial _ _ _ _ _) as [[rs bs] committed].
  intros (_ & _ & _ & _ & _ & _ & Hlock) Hp Hin.
  destruct (lock c) as [l|].
  - destruct Hlock as (a & q & _ & _ & _ & Hothers & _).
    destruct (decide (i = l)) as [->|Hne]; [reflexivity|].
    rewrite (Hothers i p Hne Hp) in Hin. discriminate.
  - destruct Hlock as (_ & _ & Hall). rewrite (Hall i p Hp) in Hin.
    discriminate.
Qed.

Lemma body_step_linearised s0 order c i a p :
  linearised isoformat ip calls s0 order c ->
  calls !! i = Some a -> pcs c !! i = Some p -> is_body p = true ->
  exists order' c',
    thread_step isoformat ip i a p c = Some c' /\
    linearised isoformat ip calls s0 order' c'.
Proof.
  intros H Ea Ep Hbody.
  pose proof (lookup_lt_Some _ _ _ Ep) as Hlt.
  pose proof (holder_is s0 order c i p H Ep (is_body_inside p Hbody)) as Hl.
  rewrite thread_step_body by exact Hbody.
  destruct (body_step isoformat ip a p (shared c)) as [p' s'] eqn:Eb.
  unfold linearised in H.
  destruct (serial isoformat ip calls order s0) as [[rs bs] committed] eqn:Es.
  destruct H as (Hnd & Hlen & Hrs & H2 & H4 & Hsav & Hlock).
  rewrite Hl in Hlock.
  destruct Hlock as (a0 & p0 & Ha0 & Hp0 & Hin0 & Hothers & Hbinv & Hblk).
  assert (a0 = a) as -> by congruence. assert (p0 = p) as -> by congruence.
  destruct (body_step_cases a p (shared c) committed p' s' Hbody Hbinv Eb)
    as [(Hb' & Hinv' & Hpast & Hns)|(r & -> & Htrack & Hbn & Hps & Hnset)].
  - exists order. eexists. split; [reflexivity|].
    unfold linearised. rewrite Es. cbn [pcs lock shared blockers savers].
    destruct (move_results (pcs c) i p p' order rs Ep) as [H2' H4']; auto.
    { rewrite !is_body_result; auto. }
    split; [exact Hnd|]. split; [rewrite length_insert; exact Hlen|].
    split; [exact Hrs|]. split; [exact H2'|]. split; [exact H4'|].
    split; [rewrite Hns; exact Hsav|].
    rewrite Hl. exists a, p'. split; [exact Ea|].
    split; [apply list_lookup_insert_eq; exact Hlt|].
    split; [apply is_body_inside; exact Hb'|].
    split.
    { intros j q Hj Hq. rewrite list_lookup_insert_ne in Hq by congruence.
      eauto. }
    split; [exact Hinv'|].
    rewrite Hpast, Hblk. destruct (is_set p) eqn:Eset.
    + destruct p; try discriminate. cbn. rewrite app_nil_r. reflexivity.
    + rewrite orb_false_r. reflexivity.
  - exists (order ++ [i]). eexists. split; [reflexivity|].
    unfold linearised.
    rewrite (serial_snoc order i a Ea s0 rs bs committed r s' Es Htrack).
    cbn [pcs lock shared blockers savers].
    assert (Hfresh : i ∉ order).
    { intros Hin. apply list_elem_of_lookup in Hin as [k Hk].
      destruct (H4 k i Hk) as (q & r0 & Hq & Hr0 & _).
      rewrite Ep in Hq. injection Hq as <-.
      rewrite is_body_result in Hr0 by exact Hbody. discriminate. }
    split.
    { apply NoDup_app. split; [exact Hnd|]. split; [|apply NoDup_singleton].
      intros x Hx Hx'. apply list_elem_of_singleton in Hx'. subst. auto. }
    split; [rewrite length_insert; exact Hlen|].
    split; [rewrite !length_app; cbn; lia|].
    split.
    { intros j q Hq Hsome. apply elem_of_app.
      destruct (decide (i = j)) as [<-|Hne].
      - right. apply list_elem_of_singleton. reflexivity.
      - rewrite list_lookup_insert_ne in Hq by exact Hne. left. eauto. }
    split.
    { intros k j Hk. destruct (decide (k < length order)%nat) as [Hk1|Hk1].
      - rewrite lookup_app_l in Hk by exact Hk1.
        destruct (H4 k j Hk) as (q & r0 & Hq & Hr0 & Hrs0). exists q, r0.
        assert (i <> j).
        { intros <-. apply Hfresh. apply list_elem_of_lookup. eauto. }
        rewrite list_lookup_insert_ne by assumption.
        split; [exact Hq|]. split; [exact Hr0|].
        rewrite lookup_app_l by (rewrite Hrs; exact Hk1). exact Hrs0.
      - rewrite lookup_app_r in Hk by lia.
        destruct (k - length order)%nat eqn:Ek; [|destruct n; discriminate].
        cbn in Hk. injection Hk as <-. exists (AtRelease r), r.
        rewrite list_lookup_insert_eq by exact Hlt.
        split; [reflexivity|]. split; [reflexivity|].
        rewrite lookup_app_r by lia.
        replace (k - length rs)%nat with 0%nat by lia. reflexivity. }
    split.
    { rewrite Hbn, Hsav. destruct (is_save p); [reflexivity|].
      rewrite app_nil_r. reflexivity. }
    rewrite Hl. exists a, (AtRelease r). split; [exact Ea|].
    split; [apply list_lookup_insert_eq; exact Hlt|].
    split; [reflexivity|].
    split.
    { intros j q Hj Hq. rewrite list_lookup_insert_ne in Hq by congruence.
      eauto. }
    split; [reflexivity|].
    cbn [past_set]. rewrite Hnset, Hblk, Hps, Hbn, app_nil_r. reflexivity.
Qed.

Lemma sched_step_linearised s0 order c i :
  linearised isoformat ip calls s0 order c ->
  exists order',
    linearised isoformat ip calls s0 order' (sched_step isoformat ip calls c i).
Proof.
  intros H. unfold sched_step.
  destruct (calls !! i) as [a|] eqn:Ea; [|eauto].
  destruct (pcs c !! i) as [p|] eqn:Ep; [|eauto].
  destruct (bool_cases (is_body p)) as [Hbody|Hnbody].
  { destruct (body_step_linearised s0 order c i a p H Ea Ep Hbody)
      as (order' & c' & -> & H'). eauto. }
  pose proof (lookup_lt_Some _ _ _ Ep) as Hlt.
  pose proof (holder_is s0 order c i p H Ep) as Hholder.
  exists order. revert H. unfold linearised.
  destruct (serial isoformat ip calls order s0) as [[rs bs] committed] eqn:Es.
  intros (Hnd & Hlen & Hrs & H2 & H4 & Hsav & Hlock).
  destruct p; try discriminate; cbn [thread_step from_option id].
  - (* the clock is read *)
    cbn [pcs lock shared blockers savers].
    destruct (move_results (pcs c) i Start Ready order rs Ep) as [H2' H4'];
      auto.
    split; [exact Hnd|]. split; [rewrite length_insert; exact Hlen|].
    split; [exact Hrs|]. split; [exact H2'|]. split; [exact H4'|].
    split; [exact Hsav|].
    destruct (lock c) as [l|].
    + destruct Hlock as (a0 & p0 & Ha0 & Hp0 & Hin0 & Hothers & Hrest).
      assert (Hne : i <> l).
      { intros ->. rewrite Ep in Hp0. injection Hp0 as <-. discriminate. }
      exists a0, p0. split; [exact Ha0|].
      split; [rewrite list_lookup_insert_ne by exact Hne; exact Hp0|].
      split; [exact Hin0|]. split; [|exact Hrest].
      apply (move_outside (pcs c) i Ready (fun j => j <> l)); auto.
    + destruct Hlock as (Hsh & Hblk & Hall).
      split; [exact Hsh|]. split; [exact Hblk|].
      intros j q Hq.
      apply (move_outside (pcs c) i Ready (fun _ => True) Hlt) with (j := j);
        auto.
      intros j' q' _. apply Hall.
  - (* the lock is taken, when it is free *)
    destruct (lock c) as [l|] eqn:El; cbn [from_option id].
    { rewrite El. repeat (split; [assumption|]). exact Hlock. }
    cbn [pcs lock shared blockers savers].
    destruct (move_results (pcs c) i Ready AtCheck order rs Ep) as [H2' H4'];
      auto.
    destruct Hlock as (Hsh & Hblk & Hall).
    split; [exact Hnd|]. split; [rewrite length_insert; exact Hlen|].
    split; [exact Hrs|]. split; [exact H2'|]. split; [exact H4'|].
    split; [exact Hsav|].
    exists a, AtCheck. split; [exact Ea|].
    split; [apply list_lookup_insert_eq; exact Hlt|].
    split; [reflexivity|].
    split.
    { intros j q Hj Hq. rewrite list_lookup_insert_ne in Hq by congruence.
      eauto. }
    split; [exact Hsh|]. cbn. rewrite app_nil_r. exact Hblk.
  - (* the lock is released *)
    cbn [pcs lock shared blockers savers].
    destruct (move_results (pcs c) i (AtRelease r) (Done r) order rs Ep)
      as [H2' H4']; auto.
    rewrite (Hholder eq_refl) in Hlock.
    destruct Hlock as (a0 & p0 & Ha0 & Hp0 & Hin0 & Hothers & Hbinv & Hblk).
    assert (p0 = AtRelease r) as -> by congruence.
    split; [exact Hnd|]. split; [rewrite length_insert; exact Hlen|].
    split; [exact Hrs|]. split; [exact H2'|]. split; [exact H4'|].
    split; [exact Hsav|].
    split; [exact Hbinv|].
    split; [cbn in Hblk; rewrite app_nil_r in Hblk; exact Hblk|].
    intros j q Hq. destruct (decide (i = j)) as [<-|Hne].
    + rewrite list_lookup_insert_eq in Hq by exact Hlt. injection Hq as <-.
      reflexivity.
    + rewrite list_lookup_insert_ne in Hq by exact Hne. eauto.
  - (* the thread has returned *)
    repeat (split; [assumption|]). exact Hlock.
Qed.

Lemma initial_linearised s0 :
  linearised isoformat ip calls s0 [] (initial calls s0).
Proof.
  unfold linearised, initial. cbn.
  split; [constructor|]. split; [apply length_replicate|].
  split; [reflexivity|].
  split.
  { intros i p Hp Hres. apply lookup_replicate in Hp as [-> _].
    destruct Hres; discriminate. }
  split; [intros k i Hk; discriminate|].
  split; [reflexivity|]. split; [reflexivity|]. split; [reflexivity|].
  intros i p Hp. apply lookup_replicate in Hp as [-> _]. reflexivity.
Qed.

Lemma run_schedule_linearised s0 sched :
  forall order c,
  linearised isoformat ip calls s0 order c ->
  exists order',
    linearised isoformat ip calls s0 order'
      (run_schedule isoformat ip calls sched c).
Proof.
  induction sched as [|i rest IH]; intros order c H; [eauto|].
  cbn [run_schedule fold_left].
  destruct (sched_step_linearised s0 order c i H) as [order' H'].
  apply (IH order' _ H').
Qed.

Lemma serial_blocked order :
  forall s,
  dict_mem ip (blocked_ips (blocker s)) = true ->
  (forall i, i ∈ order -> is_Some (calls !! i)) ->
  serial isoformat ip calls order s
    = (replicate (length order) (Ret true), [], s).
Proof.
  induction order as [|i rest IH]; intros s Hb Hvalid; [reflexivity|].
  cbn [serial]. destruct (Hvalid i) as [a Ha]; [left|]. rewrite Ha.
  rewrite track_blocked by exact Hb.
  rewrite IH; [|exact Hb|intros j Hj; apply Hvalid; right; exact Hj].
  unfold blocks_now. rewrite Hb. reflexivity.
Qed.

Lemma same_but_attempts_refl s : same_but_attempts s s.
Proof. repeat split. Qed.

Lemma serial_blocks_once window_end :
  one_window window_end (map at_time calls) ->
  forall order (done pre : list Q) (s : sys),
  (forall i, i ∈ order -> is_Some (calls !! i)) ->
  dict_mem ip (blocked_ips (blocker s)) = false ->
  default [] (connection_attempts (blocker s) !! ip) = pre ++ done ->
  one_window window_end done ->
  order <> [] ->
  block_threshold (blocker s) <= Z.of_nat (length done + length order) ->
  exists o1 i o2 a s1,
    order = o1 ++ i :: o2 /\ calls !! i = Some a /\
    same_but_attempts s s1 /\
    serial isoformat ip calls order s =
      (replicate (length o1) (Ret false) ++
         Ret true :: replicate (length o2) (Ret true),
       [i],
       saved (at_io a) (entered isoformat ip (at_now a) s1)).
Proof.
  intros Hcalls.
  induction order as [|i rest IH];
    intros done pre s Hvalid Hfree Hdone Hwin Hne Hth; [congruence|].
  destruct (Hvalid i) as [a Ha]; [left|].
  assert (Ha_win : (window_end - CONNECTION_TIMEOUT < at_time a
                    /\ at_time a <= window_end)%Q).
  { unfold one_window in Hcalls. rewrite Forall_forall in Hcalls.
    apply Hcalls. apply list_elem_of_fmap. exists a. split; [reflexivity|].
    apply list_elem_of_lookup. eauto. }
  assert (Hcount : counted (at_time a) ip s =
            recent (at_time a - CONNECTION_TIMEOUT)%Q pre
              ++ done ++ [at_time a]).
  { apply counted_keeps; auto.
    eapply Forall_impl; [exact Hwin|]. cbn. intros u [Hu _].
    destruct Ha_win. lra. }
  cbn [serial]. rewrite Ha.
  destruct (Z_lt_ge_dec (Z.of_nat (length (counted (at_time a) ip s)))
              (block_threshold (blocker s))) as [Hlt|Hge].
  - rewrite track_below by assumption.
    destruct rest as [|i' rest'].
    { exfalso. rewrite Hcount in Hlt. rewrite !length_app in Hlt.
      cbn [length] in Hlt, Hth. lia. }
    match goal with
    | |- context [serial _ _ _ _ ?s1] =>
        destruct (IH (done ++ [at_time a])
                    (recent (at_time a - CONNECTION_TIMEOUT)%Q pre) s1)
          as (o1 & j & o2 & b & s2 & Ho & Hb & Hsame & Hser)
    end.
    + intros j Hj. apply Hvalid. right. exact Hj.
    + exact Hfree.
    + cbn [blocker connection_attempts]. rewrite lookup_insert_eq.
      cbn [default from_option id]. rewrite Hcount. reflexivity.
    + apply Forall_app. split; [exact Hwin|].
      constructor; [exact Ha_win|constructor].
    + discriminate.
    + cbn [blocker block_threshold]. rewrite length_app.
      cbn [length] in *. lia.
    + exists (i :: o1), j, o2, b, s2.
      split; [rewrite Ho; reflexivity|]. split; [exact Hb|].
      split.
      { destruct Hsame as (H1 & H2 & H3 & H4 & H5 & H6).
        repeat split; assumption. }
      rewrite Hser. unfold blocks_now. rewrite Hfree.
      rewrite bool_decide_eq_false_2 by lia. reflexivity.
  - rewrite track_reached by assumption.
    rewrite serial_blocked.
    + exists [], i, rest, a, s.
      split; [reflexivity|]. split; [exact Ha|].
      split; [apply same_but_attempts_refl|].
      unfold blocks_now. rewrite Hfree.
      rewrite bool_decide_eq_true_2 by lia. reflexivity.
    + rewrite saved_blocked_ips. cbn. apply dict_mem_get.
      rewrite dict_get_set_eq. eauto.
    + intros j Hj. apply Hvalid. right. exact Hj.
Qed.

Lemma body_step_moves a p s p' s' :
  is_body p = true -> body_step isoformat ip a p s = (p', s') -> p' <> p.
Proof.
  intros Hp E. destruct p; try discriminate; cbn [body_step] in E;
    apply after_cases in E as [(x & _ & ->)|(e & _ & ->)];
    try discriminate.
  - destruct (dict_mem ip x); discriminate.
  - destruct x; discriminate.
Qed.

Lemma linearised_progress s0 order c :
  linearised isoformat ip calls s0 order c ->
  ~ all_done c ->
  exists i, (i < length calls)%nat /\ sched_step isoformat ip calls c i <> c.
Proof.
  unfold linearised.
  destruct (serial isoformat ip calls order s0) as [[rs bs] committed].
  intros (Hnd & Hlen & Hrs & H2 & H4 & Hsav & Hlock) Hnot.
  destruct (lock c) as [l|] eqn:El.
  - destruct Hlock as (a & p & Ha & Hp & Hin & _).
    exists l. split; [apply lookup_lt_Some in Ha; exact Ha|].
    pose proof (lookup_lt_Some _ _ _ Hp) as Hlt.
    unfold sched_step. rewrite Ha, Hp.
    destruct (inside_cases p Hin) as [Hbody|[r ->]].
    + rewrite thread_step_body by exact Hbody.
      destruct (body_step isoformat ip a p (shared c)) as [p' s'] eqn:Eb.
      cbn [from_option id]. intros Heq.
      apply (f_equal (fun c => pcs c !! l)) in Heq. cbn [pcs] in Heq.
      rewrite list_lookup_insert_eq in Heq by exact Hlt. rewrite Hp in Heq.
      injection Heq as Heq. revert Heq.
      eapply body_step_moves; eauto.
    + cbn [thread_step from_option id]. intros Heq.
      apply (f_equal lock) in Heq. cbn [lock] in Heq. congruence.
  - destruct Hlock as (_ & _ & Hall).
    apply not_Forall_Exists in Hnot; [|intros p; apply _].
    apply Exists_exists in Hnot as (p & Hin & Hp).
    apply list_elem_of_lookup in Hin as [j Hj].
    pose proof (lookup_lt_Some _ _ _ Hj) as Hlt.
    exists j. split; [rewrite <- Hlen; exact Hlt|].
    destruct (lookup_lt_is_Some_2 calls j) as [a Ha];
      [rewrite <- Hlen; exact Hlt|].
    unfold sched_step. rewrite Ha, Hj.
    pose proof (Hall j p Hj) as Hout.
    destruct p; try discriminate; cbn [thread_step from_option id].
    + intros Heq. apply (f_equal (fun c => pcs c !! j)) in Heq.
      cbn [pcs] in Heq. rewrite list_lookup_insert_eq in Heq by exact Hlt.
      rewrite Hj in Heq. discriminate.
    + rewrite El. cbn [from_option id]. intros Heq.
      apply (f_equal lock) in Heq. cbn [lock] in Heq. congruence.
    + exfalso. apply Hp. reflexivity.
Qed.

(** C3 (as amended).  Let the threads [0], [1], ... each call
    [track_connection_attempt] for an address that is not blocked, at least
    [block_threshold] of them (and at least one), with all their timestamps
    in one window of the code, later than [window_end - CONNECTION_TIMEOUT]
    and no later than [window_end]; a thread reads the clock, waits for [self.lock], runs the
    statements of the locked block one at a time and releases the lock, and
    the scheduler interleaves the threads in any way [sched].  When all
    calls have returned, exactly one thread has run the line that enters the
    address in the block record, the same thread and no other has run the
    line that calls [_save_blocked_ips], it has returned [True], the lock is
    free, and the shared state is the saved state of that one entry, made in
    a state that differs from the first one in the attempt windows only.
    As long as some call has not returned, some thread can take a step. *)
Theorem simultaneous_attempts_block_once (s0 : sys) (window_end : Q)
    (sched : list nat) :
  dict_mem ip (blocked_ips (blocker s0)) = false ->
  calls <> [] ->
  block_threshold (blocker s0) <= Z.of_nat (length calls) ->
  one_window window_end (map at_time calls) ->
  let c := run_schedule isoformat ip calls sched (initial calls s0) in
  (all_done c ->
   exists i a s1,
     calls !! i = Some a /\
     blockers c = [i] /\ savers c = [i] /\
     pcs c !! i = Some (Done (Ret true)) /\
     lock c = None /\
     same_but_attempts s0 s1 /\
     shared c = saved (at_io a) (entered isoformat ip (at_now a) s1)) /\
  (~ all_done c ->
   exists i, (i < length calls)%nat /\
     sched_step isoformat ip calls c i <> c).
Proof.
  intros Hfree Hne Hth Hwin c.
  destruct (run_schedule_linearised s0 sched [] (initial calls s0)
              (initial_linearised s0)) as [order Hlin].
  fold c in Hlin. split; [|apply (linearised_progress s0 order c Hlin)].
  intros Hdone. unfold linearised in Hlin.
  destruct (serial isoformat ip calls order s0) as [[rs bs] committed] eqn:Es.
  destruct Hlin as (Hnd & Hlen & Hrs & H2 & H4 & Hsav & Hlock).
  unfold all_done in Hdone.
  assert (Hvalid : forall i, i ∈ order -> is_Some (calls !! i)).
  { intros i Hi. apply list_elem_of_lookup in Hi as [k Hk].
    destruct (H4 k i Hk) as (p & r & Hp & _).
    apply lookup_lt_is_Some_2. rewrite <- Hlen.
    apply (lookup_lt_Some _ _ _ Hp). }
  assert (Hall : forall i, (i < length calls)%nat -> i ∈ order).
  { intros i Hi. destruct (lookup_lt_is_Some_2 (pcs c) i) as [p Hp];
      [rewrite Hlen; exact Hi|].
    apply (H2 i p Hp).
    pose proof (Forall_lookup_1 _ _ _ _ Hdone Hp) as Hd.
    destruct p; try discriminate. cbn. eauto. }
  assert (Hlength : length order = length calls).
  { transitivity (length (seq 0 (length calls))); [|apply length_seq].
    apply Permutation_length.
    apply NoDup_Permutation; [exact Hnd|apply NoDup_seq|].
    intros i. rewrite elem_of_seq. split.
    - intros Hi. apply Hvalid in Hi. apply lookup_lt_is_Some in Hi. lia.
    - intros [_ Hi]. apply Hall. lia. }
  destruct (lock c) as [l|] eqn:El.
  { exfalso. destruct Hlock as (a & p & _ & Hp & Hin & _).
    pose proof (Forall_lookup_1 _ _ _ _ Hdone Hp) as Hd.
    destruct p; discriminate. }
  destruct Hlock as (Hsh & Hblk & _).
  destruct (serial_blocks_once window_end Hwin order []
              (default [] (connection_attempts (blocker s0) !! ip)) s0)
    as (o1 & i & o2 & a & s1 & Ho & Ha & Hsame & Hser); auto.
  - rewrite app_nil_r. reflexivity.
  - constructor.
  - intros ->. destruct calls; [congruence|discriminate].
  - cbn [length Nat.add]. rewrite Hlength. exact Hth.
  - rewrite Es in Hser. injection Hser as -> -> ->.
    exists i, a, s1. split; [exact Ha|]. split; [exact Hblk|].
    split; [exact Hsav|]. split; [|split; [reflexivity|split; assumption]].
    assert (Hk : order !! length o1 = Some i).
    { rewrite Ho. apply list_lookup_middle. reflexivity. }
    destruct (H4 _ _ Hk) as (p & r & Hp & Hr & Hrk).
    rewrite list_lookup_middle in Hrk by (rewrite length_replicate; reflexivity).
    injection Hrk as <-.
    pose proof (Forall_lookup_1 _ _ _ _ Hdone Hp) as Hd.
    destruct p; try discriminate. cbn in Hr. congruence.
Qed.

End ThreadFacts.

(** ** The statements on sample inputs *)

Lemma sample_window : one_window 10 (map at_time sample_calls).
Proof.
  unfold one_window, sample_calls, CONNECTION_TIMEOUT. cbn [map at_time].
  repeat (constructor; [split; vm_compute; [reflexivity|discriminate]|]).
  constructor.
Qed.

Lemma track_threshold_blocks_witness :
  exists c, c ∈ sample_calls /\
    dict_get sample_ip
      (blocked_ips (blocker
         (track_all sample_isoformat sample_calls sample_ip fresh).2))
      = Some (PStr (sample_isoformat (at_now c))) /\
    last (track_all sample_isoformat sample_calls sample_ip fresh).1
      = Some (Ret true) /\
    is_ip_blocked sample_fromisoformat 1000000 None sample_ip
      (track_all sample_isoformat sample_calls sample_ip fresh).2
      = (Ret true, (track_all sample_isoformat sample_calls sample_ip fresh).2).
Proof.
  apply (track_threshold_blocks sample_isoformat sample_fromisoformat fresh
           sample_ip sample_calls 10 1000000 None).
  - reflexivity.
  - discriminate.
  - vm_compute. discriminate.
  - exact sample_window.
  - unfold sample_calls. cbn [map].
    repeat (constructor; [split; vm_compute; [reflexivity|discriminate]|]).
    constructor.
Defined.

(** C1, as stated, fails for a window that includes its lower end: of ten
    attempts at the seconds 0 to 8 and 30, all within the thirty seconds
    that end at second 30, the call at second 30 drops the attempt at second
    0 and counts nine, and the address is not blocked. *)
Lemma track_closed_window_counterexample :
  ~ (forall (isoformat : Z -> string) (s : sys) (ip : string)
       (calls : list attempt) (window_end : Q),
       dict_mem ip (blocked_ips (blocker s)) = false ->
       calls <> [] ->
       block_threshold (blocker s) <= Z.of_nat (length calls) ->
       closed_window window_end (map at_time calls) ->
       is_Some (dict_get ip (blocked_ips (blocker
                  (track_all isoformat calls ip s).2)))).
Proof.
  intros H.
  assert (Hne : sample_boundary_calls <> []) by discriminate.
  assert (Hth : block_threshold (blocker fresh)
                <= Z.of_nat (length sample_boundary_calls))
    by (vm_compute; discriminate).
  assert (Hwin : closed_window 30 (map at_time sample_boundary_calls)).
  { unfold closed_window, sample_boundary_calls, CONNECTION_TIMEOUT.
    cbn [map at_time].
    repeat (constructor; [split; vm_compute; discriminate|]).
    constructor. }
  destruct (H sample_isoformat fresh sample_ip sample_boundary_calls 30%Q
              eq_refl Hne Hth Hwin) as [v Hv].
  vm_compute in Hv. discriminate.
Qed.

Lemma is_ip_blocked_lazy_expiry_witness :
  is_ip_blocked sample_fromisoformat 3600000000 None sample_ip sample_blocked
    = (Ret true, sample_blocked).
Proof.
  apply (proj1 (is_ip_blocked_lazy_expiry sample_fromisoformat sample_blocked
                  sample_ip "1970-01-01T00:00:00" 0 3600000000 None
                  eq_refl eq_refl)).
  vm_compute. discriminate.
Defined.

(** C2, as stated, fails at the very end of the interval: the address
    blocked at 0 is still blocked at a check made exactly one hour later. *)
Lemma is_ip_blocked_at_interval_counterexample :
  ~ (forall (fromisoformat : string -> option Z) (s : sys) (ip str : string)
       (T now : Z) (io : option Q),
       dict_get ip (blocked_ips (blocker s)) = Some (PStr str) ->
       fromisoformat str = Some T ->
       now >= T + BLOCK_RESET_INTERVAL ->
       (is_ip_blocked fromisoformat now io ip s).1 = Ret false).
Proof.
  intros H.
  specialize (H sample_fromisoformat sample_blocked sample_ip
                "1970-01-01T00:00:00" 0 3600000000 None eq_refl eq_refl).
  assert (Hge : 3600000000 >= 0 + BLOCK_RESET_INTERVAL)
    by (vm_compute; discriminate).
  specialize (H Hge). vm_compute in H. discriminate.
Qed.

Lemma track_window_contents_witness :
  connection_attempts (blocker
    (track_connection_attempt sample_isoformat 10 0 None sample_ip
       sample_tracking).2) !! sample_ip
  = Some (recent (10 - CONNECTION_TIMEOUT)%Q [0%Q] ++ [10%Q]).
Proof.
  refine (proj1 (track_window_contents sample_isoformat sample_tracking
                   sample_ip 10 0 None eq_refl _)).
  vm_compute. reflexivity.
Defined.

(** C4, as stated, fails at the lower end of the window: an attempt made
    exactly [CONNECTION_TIMEOUT] seconds before the call lies in the closed
    interval and is dropped. *)
Lemma track_window_boundary_counterexample :
  ~ (forall (isoformat : Z -> string) (s : sys) (ip : string) (t : Q)
       (now : Z) (io : option Q) (u : Q),
       dict_mem ip (blocked_ips (blocker s)) = false ->
       u ∈ default [] (connection_attempts (blocker s) !! ip) ->
       (t - CONNECTION_TIMEOUT <= u /\ u <= t)%Q ->
       u ∈ default []
             (connection_attempts (blocker
                (track_connection_attempt isoformat t now io ip s).2) !! ip)).
Proof.
  intros H.
  specialize (H sample_isoformat sample_tracking sample_ip 30%Q 0 None 0%Q
                eq_refl).
  assert (Hin : 0%Q ∈ default []
                  (connection_attempts (blocker sample_tracking) !! sample_ip)).
  { vm_compute. left. }
  assert (Hint : (30 - CONNECTION_TIMEOUT <= 0 /\ 0 <= 30)%Q).
  { split; vm_compute; discriminate. }
  specialize (H Hin Hint). vm_compute in H.
  apply list_elem_of_singleton in H. discriminate.
Qed.

Lemma failure_count_interplay_witness :
  to_block (blocker
    (increment_failure_count sample_isoformat 0 None sample_ip
       (increment_failure_count sample_isoformat 0 None sample_ip
          (increment_failure_count sample_isoformat 0 None sample_ip
             fresh).2).2).2) !! sample_ip = Some (3 # 2)%Q.
Proof.
  assert (Hth : 2 <= block_threshold (blocker fresh))
    by (vm_compute; discriminate).
  pose proof (failure_count_interplay sample_isoformat fresh sample_ip
                0 0 0 0 None None None None eq_refl eq_refl Hth) as H.
  exact (proj2 (proj1 (proj2 (proj2 (proj2 H))))).
Defined.

Lemma sample_unsorted_NoDup :
  NoDup (dict_keys (blocked_ips (blocker sample_unsorted))).
Proof. apply (bool_decide_unpack _). vm_compute. exact I. Qed.

Lemma save_change_detection_witness :
  _save_blocked_ips (Some 7%Q) sample_unsorted =
    (Ret (),
     mkSys (mkIPBlocker (blocked_ips (blocker sample_unsorted)) ∅ ∅
              BLOCK_THRESHOLD
              (Some (json_dumps_sorted (blocked_ips (blocker sample_unsorted))))
              7%Q)
           (File (mkFile (DictDoc (blocked_ips (blocker sample_unsorted)))
                    7%Q))).
Proof.
  pose proof (save_change_detection sample_unsorted 7%Q sample_unsorted_NoDup)
    as H.
  apply (proj1 (proj2 (proj2 (proj2 H)))). discriminate.
Defined.

(** C7, as stated, fails for the text that is written: the pairs of the
    file are in the order in which the keys were inserted. *)
Lemma save_file_order_counterexample :
  ~ (forall (s : sys) (m : Q) (pairs : pydict) (mtime : Q),
       NoDup (dict_keys (blocked_ips (blocker s))) ->
       disk (_save_blocked_ips (Some m) s).2
         = File (mkFile (DictDoc pairs) mtime) ->
       Sorted key_le pairs).
Proof.
  intros H.
  specialize (H sample_unsorted 7%Q
                (blocked_ips (blocker sample_unsorted)) 7%Q
                sample_unsorted_NoDup eq_refl).
  cbn in H. inversion H as [|x l _ Hhd]; subst.
  inversion Hhd as [|y l' Hle]; subst.
  vm_compute in Hle. exact Hle.
Qed.

Lemma legacy_round_trip_witness :
  "1.2.3.4" ∈ dict_keys (blocked_ips (blocker
    (_load_blocked_ips sample_isoformat (fun _ => 0) sample_legacy).2)).
Proof.
  assert (Hiso : forall i : nat,
            sample_fromisoformat (sample_isoformat ((fun _ => 0) i))
              = Some ((fun _ => 0) i)) by (intros i; reflexivity).
  apply (proj1 (legacy_round_trip sample_isoformat sample_fromisoformat
                  sample_legacy ["1.2.3.4"] 1%Q 2%Q
                  (fun _ => 0) (fun _ => 0) (fun _ => 0) None eq_refl Hiso)).
  left.
Defined.

Lemma sample_mixed_unscored : blocked_unscored sample_mixed.
Proof.
  intros ip [v Hv]. cbn in Hv.
  destruct (decide (ip = "b")) as [->|Hne]; [reflexivity|discriminate].
Qed.

Lemma sample_mixed_safe :
  reloads (CheckExternalChanges (fun _ => 0)) = true ->
  forall f ip, disk sample_mixed = File f ->
    is_Some (to_block (blocker sample_mixed) !! ip) -> omits ip (f_data f).
Proof.
  intros _ f ip [= <-] [q Hq]. cbn in *.
  apply lookup_singleton_Some in Hq as [<- _].
  intros Hin. apply list_elem_of_singleton in Hin. discriminate.
Qed.

Lemma operations_keep_blocked_unscored_witness :
  (is_Some (dict_get "b" (blocked_ips (blocker sample_mixed))) /\
   to_block (blocker sample_mixed) !! sample_ip = Some (1 # 2)%Q) /\
  blocked_unscored
    (run_op sample_isoformat sample_fromisoformat
       (CheckExternalChanges (fun _ => 0)) sample_mixed).
Proof.
  split; [split; [eexists|]; reflexivity|].
  exact (operations_keep_blocked_unscored sample_isoformat
           sample_fromisoformat (CheckExternalChanges (fun _ => 0))
           sample_mixed sample_mixed_unscored sample_mixed_safe).
Defined.

(** C10, as stated, fails on the reload: an address with a failure count
    that someone else has written to the file is blocked after the check
    and keeps its count. *)
Lemma reload_keeps_score_counterexample :
  ~ (forall (isoformat : Z -> string) (fromisoformat : string -> option Z)
       (o : op) (s : sys),
       blocked_unscored s ->
       blocked_unscored (run_op isoformat fromisoformat o s)).
Proof.
  intros H.
  assert (Hinv : blocked_unscored sample_scored).
  { intros ip [v Hv]. discriminate. }
  specialize (H sample_isoformat sample_fromisoformat
                (CheckExternalChanges (fun _ => 0)) sample_scored Hinv
                sample_ip).
  assert (Hb : is_Some (dict_get sample_ip (blocked_ips (blocker
                 (run_op sample_isoformat sample_fromisoformat
                    (CheckExternalChanges (fun _ => 0)) sample_scored))))).
  { vm_compute. eauto. }
  specialize (H Hb). vm_compute in H. discriminate.
Qed.

Lemma sample_pair_done :
  all_done (run_schedule sample_isoformat sample_ip sample_pair
              sample_schedule (initial sample_pair sample_low)).
Proof. unfold all_done. vm_compute. repeat constructor. Qed.

Lemma simultaneous_attempts_block_once_witness :
  let c := run_schedule sample_isoformat sample_ip sample_pair
             sample_schedule (initial sample_pair sample_low) in
  exists i a s1,
    sample_pair !! i = Some a /\
    blockers c = [i] /\ savers c = [i] /\
    pcs c !! i = Some (Done (Ret true)) /\
    lock c = None /\
    same_but_attempts sample_low s1 /\
    shared c = saved (at_io a) (entered sample_isoformat sample_ip (at_now a) s1).
Proof.
  refine (proj1 (simultaneous_attempts_block_once sample_isoformat sample_ip
                   sample_pair sample_low 2%Q sample_schedule eq_refl _ _ _)
            sample_pair_done).
  - discriminate.
  - vm_compute. discriminate.
  - unfold one_window, sample_pair, CONNECTION_TIMEOUT. cbn [map at_time].
    repeat (constructor; [split; vm_compute; [reflexivity|discriminate]|]).
    constructor.
Defined.

Lemma sample_edge_pair_done :
  all_done (run_schedule sample_isoformat sample_ip sample_edge_pair
              sample_serial_schedule (initial sample_edge_pair sample_low)).
Proof. unfold all_done. vm_compute. repeat constructor. Qed.

(** C3, as stated, fails for a window that includes its lower end: two
    threads, a threshold of two, clocks that read second 0 and second 30.
    When the thread of second 0 takes the lock first, the other one drops
    that attempt and counts its own only: both calls return and no thread
    enters the address in the block record. *)
Lemma simultaneous_closed_window_counterexample :
  ~ (forall (isoformat : Z -> string) (ip : string) (calls : list attempt)
       (s0 : sys) (window_end : Q) (sched : list nat),
       dict_mem ip (blocked_ips (blocker s0)) = false ->
       block_threshold (blocker s0) = Z.of_nat (length calls) ->
       closed_window window_end (map at_time calls) ->
       all_done (run_schedule isoformat ip calls sched (initial calls s0)) ->
       exists i,
         blockers (run_schedule isoformat ip calls sched (initial calls s0))
           = [i]).
Proof.
  intros H.
  assert (Hwin : closed_window 30 (map at_time sample_edge_pair)).
  { unfold closed_window, sample_edge_pair, CONNECTION_TIMEOUT.
    cbn [map at_time].
    repeat (constructor; [split; vm_compute; discriminate|]).
    constructor. }
  destruct (H sample_isoformat sample_ip sample_edge_pair sample_low 30%Q
              sample_serial_schedule eq_refl eq_refl Hwin
              sample_edge_pair_done) as [i Hi].
  vm_compute in Hi. discriminate.
Qed.

(** * Further properties of the engine *)

(** ** Pruning of the attempt windows *)

Lemma prune_ips_run cutoff ips :
  forall s,
  prune_ips cutoff ips s =
    (Ret (),
     mkSys (mkIPBlocker (blocked_ips (blocker s)) (to_block (blocker s))
              (prune_map cutoff ips (connection_attempts (blocker s)))
              (block_threshold (blocker s)) (_last_save_state (blocker s))
              (_last_file_mtime (blocker s)))
           (disk s)).
Proof.
  induction ips as [|ip rest IH]; intros s.
  - destruct s as [[d tb ca th lss lfm] dk]. reflexivity.
  - destruct s as [[d tb ca th lss lfm] dk].
    cbn [prune_ips prune_map]. run_monad.
    destruct (ca !! ip) as [l|] eqn:E; run_lookups;
      cbn [default from_option id];
      [destruct (recent cutoff l) as [|t l'] eqn:El
      |cbn [recent List.filter]];
      run_lookups; rewrite IH; cbn [blocker connection_attempts];
      rewrite ?delete_insert_eq; reflexivity.
Qed.

Lemma prune_map_lookup cutoff ips :
  NoDup ips ->
  forall (m : gmap string (list Q)) ip,
  prune_map cutoff ips m !! ip =
    if decide (ip ∈ ips) then pruned cutoff (m !! ip) else m !! ip.
Proof.
  induction 1 as [|i rest Hi Hnd IH]; intros m ip; cbn [prune_map].
  - rewrite decide_False by apply not_elem_of_nil. reflexivity.
  - rewrite IH. destruct (decide (ip = i)) as [->|Hne].
    + rewrite decide_False by exact Hi.
      rewrite decide_True by (left; reflexivity).
      unfold pruned. destruct (m !! i) as [l|] eqn:E;
        cbn [default from_option id].
      * destruct (recent cutoff l);
          [apply lookup_delete_eq|apply lookup_insert_eq].
      * cbn. apply lookup_delete_eq.
    + assert (Hm : (match recent cutoff (default [] (m !! i)) with
                    | [] => delete i m
                    | l => <[i := l]> m
                    end) !! ip = m !! ip).
      { destruct (recent cutoff (default [] (m !! i)));
          [apply lookup_delete_ne|apply lookup_insert_ne]; congruence. }
      rewrite Hm. destruct (decide (ip ∈ rest)) as [Hr|Hr].
      * rewrite decide_True by (right; exact Hr). reflexivity.
      * rewrite decide_False; [reflexivity|].
        intros [?|?]%elem_of_cons; contradiction.
Qed.

Lemma cleanup_old_spec (current_time : Q) (s : sys) :
  let r := _cleanup_old_connections current_time s in
  r.1 = Ret () /\
  same_but_attempts s r.2 /\
  forall ip,
    connection_attempts (blocker r.2) !! ip =
      pruned (current_time - CONNECTION_TIMEOUT)%Q
        (connection_attempts (blocker s) !! ip).
Proof.
  unfold _cleanup_old_connections.
  cbv beta iota zeta delta [mbind M_bind read].
  rewrite prune_ips_run. cbn [fst snd blocker connection_attempts].
  split; [reflexivity|]. split; [repeat split|].
  intros ip. rewrite prune_map_lookup by apply NoDup_fst_map_to_list.
  destruct (decide _) as [Hin|Hnin]; [reflexivity|].
  destruct (connection_attempts (blocker s) !! ip) as [l|] eqn:E;
    [|reflexivity].
  exfalso. apply Hnin. apply list_elem_of_fmap.
  exists (ip, l). split; [reflexivity|]. apply elem_of_map_to_list. exact E.
Qed.

(** X4.  [_cleanup_old_connections] returns normally; it replaces every
    stored window by its timestamps strictly later than
    [current_time - CONNECTION_TIMEOUT], removes the addresses whose window
    becomes empty, and touches nothing else. *)
Theorem cleanup_old_connections_prunes (current_time : Q) (s : sys) :
  let r := _cleanup_old_connections current_time s in
  r.1 = Ret () /\
  same_but_attempts s r.2 /\
  forall ip,
    connection_attempts (blocker r.2) !! ip =
      pruned (current_time - CONNECTION_TIMEOUT)%Q
        (connection_attempts (blocker s) !! ip).
Proof. exact (cleanup_old_spec current_time s). Qed.

(** ** Expiry of blocks *)

Section ExpiryFacts.
Variable isoformat : Z -> string.
Variable fromisoformat : string -> option Z.

Lemma expired_ips_elem now (d : pydict) ip :
  ip ∈ expired_ips fromisoformat now d <->
  exists v, (ip, v) ∈ d /\ stale fromisoformat now v = true.
Proof.
  induction d as [|[k v] d IH]; cbn [expired_ips].
  - split; [intros H; inversion H|intros (v & H & _); inversion H].
  - assert (Hcons : forall l : list string,
              (ip ∈ l <-> exists v0, (ip, v0) ∈ d
                 /\ stale fromisoformat now v0 = true) ->
              ip ∈ (if stale fromisoformat now v then k :: l else l) <->
              exists v0, (ip, v0) ∈ (k, v) :: d
                 /\ stale fromisoformat now v0 = true).
    { intros l Hl. destruct (stale fromisoformat now v) eqn:Es.
      - rewrite elem_of_cons, Hl. split.
        + intros [->|(v0 & Hin & Hs)]; [exists v|exists v0];
            (split; [|auto]); [left|right; exact Hin].
        + intros (v0 & [[= -> ->]|Hin]%elem_of_cons & Hs); eauto.
      - rewrite Hl. split.
        + intros (v0 & Hin & Hs). exists v0. split; [right; exact Hin|auto].
        + intros (v0 & [[= -> ->]|Hin]%elem_of_cons & Hs); [congruence|eauto]. }
    destruct v as [str|c]; cbn [stale] in *.
    + destruct (fromisoformat str) as [bt|].
      * destruct (decide (now - bt > BLOCK_RESET_INTERVAL)) as [Hgt|Hle].
        -- rewrite bool_decide_eq_true_2 in Hcons by exact Hgt.
           apply (Hcons (expired_ips fromisoformat now d) IH).
        -- rewrite bool_decide_eq_false_2 in Hcons by exact Hle.
           apply (Hcons (expired_ips fromisoformat now d) IH).
      * apply (Hcons (expired_ips fromisoformat now d) IH).
    + apply (Hcons (expired_ips fromisoformat now d) IH).
Qed.

Lemma expired_ips_stale now (d : pydict) ip :
  NoDup (dict_keys d) ->
  ip ∈ expired_ips fromisoformat now d <->
  stale_entry fromisoformat now d ip = true.
Proof.
  intros Hnd. rewrite expired_ips_elem. unfold stale_entry. split.
  - intros (v & Hin & Hs). apply dict_get_elem in Hin; [|exact Hnd].
    rewrite Hin. exact Hs.
  - destruct (dict_get ip d) as [v|] eqn:E; [|discriminate].
    intros Hs. exists v. split; [|exact Hs]. apply dict_get_elem; auto.
Qed.

Lemma expired_ips_NoDup now (d : pydict) :
  NoDup (dict_keys d) -> NoDup (expired_ips fromisoformat now d).
Proof.
  induction d as [|[k v] d IH]; cbn [expired_ips dict_keys map fst];
    intros Hnd; [constructor|].
  apply NoDup_cons in Hnd as [Hk Hnd].
  assert (Hfresh : k ∉ expired_ips fromisoformat now d).
  { intros Hin. apply expired_ips_elem in Hin as (v0 & Hin & _).
    apply Hk. apply list_elem_of_fmap. exists (k, v0). auto. }
  assert (Hc : NoDup (k :: expired_ips fromisoformat now d))
    by (constructor; auto).
  specialize (IH Hnd).
  destruct v as [str|c]; [|exact Hc].
  destruct (fromisoformat str); [|exact Hc].
  destruct (decide _); [exact Hc|exact IH].
Qed.

Lemma dict_mem_del_ne k k' d :
  k <> k' -> dict_mem k' (dict_del k d) = dict_mem k' d.
Proof. intros H. unfold dict_mem. rewrite dict_get_del_ne by exact H. reflexivity. Qed.

Lemma unblock_all_run ips :
  NoDup ips ->
  forall s,
  (forall ip, ip ∈ ips -> dict_mem ip (blocked_ips (blocker s)) = true) ->
  exists s',
    unblock_all ips s = (Ret (), s') /\
    (forall ip, dict_get ip (blocked_ips (blocker s')) =
       if decide (ip ∈ ips) then None
       else dict_get ip (blocked_ips (blocker s))) /\
    (forall ip, to_block (blocker s') !! ip =
       if decide (ip ∈ ips) then None else to_block (blocker s) !! ip) /\
    (forall ip, connection_attempts (blocker s') !! ip =
       if decide (ip ∈ ips) then None
       else connection_attempts (blocker s) !! ip) /\
    (NoDup (dict_keys (blocked_ips (blocker s))) ->
     NoDup (dict_keys (blocked_ips (blocker s')))) /\
    block_threshold (blocker s') = block_threshold (blocker s) /\
    _last_save_state (blocker s') = _last_save_state (blocker s) /\
    _last_file_mtime (blocker s') = _last_file_mtime (blocker s) /\
    disk s' = disk s.
Proof.
  induction 1 as [|i rest Hi Hnd IH]; intros s Hpresent.
  - exists s. split; [reflexivity|].
    repeat split; auto; intros ip;
      rewrite decide_False by apply not_elem_of_nil; reflexivity.
  - destruct s as [[d tb ca th lss lfm] dk].
    cbn [blocker blocked_ips] in Hpresent.
    cbn [unblock_all]. run_monad.
    rewrite (Hpresent i) by (left; reflexivity). run_monad.
    destruct (IH (mkSys (mkIPBlocker (dict_del i d) (delete i tb)
                           (delete i ca) th lss lfm) dk))
      as (s' & Hrun & Hb & Ht & Hc & Hn & Hth & Hls & Hlf & Hdk).
    { intros ip Hip. cbn. rewrite dict_mem_del_ne.
      - apply Hpresent. right. exact Hip.
      - intros ->. contradiction. }
    exists s'. split; [exact Hrun|]. cbn in *.
    split; [|split; [|split; [|split]]].
    + intros ip. rewrite Hb.
      destruct (decide (ip ∈ i :: rest)) as [Hin|Hnin];
        destruct (decide (ip ∈ rest)) as [Hr|Hr]; try reflexivity.
      * apply elem_of_cons in Hin as [->|?]; [|contradiction].
        apply dict_get_del_eq.
      * exfalso. apply Hnin. right. exact Hr.
      * apply dict_get_del_ne. intros ->. apply Hnin. left.
    + intros ip. rewrite Ht.
      destruct (decide (ip ∈ i :: rest)) as [Hin|Hnin];
        destruct (decide (ip ∈ rest)) as [Hr|Hr]; try reflexivity.
      * apply elem_of_cons in Hin as [->|?]; [|contradiction].
        apply lookup_delete_eq.
      * exfalso. apply Hnin. right. exact Hr.
      * apply lookup_delete_ne. intros ->. apply Hnin. left.
    + intros ip. rewrite Hc.
      destruct (decide (ip ∈ i :: rest)) as [Hin|Hnin];
        destruct (decide (ip ∈ rest)) as [Hr|Hr]; try reflexivity.
      * apply elem_of_cons in Hin as [->|?]; [|contradiction].
        apply lookup_delete_eq.
      * exfalso. apply Hnin. right. exact Hr.
      * apply lookup_delete_ne. intros ->. apply Hnin. left.
    + intros Hd. apply Hn. apply NoDup_dict_del. exact Hd.
    + auto.
Qed.

Lemma cleanup_expired_spec (now : Z) (io : option Q) (s : sys) :
  NoDup (dict_keys (blocked_ips (blocker s))) ->
  let r := _cleanup_expired_blocks fromisoformat now io s in
  let gone := stale_entry fromisoformat now (blocked_ips (blocker s)) in
  r.1 = Ret () /\
  (forall ip, dict_get ip (blocked_ips (blocker r.2)) =
     if gone ip then None else dict_get ip (blocked_ips (blocker s))) /\
  (forall ip, to_block (blocker r.2) !! ip =
     if gone ip then None else to_block (blocker s) !! ip) /\
  (forall ip, connection_attempts (blocker r.2) !! ip =
     if gone ip then None else connection_attempts (blocker s) !! ip) /\
  NoDup (dict_keys (blocked_ips (blocker r.2))).
Proof.
  intros Hnd r gone. subst r.
  pose proof (expired_ips_stale now (blocked_ips (blocker s))) as Hst.
  pose proof (expired_ips_NoDup now _ Hnd) as Hnd'.
  unfold _cleanup_expired_blocks.
  cbv beta iota zeta delta [mbind M_bind mret M_ret read].
  destruct (expired_ips fromisoformat now (blocked_ips (blocker s)))
    as [|i rest] eqn:Ee.
  - cbn [fst snd]. split; [reflexivity|].
    assert (Hnone : forall ip, gone ip = false).
    { intros ip. destruct (gone ip) eqn:Eg; [|reflexivity].
      apply Hst in Eg; [|exact Hnd]. inversion Eg. }
    repeat split; auto; intros ip; rewrite Hnone; reflexivity.
  - destruct (unblock_all_run (i :: rest) Hnd' s)
      as (s' & Hrun & Hb & Ht & Hc & Hn & _).
    { intros ip Hip. apply Hst in Hip; [|exact Hnd].
      unfold stale_entry in Hip. apply dict_mem_get.
      destruct (dict_get ip (blocked_ips (blocker s))); [eauto|discriminate]. }
    rewrite Hrun. rewrite save_run. cbn [fst snd].
    rewrite saved_blocked_ips, saved_to_block, saved_connection_attempts.
    assert (Hdec : forall ip,
              (if decide (ip ∈ i :: rest) then true else false) = gone ip).
    { intros ip. destruct (decide _) as [Hin|Hnin].
      - symmetry. apply Hst; auto.
      - destruct (gone ip) eqn:Eg; [|reflexivity].
        exfalso. apply Hnin. apply Hst; auto. }
    split; [reflexivity|].
    split; [|split; [|split]].
    + intros ip. rewrite Hb, <- Hdec. destruct (decide _); reflexivity.
    + intros ip. rewrite Ht, <- Hdec. destruct (decide _); reflexivity.
    + intros ip. rewrite Hc, <- Hdec. destruct (decide _); reflexivity.
    + auto.
Qed.

(** X3.  On a block record that lists no address twice,
    [_cleanup_expired_blocks] returns normally; it removes exactly the
    addresses whose stored value is older than the reset interval or is not
    a timestamp, together with their failure counts and attempt windows,
    and leaves every other address with its value, count and window. *)
Theorem cleanup_expired_blocks_removes_stale (now : Z) (io : option Q)
    (s : sys) :
  NoDup (dict_keys (blocked_ips (blocker s))) ->
  let r := _cleanup_expired_blocks fromisoformat now io s in
  let gone := stale_entry fromisoformat now (blocked_ips (blocker s)) in
  r.1 = Ret () /\
  (forall ip, dict_get ip (blocked_ips (blocker r.2)) =
     if gone ip then None else dict_get ip (blocked_ips (blocker s))) /\
  (forall ip, to_block (blocker r.2) !! ip =
     if gone ip then None else to_block (blocker s) !! ip) /\
  (forall ip, connection_attempts (blocker r.2) !! ip =
     if gone ip then None else connection_attempts (blocker s) !! ip) /\
  NoDup (dict_keys (blocked_ips (blocker r.2))).
Proof. exact (cleanup_expired_spec now io s). Qed.

Lemma fold_dict_set_NoDup (pairs acc : pydict) :
  NoDup (dict_keys acc) ->
  NoDup (dict_keys (fold_left (fun d kv => dict_set kv.1 kv.2 d) pairs acc)).
Proof.
  revert acc. induction pairs as [|[k v] rest IH]; intros acc H; [exact H|].
  cbn [fold_left]. apply IH. apply NoDup_dict_set. exact H.
Qed.

Lemma load_legacy_NoDup nows items :
  forall i s,
  NoDup (dict_keys (blocked_ips (blocker s))) ->
  NoDup (dict_keys (blocked_ips (blocker
           (load_legacy isoformat nows i items s).2))).
Proof.
  induction items as [|[ip|] rest IH]; intros i s H; try exact H.
  destruct s as [[d tb ca th lss lfm] dk].
  cbn [load_legacy]. run_monad. apply IH. cbn. apply NoDup_dict_set. exact H.
Qed.

Lemma load_NoDup nows s :
  NoDup (dict_keys (blocked_ips (blocker s))) ->
  NoDup (dict_keys (blocked_ips (blocker
           (_load_blocked_ips isoformat nows s).2))).
Proof.
  intros H. destruct (disk s) as [|f|] eqn:E.
  - rewrite load_absent by exact E. exact H.
  - rewrite (load_present isoformat nows s f E).
    assert (Hb : NoDup (dict_keys (blocked_ips (blocker
                   (load_body isoformat nows f s).2)))).
    { destruct s as [[d tb ca th lss lfm] dk].
      unfold load_body. run_monad.
      destruct (f_data f) as [|pairs|items|cs|]; run_monad;
        cbn [snd blocker blocked_ips]; try exact H; try constructor.
      - apply fold_dict_set_NoDup. constructor.
      - apply load_legacy_NoDup. constructor.
      - apply load_legacy_NoDup. constructor. }
    destruct (load_body isoformat nows f s) as [[[]|e] s'];
      [exact Hb|constructor].
  - rewrite load_no_access by exact E. exact H.
Qed.

Lemma check_NoDup nows s :
  disk s <> NoAccess ->
  NoDup (dict_keys (blocked_ips (blocker s))) ->
  (_check_external_changes isoformat nows s).1 = Ret () /\
  NoDup (dict_keys (blocked_ips (blocker
           (_check_external_changes isoformat nows s).2))).
Proof.
  intros Hacc H. destruct (disk s) as [|f|] eqn:E.
  - rewrite check_absent by exact E. split; [reflexivity|].
    cbn [snd]. destruct (blocked_ips (blocker s)) eqn:Ed.
    + rewrite Ed. constructor.
    + constructor.
  - rewrite (check_present isoformat nows s f E).
    destruct (Qgtb _ _); [|split; [reflexivity|exact H]].
    split; [apply load_returns; congruence|apply load_NoDup; exact H].
  - congruence.
Qed.

Lemma cleanup_tick_no_access nows now io t s :
  disk s = NoAccess ->
  cleanup_tick isoformat fromisoformat nows now io t s = (Ret (), s).
Proof.
  intros E. unfold cleanup_tick. rewrite try_except_all.
  cbv beta iota zeta delta [mbind M_bind mret M_ret].
  rewrite check_no_access by exact E. reflexivity.
Qed.

Lemma cleanup_tick_after_check nows now io t s :
  (_check_external_changes isoformat nows s).1 = Ret () ->
  NoDup (dict_keys (blocked_ips (blocker
           (_check_external_changes isoformat nows s).2))) ->
  let r := cleanup_tick isoformat fromisoformat nows now io t s in
  let checked := blocked_ips (blocker
                   (_check_external_changes isoformat nows s).2) in
  r.1 = Ret () /\
  NoDup (dict_keys (blocked_ips (blocker r.2))) /\
  forall ip,
    dict_get ip (blocked_ips (blocker r.2)) =
      if stale_entry fromisoformat now checked ip then None
      else dict_get ip checked.
Proof.
  intros Hret1 Hnd1. unfold cleanup_tick. rewrite try_except_all.
  cbv beta iota zeta delta [mbind M_bind mret M_ret].
  destruct (_check_external_changes isoformat nows s) as [r1 s1].
  cbn [fst snd] in Hret1, Hnd1 |- *. subst r1.
  destruct (cleanup_expired_spec now io s1 Hnd1)
    as (Hret2 & Hb & _ & _ & Hnd2).
  destruct (_cleanup_expired_blocks fromisoformat now io s1) as [r2 s2].
  cbn [fst snd] in Hret2, Hb, Hnd2. subst r2.
  destruct (cleanup_old_spec t s2) as (Hret3 & Hsame & _).
  destruct (_cleanup_old_connections t s2) as [r3 s3].
  cbn [fst snd] in Hret3, Hsame. subst r3.
  destruct Hsame as (Hbl & _). cbn [fst snd]. rewrite Hbl.
  split; [reflexivity|]. split; [exact Hnd2|exact Hb].
Qed.

Lemma cleanup_tick_spec nows now io t s :
  disk s <> NoAccess ->
  NoDup (dict_keys (blocked_ips (blocker s))) ->
  let r := cleanup_tick isoformat fromisoformat nows now io t s in
  r.1 = Ret () /\
  NoDup (dict_keys (blocked_ips (blocker r.2))) /\
  forall ip v,
    dict_get ip (blocked_ips (blocker r.2)) = Some v ->
    stale fromisoformat now v = false.
Proof.
  intros Hacc Hnd.
  destruct (check_NoDup nows s Hacc Hnd) as [Hret1 Hnd1].
  destruct (cleanup_tick_after_check nows now io t s Hret1 Hnd1)
    as (Hret & Hnd' & Hb).
  split; [exact Hret|]. split; [exact Hnd'|].
  intros ip v Hv. rewrite Hb in Hv. unfold stale_entry in Hv.
  destruct (dict_get ip (blocked_ips (blocker
              (_check_external_changes isoformat nows s).2))) as [v1|] eqn:E1.
  - destruct (stale fromisoformat now v1) eqn:Es; [discriminate|].
    congruence.
  - discriminate.
Qed.

(** X14.  One turn of the cleanup loop (reconciliation with the file,
    expiry of blocks, pruning of windows) returns normally.  When
    [BLOCKLIST_FILE.exists()] raises, the turn ends there and changes
    nothing: no block is expired.  Otherwise, on a record that lists no
    address twice, every address still in the block record after the turn
    has a timestamp that parses and is no older than the reset interval at
    the clock the turn read. *)
Theorem cleanup_tick_leaves_live_blocks (nows : nat -> Z) (now : Z)
    (io : option Q) (t : Q) (s : sys) :
  NoDup (dict_keys (blocked_ips (blocker s))) ->
  let r := cleanup_tick isoformat fromisoformat nows now io t s in
  r.1 = Ret () /\
  (disk s = NoAccess -> r.2 = s) /\
  (disk s <> NoAccess ->
   NoDup (dict_keys (blocked_ips (blocker r.2))) /\
   forall ip v,
     dict_get ip (blocked_ips (blocker r.2)) = Some v ->
     exists str block_time,
       v = PStr str /\ fromisoformat str = Some block_time /\
       now - block_time <= BLOCK_RESET_INTERVAL).
Proof.
  intros Hnd r. subst r.
  split; [apply cleanup_tick_shrinks|].
  split; [intros E; rewrite cleanup_tick_no_access by exact E; reflexivity|].
  intros Hacc.
  destruct (cleanup_tick_spec nows now io t s Hacc Hnd)
    as (Hret & Hnd' & Hlive).
  split; [exact Hnd'|].
  intros ip v Hv. specialize (Hlive ip v Hv).
  destruct v as [str|c]; [|discriminate].
  cbn [stale] in Hlive.
  destruct (fromisoformat str) as [bt|] eqn:Ep; [|discriminate].
  exists str, bt. split; [reflexivity|]. split; [exact Ep|].
  apply bool_decide_eq_false in Hlive. lia.
Qed.

End ExpiryFacts.

(** ** Reconciliation with the file *)

Section ReconcileFacts.
Variable isoformat : Z -> string.
Variable fromisoformat : string -> option Z.

Lemma legacy_addrs_some items :
  forall ips, legacy_addrs items = Some ips -> items = map LAddr ips.
Proof.
  induction items as [|[ip|] rest IH]; intros ips H; cbn [legacy_addrs] in H.
  - injection H as <-. reflexivity.
  - destruct (legacy_addrs rest) as [ips'|]; [|discriminate].
    injection H as <-. cbn [map]. f_equal. apply IH. reflexivity.
  - discriminate.
Qed.

Lemma legacy_addrs_none items :
  legacy_addrs items = None -> LUnhashable ∈ items.
Proof.
  induction items as [|[ip|] rest IH]; cbn [legacy_addrs]; intros H.
  - discriminate.
  - right. apply IH. destruct (legacy_addrs rest); [discriminate|reflexivity].
  - left.
Qed.

Lemma load_legacy_shape nows items :
  forall i s, exists d',
    (load_legacy isoformat nows i items s).2 =
      mkSys (mkIPBlocker d' (to_block (blocker s))
               (connection_attempts (blocker s)) (block_threshold (blocker s))
               (_last_save_state (blocker s)) (_last_file_mtime (blocker s)))
            (disk s).
Proof.
  induction items as [|[ip|] rest IH]; intros i s;
    destruct s as [[d tb ca th lss lfm] dk];
    try (exists d; reflexivity).
  cbn [load_legacy]. run_monad.
  match goal with
  | |- context [load_legacy _ _ _ _ ?s1] => destruct (IH (S i) s1) as [d' Hd]
  end.
  exists d'. exact Hd.
Qed.

Lemma load_record nows s f :
  disk s = File f ->
  _load_blocked_ips isoformat nows s =
    (Ret (),
     mkSys (mkIPBlocker (loaded_record isoformat nows (f_data f))
              (to_block (blocker s)) (connection_attempts (blocker s))
              (block_threshold (blocker s)) (_last_save_state (blocker s))
              (f_mtime f))
           (disk s)).
Proof.
  intros E. rewrite (load_present isoformat nows s f E).
  destruct s as [[d tb ca th lss lfm] dk].
  unfold load_body, loaded_record. run_monad.
  destruct (f_data f) as [|pairs|items|cs|]; run_monad; try reflexivity.
  - destruct (legacy_addrs items) as [ips|] eqn:Ea.
    + rewrite (legacy_addrs_some items ips Ea), load_legacy_addrs.
      reflexivity.
    + match goal with
      | |- context [load_legacy _ _ _ _ ?s1] =>
          pose proof (load_legacy_unhashable isoformat nows items
                        (legacy_addrs_none items Ea) 0%nat s1) as Hr;
          destruct (load_legacy_shape nows items 0%nat s1) as [d' Hd];
          destruct (load_legacy isoformat nows 0 items s1) as [r s']
      end.
      cbn [fst snd] in Hr, Hd. subst r s'. reflexivity.
  - rewrite load_legacy_addrs. reflexivity.
Qed.

Lemma loaded_record_NoDup nows data :
  NoDup (dict_keys (loaded_record isoformat nows data)).
Proof.
  destruct data as [|pairs|items|cs|]; cbn [loaded_record];
    try constructor.
  - apply fold_dict_set_NoDup. constructor.
  - destruct (legacy_addrs items); [|constructor].
    apply legacy_record_NoDup. constructor.
  - apply legacy_record_NoDup. constructor.
Qed.

Lemma loaded_record_omits nows data ip :
  omits ip data -> dict_get ip (loaded_record isoformat nows data) = None.
Proof.
  destruct data as [|pairs|items|cs|]; cbn [loaded_record omits];
    intros Hom; try reflexivity.
  - apply dict_of_pairs_omits, Hom.
  - destruct (legacy_addrs items) as [ips|] eqn:Ea; [|reflexivity].
    rewrite legacy_record_other; [reflexivity|].
    intros Hin. apply Hom. rewrite (legacy_addrs_some items ips Ea).
    apply list_elem_of_fmap. exists ip. split; [reflexivity|exact Hin].
  - rewrite legacy_record_other; [reflexivity|exact Hom].
Qed.

(** C6 (as amended).  When the file is gone, [_check_external_changes]
    empties the block record and leaves the failure counts and the attempt
    windows as they are; no address is blocked any more, and the record is
    still empty after the whole cleanup pass.  When the file's modification
    time is later than the one this process last saw, the check replaces
    the record by the one the file gives and takes over the file's
    modification time, touching nothing else; the cleanup pass returns
    normally and leaves of that record the entries that have not run out;
    so an address the file does not list is in the record neither after the
    check nor after the pass. *)
Theorem external_change_reconciled (s : sys) (nows : nat -> Z) (now : Z)
    (io : option Q) (t : Q) :
  (disk s = NoFile ->
   let r := _check_external_changes isoformat nows s in
   r.1 = Ret () /\ blocked_ips (blocker r.2) = [] /\
   to_block (blocker r.2) = to_block (blocker s) /\
   connection_attempts (blocker r.2) = connection_attempts (blocker s) /\
   (forall ip now' io',
      is_ip_blocked fromisoformat now' io' ip r.2 = (Ret false, r.2)) /\
   forall ip,
     dict_get ip (blocked_ips (blocker
       (cleanup_tick isoformat fromisoformat nows now io t s).2)) = None) /\
  (forall f,
   disk s = File f ->
   (_last_file_mtime (blocker s) < f_mtime f)%Q ->
   let record := loaded_record isoformat nows (f_data f) in
   let r := cleanup_tick isoformat fromisoformat nows now io t s in
   _check_external_changes isoformat nows s =
     (Ret (),
      mkSys (mkIPBlocker record (to_block (blocker s))
               (connection_attempts (blocker s)) (block_threshold (blocker s))
               (_last_save_state (blocker s)) (f_mtime f))
            (disk s)) /\
   r.1 = Ret () /\
   (forall ip,
      dict_get ip (blocked_ips (blocker r.2)) =
        if stale_entry fromisoformat now record ip then None
        else dict_get ip record) /\
   (forall ip, omits ip (f_data f) ->
      dict_get ip record = None /\
      dict_get ip (blocked_ips (blocker r.2)) = None)).
Proof.
  split.
  - intros Hnone. cbn zeta.
    pose proof (cleanup_tick_shrinks isoformat fromisoformat nows now io t s)
      as [_ [Hshr _]].
    rewrite check_absent in * by exact Hnone. cbn [fst snd] in *.
    assert (Hempty : blocked_ips (blocker
              match blocked_ips (blocker s) with
              | [] => s
              | _ :: _ =>
                  mkSys (mkIPBlocker [] (to_block (blocker s))
                           (connection_attempts (blocker s))
                           (block_threshold (blocker s))
                           (_last_save_state (blocker s)) 0%Q)
                        (disk s)
              end) = []).
    { destruct (blocked_ips (blocker s)) eqn:E; [exact E|reflexivity]. }
    split; [reflexivity|]. split; [exact Hempty|].
    split; [destruct (blocked_ips (blocker s)); reflexivity|].
    split; [destruct (blocked_ips (blocker s)); reflexivity|].
    split.
    + intros ip now' io'. apply is_ip_blocked_absent. rewrite Hempty.
      reflexivity.
    + intros ip. apply Hshr. rewrite Hempty. reflexivity.
  - intros f Hdisk Hnewer. cbn zeta.
    assert (Hcheck : _check_external_changes isoformat nows s =
              (Ret (),
               mkSys (mkIPBlocker (loaded_record isoformat nows (f_data f))
                        (to_block (blocker s))
                        (connection_attempts (blocker s))
                        (block_threshold (blocker s))
                        (_last_save_state (blocker s)) (f_mtime f))
                     (disk s))).
    { rewrite (check_present isoformat nows s f Hdisk).
      apply Qgtb_spec in Hnewer. rewrite Hnewer.
      apply load_record, Hdisk. }
    destruct (cleanup_tick_after_check isoformat fromisoformat nows now io t s)
      as (Hret & _ & Hb).
    { rewrite Hcheck. reflexivity. }
    { rewrite Hcheck. apply loaded_record_NoDup. }
    rewrite Hcheck in Hb. cbn [snd blocker blocked_ips] in Hb.
    split; [exact Hcheck|]. split; [exact Hret|]. split; [exact Hb|].
    intros ip Hom.
    pose proof (loaded_record_omits nows (f_data f) ip Hom) as Hnone.
    split; [exact Hnone|]. rewrite Hb, Hnone.
    destruct (stale_entry _ _ _ _); reflexivity.
Qed.

End ReconcileFacts.

(** ** Bounds on what is stored *)

Section BoundFacts.
Variable isoformat : Z -> string.
Variable fromisoformat : string -> option Z.

Lemma counts_narrow_refl s : counts_narrow s s.
Proof. repeat split; auto. Qed.

Lemma counts_narrow_trans s1 s2 s3 :
  counts_narrow s1 s2 -> counts_narrow s2 s3 -> counts_narrow s1 s3.
Proof.
  intros (H1 & H2 & H3) (H4 & H5 & H6). repeat split; auto. congruence.
Qed.

Lemma counts_narrow_saved io s : counts_narrow s (saved io s).
Proof.
  unfold counts_narrow.
  rewrite saved_to_block, saved_connection_attempts, saved_block_threshold.
  repeat split; auto.
Qed.

Lemma counts_narrow_delete (s : sys) ip d' lss' lfm' dk' :
  counts_narrow s
    (mkSys (mkIPBlocker d' (delete ip (to_block (blocker s)))
              (delete ip (connection_attempts (blocker s)))
              (block_threshold (blocker s)) lss' lfm') dk').
Proof.
  split; [|split]; cbn; [intros ip' q H|intros ip' l H|reflexivity].
  - apply lookup_delete_Some in H as [_ H]. exact H.
  - apply lookup_delete_Some in H as [_ H]. exact H.
Qed.

Lemma counts_narrow_blocked_only (s : sys) d' lss' lfm' dk' :
  counts_narrow s
    (mkSys (mkIPBlocker d' (to_block (blocker s))
              (connection_attempts (blocker s))
              (block_threshold (blocker s)) lss' lfm') dk').
Proof. repeat split; auto. Qed.

Lemma attempts_bounded_sub s s' :
  (forall ip l, connection_attempts (blocker s') !! ip = Some l ->
                connection_attempts (blocker s) !! ip = Some l) ->
  block_threshold (blocker s') = block_threshold (blocker s) ->
  attempts_bounded s -> attempts_bounded s'.
Proof. intros Hc Hth H ip l Hl. rewrite Hth. apply (H ip). auto. Qed.

Lemma scores_bounded_sub s s' :
  (forall ip q, to_block (blocker s') !! ip = Some q ->
                to_block (blocker s) !! ip = Some q) ->
  block_threshold (blocker s') = block_threshold (blocker s) ->
  scores_bounded s -> scores_bounded s'.
Proof. intros Ht Hth H ip q Hq. rewrite Hth. apply (H ip). auto. Qed.

Lemma attempts_bounded_narrow s s' :
  counts_narrow s s' -> attempts_bounded s -> attempts_bounded s'.
Proof. intros (_ & Hc & Hth). apply attempts_bounded_sub; auto. Qed.

Lemma scores_bounded_narrow s s' :
  counts_narrow s s' -> scores_bounded s -> scores_bounded s'.
Proof. intros (Ht & _ & Hth). apply scores_bounded_sub; auto. Qed.

Lemma unblock_all_counts ips :
  forall s, counts_narrow s (unblock_all ips s).2.
Proof.
  induction ips as [|ip rest IH]; intros s.
  - apply counts_narrow_refl.
  - destruct s as [[d tb ca th lss lfm] dk].
    cbn [unblock_all]. run_monad.
    destruct (dict_mem ip d); [|apply counts_narrow_refl].
    eapply counts_narrow_trans; [|apply IH].
    apply (counts_narrow_delete (mkSys (mkIPBlocker d tb ca th lss lfm) dk)).
Qed.

Lemma cleanup_expired_counts now io s :
  counts_narrow s (_cleanup_expired_blocks fromisoformat now io s).2.
Proof.
  destruct s as [[d tb ca th lss lfm] dk].
  unfold _cleanup_expired_blocks. run_monad.
  destruct (expired_ips fromisoformat now d) as [|ip ips];
    [apply counts_narrow_refl|].
  pose proof (unblock_all_counts (ip :: ips)
                (mkSys (mkIPBlocker d tb ca th lss lfm) dk)) as H.
  destruct (unblock_all (ip :: ips) _) as [[[]|e] s'] eqn:E.
  - rewrite save_run. cbn [snd] in *.
    eapply counts_narrow_trans; [exact H|apply counts_narrow_saved].
  - exact H.
Qed.

Lemma load_legacy_counts nows items :
  forall i s, counts_narrow s (load_legacy isoformat nows i items s).2.
Proof.
  induction items as [|[ip|] rest IH]; intros i s;
    try apply counts_narrow_refl.
  destruct s as [[d tb ca th lss lfm] dk].
  cbn [load_legacy]. run_monad.
  eapply counts_narrow_trans; [|apply IH]. repeat split; auto.
Qed.

Lemma load_counts nows s :
  counts_narrow s (_load_blocked_ips isoformat nows s).2.
Proof.
  destruct (disk s) as [|f|] eqn:E.
  - rewrite load_absent by exact E. apply counts_narrow_refl.
  - rewrite (load_present isoformat nows s f E).
    assert (H : counts_narrow s (load_body isoformat nows f s).2).
    { destruct s as [[d tb ca th lss lfm] dk].
      unfold load_body. run_monad.
      destruct (f_data f) as [|pairs|items|cs|]; run_monad;
        cbn [snd]; try (repeat split; auto; fail);
        (eapply counts_narrow_trans; [|apply load_legacy_counts]);
        repeat split; auto. }
    destruct (load_body isoformat nows f s) as [[[]|e] s']; cbn [snd] in *;
      [exact H|].
    eapply counts_narrow_trans; [exact H|]. repeat split; auto.
  - rewrite load_no_access by exact E. apply counts_narrow_refl.
Qed.

Lemma check_counts nows s :
  counts_narrow s (_check_external_changes isoformat nows s).2.
Proof.
  destruct (disk s) as [|f|] eqn:E.
  - rewrite check_absent by exact E. cbn [snd].
    destruct (blocked_ips (blocker s)); [apply counts_narrow_refl|].
    repeat split; auto.
  - rewrite (check_present isoformat nows s f E).
    destruct (Qgtb _ _); [apply load_counts|apply counts_narrow_refl].
  - rewrite check_no_access by exact E. apply counts_narrow_refl.
Qed.

Lemma is_ip_blocked_counts now io ip s :
  counts_narrow s (is_ip_blocked fromisoformat now io ip s).2.
Proof.
  destruct (dict_get ip (blocked_ips (blocker s))) as [v|] eqn:E.
  - destruct v as [str|c].
    + destruct (fromisoformat str) as [bt|] eqn:Ep.
      * destruct (Z_le_gt_dec (now - bt) BLOCK_RESET_INTERVAL) as [Hle|Hgt].
        -- erewrite is_ip_blocked_live by eauto. apply counts_narrow_refl.
        -- erewrite is_ip_blocked_expired by eauto. cbn [snd].
           eapply counts_narrow_trans; [|apply counts_narrow_saved].
           apply counts_narrow_delete.
      * erewrite is_ip_blocked_invalid by (try exact E; exact Ep).
        apply counts_narrow_blocked_only.
    + erewrite is_ip_blocked_invalid by (try exact E; exact I).
      apply counts_narrow_blocked_only.
  - rewrite is_ip_blocked_absent by exact E. apply counts_narrow_refl.
Qed.

Lemma cleanup_tick_preserves (P : sys -> Prop) nows now io t :
  (forall s, P s -> P (_check_external_changes isoformat nows s).2) ->
  (forall s, P s -> P (_cleanup_expired_blocks fromisoformat now io s).2) ->
  (forall s, P s -> P (_cleanup_old_connections t s).2) ->
  forall s, P s ->
  P (cleanup_tick isoformat fromisoformat nows now io t s).2.
Proof.
  intros H1 H2 H3 s Hs. unfold cleanup_tick. rewrite try_except_all.
  cbv beta iota zeta delta [mbind M_bind mret M_ret].
  specialize (H1 s Hs).
  destruct (_check_external_changes isoformat nows s) as [[[]|e] s1];
    cbn [snd] in *; [|exact H1].
  specialize (H2 s1 H1).
  destruct (_cleanup_expired_blocks fromisoformat now io s1) as [[[]|e] s2];
    cbn [snd] in *; [|exact H2].
  specialize (H3 s2 H2).
  destruct (_cleanup_old_connections t s2) as [[[]|e] s3]; exact H3.
Qed.

Lemma recent_length c l : (length (recent c l) <= length l)%nat.
Proof. unfold recent. apply List.filter_length_le. Qed.

Lemma counted_nonempty t ip s : counted t ip s <> [].
Proof.
  unfold counted. rewrite recent_app. intros H.
  apply app_eq_nil in H as [_ H]. cbn in H.
  assert (Ht : Qgtb t (t - CONNECTION_TIMEOUT) = true).
  { apply Qgtb_spec. unfold CONNECTION_TIMEOUT. lra. }
  rewrite Ht in H. discriminate.
Qed.

Lemma block_counts now io ip s :
  counts_narrow s (block_ip isoformat now io ip s).2.
Proof.
  rewrite block_ip_run. cbn [snd].
  eapply counts_narrow_trans; [|apply counts_narrow_saved].
  apply counts_narrow_delete.
Qed.

Lemma unblock_counts io ip s : counts_narrow s (unblock_ip io ip s).2.
Proof.
  destruct (dict_mem ip (blocked_ips (blocker s))) eqn:E.
  - rewrite unblock_ip_present by exact E. cbn [snd].
    eapply counts_narrow_trans; [|apply counts_narrow_saved].
    apply counts_narrow_delete.
  - rewrite unblock_ip_absent by exact E. apply counts_narrow_refl.
Qed.

Lemma track_attempts_bounded t now io ip s :
  attempts_bounded s ->
  attempts_bounded (track_connection_attempt isoformat t now io ip s).2.
Proof.
  intros H. destruct (dict_mem ip (blocked_ips (blocker s))) eqn:E.
  - rewrite track_blocked by exact E. exact H.
  - destruct (Z_lt_ge_dec (Z.of_nat (length (counted t ip s)))
                (block_threshold (blocker s))) as [Hlt|Hge].
    + rewrite track_below by assumption. intros ip' l. cbn.
      destruct (decide (ip = ip')) as [<-|Hne].
      * rewrite lookup_insert_eq. intros [= <-].
        split; [apply counted_nonempty|exact Hlt].
      * rewrite lookup_insert_ne by exact Hne. apply H.
    + rewrite track_reached by assumption. cbn [snd].
      eapply attempts_bounded_narrow; [|exact H].
      eapply counts_narrow_trans; [|apply counts_narrow_saved].
      apply counts_narrow_delete.
Qed.

Lemma track_scores_bounded t now io ip s :
  scores_bounded s ->
  scores_bounded (track_connection_attempt isoformat t now io ip s).2.
Proof.
  intros H. destruct (dict_mem ip (blocked_ips (blocker s))) eqn:E.
  - rewrite track_blocked by exact E. exact H.
  - destruct (Z_lt_ge_dec (Z.of_nat (length (counted t ip s)))
                (block_threshold (blocker s))) as [Hlt|Hge].
    + rewrite track_below by assumption. exact H.
    + rewrite track_reached by assumption. cbn [snd].
      eapply scores_bounded_narrow; [|exact H].
      eapply counts_narrow_trans; [|apply counts_narrow_saved].
      apply counts_narrow_delete.
Qed.

Lemma increment_counts_attempts now io ip s :
  attempts_bounded s ->
  attempts_bounded (increment_failure_count isoformat now io ip s).2.
Proof.
  intros H. destruct (dict_mem ip (blocked_ips (blocker s))) eqn:E.
  - rewrite increment_blocked by exact E. exact H.
  - destruct (Qlt_le_dec
                (Qred (default 0%Q (to_block (blocker s) !! ip) + 1 / 2))
                (inject_Z (block_threshold (blocker s)))) as [Hlt|Hle].
    + rewrite increment_below by assumption. exact H.
    + rewrite increment_reached by assumption. cbn [snd].
      eapply attempts_bounded_narrow; [|exact H].
      eapply counts_narrow_trans; [|apply counts_narrow_saved].
      apply counts_narrow_delete.
Qed.

Lemma half_more (o : option Q) :
  match o with
  | Some q => (0 < q)%Q /\ exists k : Z, (q == k # 2)%Q
  | None => True
  end ->
  (0 < Qred (default 0%Q o + 1 / 2))%Q /\
  exists k : Z, (Qred (default 0%Q o + 1 / 2) == k # 2)%Q.
Proof.
  intros H. rewrite Qred_correct.
  change (1 / 2)%Q with (1 # 2)%Q.
  destruct o as [q|]; cbn [default from_option id].
  - destruct H as [Hq [k Hk]]. split; [clear Hk; lra|].
    exists (k + 1). rewrite Qred_correct, Hk. unfold Qeq; cbn. lia.
  - split; [reflexivity|]. exists 1. rewrite Qred_correct. reflexivity.
Qed.

Lemma increment_scores_bounded now io ip s :
  scores_bounded s ->
  scores_bounded (increment_failure_count isoformat now io ip s).2.
Proof.
  intros H. destruct (dict_mem ip (blocked_ips (blocker s))) eqn:E.
  - rewrite increment_blocked by exact E. exact H.
  - destruct (Qlt_le_dec
                (Qred (default 0%Q (to_block (blocker s) !! ip) + 1 / 2))
                (inject_Z (block_threshold (blocker s)))) as [Hlt|Hle].
    + rewrite increment_below by assumption. intros ip' q. cbn.
      destruct (decide (ip = ip')) as [<-|Hne].
      * rewrite lookup_insert_eq. intros [= <-].
        destruct (half_more (to_block (blocker s) !! ip)) as [Hp Hk].
        { destruct (to_block (blocker s) !! ip) as [q|] eqn:Eq; [|exact I].
          destruct (H ip q Eq) as [[Hq _] Hk]. split; assumption. }
        split; [split; assumption|exact Hk].
      * rewrite lookup_insert_ne by exact Hne. apply H.
    + rewrite increment_reached by assumption. cbn [snd].
      eapply scores_bounded_narrow; [|exact H].
      eapply counts_narrow_trans; [|apply counts_narrow_saved].
      apply counts_narrow_delete.
Qed.

Lemma cleanup_old_attempts_bounded t s :
  attempts_bounded s ->
  attempts_bounded (_cleanup_old_connections t s).2.
Proof.
  intros H. destruct (cleanup_old_spec t s) as (_ & Hs & Hl).
  destruct Hs as (_ & _ & Hth & _).
  intros ip l. rewrite Hl, Hth. unfold pruned.
  destruct (connection_attempts (blocker s) !! ip) as [l0|] eqn:E;
    [|discriminate].
  pose proof (recent_length (t - CONNECTION_TIMEOUT) l0) as Hlen.
  destruct (H ip l0 E) as [_ Hb].
  destruct (recent (t - CONNECTION_TIMEOUT) l0) as [|x l1]; [discriminate|].
  intros [= <-]. split; [discriminate|lia].
Qed.

Lemma cleanup_old_scores_bounded t s :
  scores_bounded s ->
  scores_bounded (_cleanup_old_connections t s).2.
Proof.
  intros H. destruct (cleanup_old_spec t s) as (_ & Hs & _).
  destruct Hs as (_ & Htb & Hth & _).
  apply (scores_bounded_sub s); [rewrite Htb; auto|exact Hth|exact H].
Qed.

Lemma run_op_attempts_bounded o s :
  attempts_bounded s ->
  attempts_bounded (run_op isoformat fromisoformat o s).
Proof.
  intros H. destruct o; cbn [run_op].
  - eapply attempts_bounded_narrow; [apply load_counts|exact H].
  - rewrite save_run. cbn [snd].
    eapply attempts_bounded_narrow; [apply counts_narrow_saved|exact H].
  - eapply attempts_bounded_narrow; [apply check_counts|exact H].
  - eapply attempts_bounded_narrow; [apply cleanup_expired_counts|exact H].
  - apply cleanup_old_attempts_bounded, H.
  - apply cleanup_tick_preserves; [| | |exact H].
    + intros s0. apply attempts_bounded_narrow, check_counts.
    + intros s0. apply attempts_bounded_narrow, cleanup_expired_counts.
    + intros s0. apply cleanup_old_attempts_bounded.
  - apply track_attempts_bounded, H.
  - eapply attempts_bounded_narrow; [apply is_ip_blocked_counts|exact H].
  - eapply attempts_bounded_narrow; [apply block_counts|exact H].
  - eapply attempts_bounded_narrow; [apply unblock_counts|exact H].
  - apply increment_counts_attempts, H.
  - rewrite reset_run. exact H.
Qed.

Lemma run_op_scores_bounded o s :
  scores_bounded s ->
  scores_bounded (run_op isoformat fromisoformat o s).
Proof.
  intros H. destruct o; cbn [run_op].
  - eapply scores_bounded_narrow; [apply load_counts|exact H].
  - rewrite save_run. cbn [snd].
    eapply scores_bounded_narrow; [apply counts_narrow_saved|exact H].
  - eapply scores_bounded_narrow; [apply check_counts|exact H].
  - eapply scores_bounded_narrow; [apply cleanup_expired_counts|exact H].
  - apply cleanup_old_scores_bounded, H.
  - apply cleanup_tick_preserves; [| | |exact H].
    + intros s0. apply scores_bounded_narrow, check_counts.
    + intros s0. apply scores_bounded_narrow, cleanup_expired_counts.
    + intros s0. apply cleanup_old_scores_bounded.
  - apply track_scores_bounded, H.
  - eapply scores_bounded_narrow; [apply is_ip_blocked_counts|exact H].
  - eapply scores_bounded_narrow; [apply block_counts|exact H].
  - eapply scores_bounded_narrow; [apply unblock_counts|exact H].
  - apply increment_scores_bounded, H.
  - rewrite reset_run. cbn [snd].
    apply (scores_bounded_sub s); [|reflexivity|exact H].
    intros ip' q Hq. cbn in Hq.
    apply lookup_delete_Some in Hq as [_ Hq]. exact Hq.
Qed.

(** X7. Whatever operations of the engine run one after the other, every
    attempt window that is stored is non-empty and holds fewer timestamps
    than the threshold: a window that reaches the threshold is deleted by
    the call that blocks the address, and a window emptied by the cleanup
    is deleted by it. *)
Theorem stored_windows_below_threshold (ops : list op) (s : sys) :
  attempts_bounded s ->
  attempts_bounded (run_ops isoformat fromisoformat ops s).
Proof.
  revert s. induction ops as [|o rest IH]; intros s H; cbn [run_ops].
  - exact H.
  - apply IH, run_op_attempts_bounded, H.
Qed.

(** X8. Whatever operations of the engine run one after the other, every
    failure count that is stored is a positive number of halves below the
    threshold: a count that reaches the threshold is deleted by the call
    that blocks the address. *)
Theorem stored_scores_below_threshold (ops : list op) (s : sys) :
  scores_bounded s ->
  scores_bounded (run_ops isoformat fromisoformat ops s).
Proof.
  revert s. induction ops as [|o rest IH]; intros s H; cbn [run_ops].
  - exact H.
  - apply IH, run_op_scores_bounded, H.
Qed.

End BoundFacts.

(** ** Calls of the public methods, one after the other *)

Section CallFacts.
Variable isoformat : Z -> string.
Variable fromisoformat : string -> option Z.

Lemma dict_mem_del_eq k d : dict_mem k (dict_del k d) = false.
Proof. apply dict_mem_false, dict_get_del_eq. Qed.

Lemma dict_del_set k v d : dict_del k (dict_set k v d) = dict_del k d.
Proof.
  unfold dict_del.
  induction d as [|[k' v'] d IH]; cbn [dict_set List.filter fst].
  - rewrite bool_decide_true by reflexivity. reflexivity.
  - destruct (decide (k = k')) as [->|Hne]; cbn [List.filter fst].
    + rewrite !bool_decide_true by reflexivity. reflexivity.
    + rewrite bool_decide_false by congruence. cbn [negb].
      f_equal. exact IH.
Qed.

(** X1.  [unblock_ip] answers whether the address was in the block record;
    afterwards the address is not in it, and if it was, its failure count
    and its attempt window are gone too; the entries of the other addresses
    are as before; a second [unblock_ip] answers [False] and changes
    nothing. *)
Theorem unblock_ip_removes (io io' : option Q) (ip : string) (s : sys) :
  let r := unblock_ip io ip s in
  r.1 = Ret (dict_mem ip (blocked_ips (blocker s))) /\
  dict_mem ip (blocked_ips (blocker r.2)) = false /\
  (dict_mem ip (blocked_ips (blocker s)) = true ->
     to_block (blocker r.2) !! ip = None /\
     connection_attempts (blocker r.2) !! ip = None) /\
  (forall ip', ip' <> ip ->
     dict_get ip' (blocked_ips (blocker r.2))
       = dict_get ip' (blocked_ips (blocker s)) /\
     to_block (blocker r.2) !! ip' = to_block (blocker s) !! ip' /\
     connection_attempts (blocker r.2) !! ip'
       = connection_attempts (blocker s) !! ip') /\
  unblock_ip io' ip r.2 = (Ret false, r.2).
Proof.
  cbn zeta. destruct (dict_mem ip (blocked_ips (blocker s))) eqn:E.
  - rewrite unblock_ip_present by exact E. cbn [fst snd].
    rewrite saved_blocked_ips, saved_to_block, saved_connection_attempts.
    cbn [blocker blocked_ips to_block connection_attempts].
    split; [reflexivity|]. split; [apply dict_mem_del_eq|].
    split; [intros _; split; apply lookup_delete_eq|].
    split.
    + intros ip' Hne. rewrite dict_get_del_ne by congruence.
      rewrite !lookup_delete_ne by congruence. auto.
    + apply unblock_ip_absent. rewrite saved_blocked_ips.
      apply dict_mem_del_eq.
  - rewrite unblock_ip_absent by exact E. cbn [fst snd].
    split; [reflexivity|]. split; [exact E|].
    split; [discriminate|]. split; [auto|].
    apply unblock_ip_absent, E.
Qed.

Lemma block_ip_entry now io ip s :
  let r := block_ip isoformat now io ip s in
  r.1 = Ret () /\
  dict_get ip (blocked_ips (blocker r.2)) = Some (PStr (isoformat now)) /\
  to_block (blocker r.2) !! ip = None /\
  connection_attempts (blocker r.2) !! ip = None.
Proof.
  cbn zeta. rewrite block_ip_run. cbn [fst snd].
  rewrite saved_blocked_ips, saved_to_block, saved_connection_attempts.
  cbn [blocker blocked_ips to_block connection_attempts].
  split; [reflexivity|]. split; [apply dict_get_set_eq|].
  split; apply lookup_delete_eq.
Qed.

(** X2.  After [block_ip] at the instant [now] the record holds the address
    under that instant's timestamp, and the address has neither a failure
    count nor an attempt window.  From then on, and for as long as the
    reset interval has not elapsed, [is_ip_blocked] answers [True],
    [track_connection_attempt] answers [True] without recording the attempt
    and [increment_failure_count] answers [False] without counting the
    failure.  The library is asked only to read back the timestamp it
    wrote. *)
Theorem block_ip_blocks (now now' : Z) (t : Q) (io io' : option Q)
    (ip : string) (s : sys) :
  fromisoformat (isoformat now) = Some now ->
  now' - now <= BLOCK_RESET_INTERVAL ->
  let r := block_ip isoformat now io ip s in
  r.1 = Ret () /\
  dict_get ip (blocked_ips (blocker r.2)) = Some (PStr (isoformat now)) /\
  to_block (blocker r.2) !! ip = None /\
  connection_attempts (blocker r.2) !! ip = None /\
  is_ip_blocked fromisoformat now' io' ip r.2 = (Ret true, r.2) /\
  track_connection_attempt isoformat t now' io' ip r.2 = (Ret true, r.2) /\
  increment_failure_count isoformat now' io' ip r.2 = (Ret false, r.2).
Proof.
  intros Hrt Hsoon. cbn zeta.
  destruct (block_ip_entry now io ip s) as (Hr & Hget & Htb & Hca).
  assert (Hm : dict_mem ip (blocked_ips (blocker
                 (block_ip isoformat now io ip s).2)) = true).
  { apply dict_mem_get. rewrite Hget. eauto. }
  repeat split; auto.
  - eapply is_ip_blocked_live; eauto.
  - apply track_blocked, Hm.
  - apply increment_blocked, Hm.
Qed.

(** X24.  [block_ip] followed by [unblock_ip] for the same address: the
    second call answers [True], and the block record is the one from before
    the two calls without the address, whether or not it was blocked
    before; the entries of the other addresses keep their order. *)
Theorem block_then_unblock (now : Z) (io io' : option Q) (ip : string)
    (s : sys) :
  let r := unblock_ip io' ip (block_ip isoformat now io ip s).2 in
  r.1 = Ret true /\
  blocked_ips (blocker r.2) = dict_del ip (blocked_ips (blocker s)).
Proof.
  cbn zeta. rewrite block_ip_run. cbn [snd].
  rewrite unblock_ip_present.
  2:{ rewrite saved_blocked_ips. cbn [blocker blocked_ips].
      apply dict_mem_get. rewrite dict_get_set_eq. eauto. }
  cbn [fst snd]. split; [reflexivity|].
  rewrite !saved_blocked_ips. cbn [blocker blocked_ips].
  apply dict_del_set.
Qed.

(** X6.  When the value stored for the address is not a timestamp the
    library can parse, [is_ip_blocked] answers [False] and deletes the entry
    from the record in memory, and that is all it does: the failure count
    and the attempt window of the address stay, [_save_blocked_ips] is not
    called, and the file is as it was. *)
Theorem invalid_timestamp_unblocks_in_memory (now : Z) (io : option Q)
    (ip : string) (s : sys) (v : pyval) :
  dict_get ip (blocked_ips (blocker s)) = Some v ->
  match v with PStr str => fromisoformat str = None | PNonStr _ => True end ->
  let r := is_ip_blocked fromisoformat now io ip s in
  r.1 = Ret false /\
  blocked_ips (blocker r.2) = dict_del ip (blocked_ips (blocker s)) /\
  to_block (blocker r.2) = to_block (blocker s) /\
  connection_attempts (blocker r.2) = connection_attempts (blocker s) /\
  _last_save_state (blocker r.2) = _last_save_state (blocker s) /\
  _last_file_mtime (blocker r.2) = _last_file_mtime (blocker s) /\
  disk r.2 = disk s.
Proof.
  intros Hget Hv. cbn zeta.
  rewrite (is_ip_blocked_invalid fromisoformat now io ip s v Hget Hv).
  repeat split.
Qed.

Lemma Qgtb_irrefl t : Qgtb t t = false.
Proof.
  destruct (Qgtb t t) eqn:E; [|reflexivity].
  apply Qgtb_spec in E. exfalso. lra.
Qed.

(** X9.  A call of [_save_blocked_ips] that writes the file (the record
    differs from the last one written, and the write succeeds) leaves the
    object in step with the file: the file holds the record, and the next
    [_check_external_changes] finds the file no newer than the object's
    own write and reloads nothing. *)
Theorem own_write_not_reloaded (nows : nat -> Z) (mtime : Q) (s : sys) :
  _last_save_state (blocker s)
    <> Some (json_dumps_sorted (blocked_ips (blocker s))) ->
  let r := _save_blocked_ips (Some mtime) s in
  r.1 = Ret () /\
  disk r.2 = File (mkFile (DictDoc (blocked_ips (blocker s))) mtime) /\
  blocked_ips (blocker r.2) = blocked_ips (blocker s) /\
  _check_external_changes isoformat nows r.2 = (Ret (), r.2).
Proof.
  intros Hne. cbn zeta. rewrite save_run. cbn [fst snd].
  rewrite save_written by exact Hne.
  repeat split.
  erewrite check_present by reflexivity.
  cbn [f_mtime blocker _last_file_mtime]. rewrite Qgtb_irrefl. reflexivity.
Qed.

(** X5.  For an address that is not blocked and whose failure count stands
    at [k] halves, below the threshold, exactly
    [2 * block_threshold - k] calls of [increment_failure_count] block
    it: every call before the last answers [False], the last answers
    [True], enters the address under its own timestamp and deletes the
    count.  With no count to start with ([k = 0]) that is twice the
    threshold, twenty failures for the threshold of ten. *)
Theorem failures_block_at_twice_threshold (ip : string)
    (calls : list (Z * option Q)) (k : Z) (s : sys) :
  dict_mem ip (blocked_ips (blocker s)) = false ->
  (default 0%Q (to_block (blocker s) !! ip) == k # 2)%Q ->
  Z.of_nat (length calls) = 2 * block_threshold (blocker s) - k ->
  calls <> [] ->
  let r := fail_all isoformat calls ip s in
  r.1 = replicate (length calls - 1) (Ret false) ++ [Ret true] /\
  (exists c, last calls = Some c /\
     dict_get ip (blocked_ips (blocker r.2)) = Some (PStr (isoformat c.1))) /\
  to_block (blocker r.2) !! ip = None.
Proof.
  revert k s.
  induction calls as [|c rest IH]; intros k s Hfree Hk Hlen Hne;
    [congruence|].
  cbn zeta. cbn [fail_all].
  assert (Hcount : (Qred (default 0%Q (to_block (blocker s) !! ip) + 1 / 2)
                    == (k + 1) # 2)%Q).
  { rewrite Qred_correct, Hk. unfold Qeq; cbn. lia. }
  destruct rest as [|c' rest'].
  - cbn [length] in Hlen.
    rewrite increment_reached; [|exact Hfree|].
    2:{ cbn zeta. rewrite Hcount. unfold Qle, inject_Z; cbn. lia. }
    cbn [fail_all fst snd length replicate app Nat.sub last].
    rewrite saved_blocked_ips, saved_to_block.
    cbn [blocker blocked_ips to_block].
    split; [reflexivity|]. split; [|apply lookup_delete_eq].
    exists c. split; [reflexivity|apply dict_get_set_eq].
  - rewrite increment_below; [|exact Hfree|].
    2:{ cbn zeta. rewrite Hcount. cbn [length] in Hlen.
        unfold Qlt, inject_Z; cbn. lia. }
    match goal with
    | |- context [fail_all _ _ _ ?s1] =>
        destruct (IH (k + 1) s1) as (Hr & (c0 & Hlast & Hget) & Htb)
    end.
    + exact Hfree.
    + cbn [blocker to_block]. rewrite lookup_insert_eq.
      cbn [default from_option id]. exact Hcount.
    + cbn [blocker block_threshold]. cbn [length] in *. lia.
    + discriminate.
    + destruct (fail_all isoformat (c' :: rest') ip _) as [rs s'] eqn:E.
      cbn [fst snd] in *. split.
      * rewrite Hr. cbn [length Nat.sub]. rewrite Nat.sub_0_r.
        reflexivity.
      * split; [|exact Htb]. exists c0. split; [|exact Hget].
        exact Hlast.
Qed.

Lemma counted_length t ip s :
  (length (counted t ip s)
   <= length (default [] (connection_attempts (blocker s) !! ip)) + 1)%nat.
Proof.
  unfold counted.
  etransitivity; [apply recent_length|]. rewrite length_app. cbn. lia.
Qed.

(** X15.  As long as the timestamps already stored for an address and the
    new attempts together number fewer than the threshold, no call of
    [track_connection_attempt] blocks the address, however close together
    the attempts are: every call answers [False], and the block record, the
    failure counts and the file are left as they were. *)
Theorem few_attempts_never_block (ip : string) (calls : list attempt)
    (s : sys) :
  dict_mem ip (blocked_ips (blocker s)) = false ->
  Z.of_nat (length (default [] (connection_attempts (blocker s) !! ip))
            + length calls) < block_threshold (blocker s) ->
  let r := track_all isoformat calls ip s in
  r.1 = map (fun _ => Ret false) calls /\
  blocked_ips (blocker r.2) = blocked_ips (blocker s) /\
  to_block (blocker r.2) = to_block (blocker s) /\
  disk r.2 = disk s.
Proof.
  revert s.
  induction calls as [|c rest IH]; intros s Hfree Hlen; cbn zeta.
  - repeat split.
  - cbn [track_all]. cbn [length] in Hlen.
    pose proof (counted_length (at_time c) ip s) as Hc.
    rewrite track_below; [|exact Hfree|lia].
    match goal with
    | |- context [track_all _ _ _ ?s1] =>
        destruct (IH s1) as (Hr & Hb & Htb & Hd)
    end.
    + exact Hfree.
    + cbn [blocker connection_attempts block_threshold].
      rewrite lookup_insert_eq. cbn [default from_option id]. lia.
    + destruct (track_all isoformat rest ip _) as [rs s'] eqn:E.
      cbn [fst snd map blocker blocked_ips to_block disk] in *.
      rewrite Hr. repeat split; assumption.
Qed.

Lemma recent_none c l : Forall (fun t => (t <= c)%Q) l -> recent c l = [].
Proof.
  induction 1 as [|t l Ht Hl IH]; cbn; auto.
  destruct (Qgtb t c) eqn:E; [|exact IH].
  apply Qgtb_spec in E. exfalso. lra.
Qed.

(** X16.  With a threshold of at least two (it is ten), an address whose
    attempts come no closer together than [CONNECTION_TIMEOUT] seconds is
    never blocked by [track_connection_attempt], however many attempts it
    makes: each call counts its own attempt only, answers [False] and
    leaves the block record as it was, and the window stored at the end
    holds the last attempt alone. *)
Theorem slow_attempts_never_block (ip : string) (calls : list attempt)
    (prev : Q) (s : sys) :
  dict_mem ip (blocked_ips (blocker s)) = false ->
  2 <= block_threshold (blocker s) ->
  Forall (fun t => (t <= prev)%Q)
    (default [] (connection_attempts (blocker s) !! ip)) ->
  spaced prev (map at_time calls) ->
  let r := track_all isoformat calls ip s in
  r.1 = map (fun _ => Ret false) calls /\
  blocked_ips (blocker r.2) = blocked_ips (blocker s) /\
  connection_attempts (blocker r.2) !! ip =
    match last calls with
    | Some c => Some [at_time c]
    | None => connection_attempts (blocker s) !! ip
    end.
Proof.
  revert prev s.
  induction calls as [|c rest IH]; intros prev s Hfree Hth Hold Hsp;
    cbn zeta.
  - repeat split.
  - cbn [track_all]. cbn [map spaced] in Hsp. destruct Hsp as [Hc Hsp].
    assert (Hcount : counted (at_time c) ip s = [at_time c]).
    { unfold counted. rewrite recent_app, recent_none.
      - cbn. assert (Ht : Qgtb (at_time c) (at_time c - CONNECTION_TIMEOUT)
                          = true).
        { apply Qgtb_spec. unfold CONNECTION_TIMEOUT. lra. }
        rewrite Ht. reflexivity.
      - eapply Forall_impl; [exact Hold|]. cbn. intros u Hu. lra. }
    rewrite track_below; [|exact Hfree|rewrite Hcount; cbn; lia].
    rewrite Hcount.
    match goal with
    | |- context [track_all _ _ _ ?s1] =>
        destruct (IH (at_time c) s1) as (Hr & Hb & Hca)
    end.
    + exact Hfree.
    + exact Hth.
    + cbn [blocker connection_attempts]. rewrite lookup_insert_eq.
      cbn [default from_option id]. constructor; [lra|constructor].
    + exact Hsp.
    + destruct (track_all isoformat rest ip _) as [rs s'] eqn:E.
      cbn [fst snd map blocker blocked_ips connection_attempts] in *.
      rewrite Hr. split; [reflexivity|]. split; [exact Hb|].
      rewrite Hca. destruct rest as [|c' rest'].
      * cbn [last]. apply lookup_insert_eq.
      * rewrite last_cons_cons.
        destruct (last (c' :: rest')) eqn:El; [reflexivity|].
        apply last_None in El. discriminate.
Qed.

End CallFacts.

(** ** The address of the client *)

Lemma chars_append (x y : string) :
  String.list_ascii_of_string (String.append x y) =
    String.list_ascii_of_string x ++ String.list_ascii_of_string y.
Proof.
  induction x as [|a x IH]; [reflexivity|].
  change (String.append (String a x) y) with (String a (String.append x y)).
  cbn [String.list_ascii_of_string app]. f_equal. exact IH.
Qed.

Lemma replace_char_elem (c : Ascii.ascii) (new s : string) (a : Ascii.ascii) :
  a ∈ String.list_ascii_of_string (replace_char c new s) ->
  (a ∈ String.list_ascii_of_string s /\ a <> c) \/
  a ∈ String.list_ascii_of_string new.
Proof.
  induction s as [|b s IH]; cbn [replace_char String.list_ascii_of_string].
  - intros H. apply elem_of_nil in H. contradiction.
  - destruct (decide (b = c)) as [->|Hne].
    + rewrite chars_append, elem_of_app. intros [H|H]; [right; exact H|].
      destruct (IH H) as [[Hin Ha]|Hin]; [left|right; exact Hin].
      split; [right; exact Hin|exact Ha].
    + cbn [String.list_ascii_of_string]. intros H.
      apply elem_of_cons in H as [->|H].
      * left. split; [left|exact Hne].
      * destruct (IH H) as [[Hin Ha]|Hin]; [left|right; exact Hin].
        split; [right; exact Hin|exact Ha].
Qed.

Lemma replace_char_id (c : Ascii.ascii) (new s : string) :
  c ∉ String.list_ascii_of_string s -> replace_char c new s = s.
Proof.
  induction s as [|b s IH]; cbn [replace_char String.list_ascii_of_string];
    [reflexivity|].
  intros H. apply not_elem_of_cons in H as [Hne Hin].
  rewrite decide_False by congruence. f_equal. apply IH, Hin.
Qed.

Lemma special_false (a : Ascii.ascii) :
  special a = false <-> a <> ":"%char /\ a <> "["%char /\ a <> "]"%char.
Proof.
  unfold special. rewrite !orb_false_iff, !bool_decide_eq_false. tauto.
Qed.

Lemma normalize_ip_chars (ip : string) (a : Ascii.ascii) :
  a ∈ String.list_ascii_of_string (normalize_ip ip) -> special a = false.
Proof.
  destruct ip as [|b ip].
  - cbn [normalize_ip]. intros H. apply special_false.
    repeat (apply elem_of_cons in H as [->|H]; [repeat split; discriminate|]).
    apply elem_of_nil in H. contradiction.
  - unfold normalize_ip. intros H. apply special_false.
    apply replace_char_elem in H as [[H Ha3]|H];
      [|apply elem_of_nil in H; contradiction].
    apply replace_char_elem in H as [[H Ha2]|H];
      [|apply elem_of_nil in H; contradiction].
    apply replace_char_elem in H as [[H Ha1]|H].
    + repeat split; assumption.
    + apply elem_of_cons in H as [->|H];
        [repeat split; discriminate|apply elem_of_nil in H; contradiction].
Qed.

Lemma normalize_ip_fixed (ip : string) :
  ip <> "" ->
  (forall a, a ∈ String.list_ascii_of_string ip -> special a = false) ->
  normalize_ip ip = ip.
Proof.
  intros Hne H. destruct ip as [|b ip]; [congruence|].
  unfold normalize_ip.
  assert (Hc : forall c, special c = true ->
            c ∉ String.list_ascii_of_string (String b ip)).
  { intros c Hc Hin. apply H in Hin. congruence. }
  rewrite (replace_char_id ":"%char) by (apply Hc; reflexivity).
  rewrite (replace_char_id "["%char) by (apply Hc; reflexivity).
  apply replace_char_id, Hc. reflexivity.
Qed.

(** X10.  Whatever string it is given, [normalize_ip] returns a string
    without a colon and without a square bracket: the text used as a key of
    the block record and as a file name holds none of them. *)
Theorem normalize_ip_clean (ip : string) :
  Forall (fun a => special a = false)
    (String.list_ascii_of_string (normalize_ip ip)).
Proof. apply Forall_forall. intros a. apply normalize_ip_chars. Qed.

(** X11.  [normalize_ip] leaves its own results alone, with one
    exception: a result that is not the empty string is returned
    unchanged by a second call.  (An address made of brackets only gives
    the empty string, which a second call turns into ["unknown"].) *)
Theorem normalize_ip_idempotent (ip : string) :
  normalize_ip ip <> "" ->
  normalize_ip (normalize_ip ip) = normalize_ip ip.
Proof.
  intros Hne. apply normalize_ip_fixed; [exact Hne|].
  intros a. apply normalize_ip_chars.
Qed.

(** ** The handlers *)

Section HandlerFacts.
Variable isoformat : Z -> string.
Variable fromisoformat : string -> option Z.



Lemma increment_member now io ip s :
  dict_mem ip (blocked_ips (blocker s)) = false ->
  let r := increment_failure_count isoformat now io ip s in
  exists b, r.1 = Ret b /\ dict_mem ip (blocked_ips (blocker r.2)) = b.
Proof.
  intros Hfree. cbn zeta.
  destruct (Qlt_le_dec
              (Qred (default 0%Q (to_block (blocker s) !! ip) + 1 / 2))
              (inject_Z (block_threshold (blocker s)))) as [Hlt|Hle].
  - rewrite increment_below by assumption. exists false.
    split; [reflexivity|exact Hfree].
  - rewrite increment_reached by assumption. exists true.
    split; [reflexivity|].
    cbn [snd]. rewrite saved_blocked_ips. apply dict_mem_get.
    cbn [blocker blocked_ips]. rewrite dict_get_set_eq. eauto.
Qed.




(** X17.  [response], for an address that is not in the block record: a
    status of 407, 401 or 403 counts one failure, exactly as
    [increment_failure_count] does, and the response is captured unless
    that call blocked the address; a status from 200 to 299 deletes the
    failure count and the response is captured; any other status (a
    redirect, a 404, a 500) leaves the engine untouched and the response is
    captured. *)
Theorem response_counts_failures (ip : string) (code : Z)
    (c1 c2 c3 : clock) (s : sys) :
  dict_mem ip (blocked_ips (blocker s)) = false ->
  let r := response isoformat fromisoformat ip (Some code) c1 c2 c3 s in
  let f := increment_failure_count isoformat (ck_now c2) (ck_io c2) ip s in
  (code ∈ [HTTP_PROXY_AUTH_REQUIRED; HTTP_UNAUTHORIZED; HTTP_FORBIDDEN] ->
     r.2 = f.2 /\ exists b, f.1 = Ret b /\ r.1 = Ret (negb b)) /\
  (HTTP_OK <= code < HTTP_MULTIPLE_CHOICES ->
     r = (Ret true, (reset_failure_count ip s).2) /\
     to_block (blocker r.2) !! ip = None) /\
  (code ∉ [HTTP_PROXY_AUTH_REQUIRED; HTTP_UNAUTHORIZED; HTTP_FORBIDDEN] ->
   ~ (HTTP_OK <= code < HTTP_MULTIPLE_CHOICES) ->
     r = (Ret true, s)).
Proof.
  intros Hfree. cbn zeta.
  assert (Hstart : is_ip_blocked fromisoformat (ck_now c1) (ck_io c1) ip s
                   = (Ret false, s)).
  { apply is_ip_blocked_absent, dict_mem_false, Hfree. }
  assert (Hinc : code ∈ [HTTP_PROXY_AUTH_REQUIRED; HTTP_UNAUTHORIZED;
                         HTTP_FORBIDDEN] ->
            on_status isoformat ip code c2 s =
              increment_failure_count isoformat (ck_now c2) (ck_io c2) ip s).
  { intros Hin. unfold on_status.
    destruct (decide (code = HTTP_PROXY_AUTH_REQUIRED)); [reflexivity|].
    rewrite bool_decide_true; [reflexivity|].
    apply elem_of_cons in Hin as [Hin|Hin]; [contradiction|exact Hin]. }
  unfold response. rewrite try_except_all.
  cbv beta iota zeta delta [mbind M_bind mret M_ret].
  rewrite Hstart. cbv beta iota.
  split; [|split].
  - intros Hin. rewrite (Hinc Hin).
    destruct (increment_member (ck_now c2) (ck_io c2) ip s Hfree)
      as (b & Hr & Hm).
    destruct (increment_failure_count isoformat _ _ ip s) as [[b2|e] s2];
      cbn [fst snd] in *; [|discriminate].
    injection Hr as ->. destruct b; cbn [fst snd].
    + split; [reflexivity|]. exists true. split; reflexivity.
    + rewrite is_ip_blocked_absent by (apply dict_mem_false, Hm).
      cbn [fst snd]. split; [reflexivity|]. exists false. split; reflexivity.
  - intros Hok. unfold on_status.
    rewrite decide_False
      by (unfold HTTP_PROXY_AUTH_REQUIRED, HTTP_OK, HTTP_MULTIPLE_CHOICES in *;
          lia).
    rewrite bool_decide_false.
    2:{ intros Hin. unfold HTTP_UNAUTHORIZED, HTTP_FORBIDDEN, HTTP_OK,
          HTTP_MULTIPLE_CHOICES in *.
        repeat (apply elem_of_cons in Hin as [Hin|Hin]; [lia|]).
        apply elem_of_nil in Hin. contradiction. }
    rewrite bool_decide_true by exact Hok.
    cbv beta iota zeta delta [mbind M_bind mret M_ret].
    rewrite reset_run. cbv beta iota.
    rewrite is_ip_blocked_absent by (apply dict_mem_false, Hfree).
    cbv beta iota. cbn [fst snd blocker to_block].
    split; [reflexivity|apply lookup_delete_eq].
  - intros Hnin Hnok. unfold on_status.
    rewrite decide_False by (intros ->; apply Hnin; left).
    rewrite bool_decide_false
      by (intros Hin; apply Hnin; right; exact Hin).
    rewrite bool_decide_false by exact Hnok.
    cbv beta iota zeta delta [mbind M_bind mret M_ret].
    rewrite is_ip_blocked_absent by (apply dict_mem_false, Hfree).
    reflexivity.
Qed.


(** X23.  The check made on each connection and the periodic cleanup agree
    on which blocks have run out: on a record that lists no address twice,
    [is_ip_blocked] answers [True] for exactly the addresses that a pass of
    [_cleanup_expired_blocks] at the same clock would leave in the
    record. *)
Theorem lazy_and_periodic_expiry_agree (now : Z) (io io' : option Q)
    (ip : string) (s : sys) :
  NoDup (dict_keys (blocked_ips (blocker s))) ->
  (is_ip_blocked fromisoformat now io ip s).1 =
    Ret (dict_mem ip (blocked_ips (blocker
           (_cleanup_expired_blocks fromisoformat now io' s).2))).
Proof.
  intros Hnd.
  destruct (cleanup_expired_spec fromisoformat now io' s Hnd)
    as (_ & Hget & _).
  unfold dict_mem. rewrite Hget. unfold stale_entry.
  destruct (dict_get ip (blocked_ips (blocker s))) as [v|] eqn:E.
  - destruct v as [str|c]; cbn [stale].
    + destruct (fromisoformat str) as [bt|] eqn:Ep.
      * destruct (Z_le_gt_dec (now - bt) BLOCK_RESET_INTERVAL) as [Hle|Hgt].
        -- erewrite is_ip_blocked_live by eauto.
           rewrite bool_decide_false by lia. reflexivity.
        -- erewrite is_ip_blocked_expired by eauto.
           rewrite bool_decide_true by lia. reflexivity.
      * erewrite is_ip_blocked_invalid by (try exact E; exact Ep).
        reflexivity.
    + erewrite is_ip_blocked_invalid by (try exact E; exact I).
      reflexivity.
  - rewrite is_ip_blocked_absent by exact E. reflexivity.
Qed.

End HandlerFacts.

(** ** Traffic capture *)

Section CaptureFacts.
Context {entry : Type}.
Implicit Types (c : TrafficCapture entry) (fs : gmap string (har_doc entry)).

(** X18.  After [_save_flows] the object holds no pending flow, whatever
    happened to the files: the entries of a client whose file could not be
    written, and those of the clients that come after a turn of the loop
    that raised, are not kept for the next save. *)
Theorem save_flows_clears (har_file : string -> string)
    (outcome : string -> write_outcome) (c : TrafficCapture entry) :
  flows (_save_flows har_file outcome c).2 = [].
Proof.
  unfold _save_flows. destruct (flows c) as [|kv rest] eqn:E; [exact E|].
  destruct (save_each har_file outcome (kv :: rest) (files c)) as [r fs].
  reflexivity.
Qed.

Lemma elem_of_paths (har_file : string -> string) ip (entries : list entry)
    items :
  (ip, entries) ∈ items -> har_file ip ∈ map har_file (map fst items).
Proof.
  intros H. apply list_elem_of_In. apply in_map.
  apply list_elem_of_In in H. apply (in_map fst) in H. exact H.
Qed.

Lemma save_each_ok har_file outcome items :
  forall fs,
  NoDup (map har_file (map fst items)) ->
  (forall ip entries, (ip, entries) ∈ items ->
     outcome ip <> MkdirFails /\ fs !! har_file ip <> Some HarNotList) ->
  let r := save_each har_file outcome items fs in
  r.1 = Ret () /\
  (forall ip entries, (ip, entries) ∈ items ->
     r.2 !! har_file ip =
       match outcome ip with
       | WriteOk =>
           HarEntries <$> all_entries (fs !! har_file ip) entries
       | _ => fs !! har_file ip
       end) /\
  (forall p, p ∉ map har_file (map fst items) -> r.2 !! p = fs !! p).
Proof.
  induction items as [|[ip entries] rest IH]; intros fs Hnd Hok; cbn zeta.
  - cbn [save_each fst snd]. split; [reflexivity|]. split; [|reflexivity].
    intros ip entries H. apply elem_of_nil in H. contradiction.
  - cbn [map fst] in Hnd. apply NoDup_cons in Hnd as [Hnew Hnd].
    destruct (Hok ip entries) as [Hmk Hlist]; [left|].
    cbn [save_each].
    assert (Hall : exists all,
              all_entries (fs !! har_file ip) entries = Some all).
    { unfold all_entries. destruct (fs !! har_file ip) as [[|old|]|]; eauto.
      congruence. }
    destruct Hall as [all Hall]. rewrite Hall.
    set (fs' := match outcome ip with
                | WriteOk => <[har_file ip := HarEntries all]> fs
                | _ => fs
                end).
    assert (Hfs' : forall p, p <> har_file ip -> fs' !! p = fs !! p).
    { intros p Hp. unfold fs'. destruct (outcome ip); auto.
      apply lookup_insert_ne. congruence. }
    destruct (IH fs' Hnd) as (Hr & Hin & Hout).
    { intros ip' entries' H'. destruct (Hok ip' entries') as [Hmk' Hl'];
        [right; exact H'|].
      split; [exact Hmk'|]. rewrite Hfs'; [exact Hl'|].
      intros Heq. apply Hnew. rewrite <- Heq.
      eapply elem_of_paths, H'. }
    assert (Hgoal : save_each har_file outcome rest fs' =
              match outcome ip with
              | MkdirFails => (Raise OSError, fs)
              | _ => save_each har_file outcome rest fs'
              end).
    { destruct (outcome ip); congruence. }
    assert (Hcode :
      match outcome ip with
      | MkdirFails => (Raise OSError, fs)
      | WriteFails => save_each har_file outcome rest fs
      | WriteOk =>
          save_each har_file outcome rest
            (<[har_file ip := HarEntries all]> fs)
      end = save_each har_file outcome rest fs').
    { unfold fs'. destruct (outcome ip); congruence. }
    rewrite Hcode. split; [exact Hr|]. split.
    + intros ip' entries' H'. apply elem_of_cons in H' as [[= -> ->]|H'].
      * rewrite Hout by exact Hnew. unfold fs'.
        destruct (outcome ip); try reflexivity; try congruence.
        rewrite lookup_insert_eq, Hall. reflexivity.
      * rewrite (Hin ip' entries' H').
        assert (Hne : har_file ip' <> har_file ip).
        { intros Heq. apply Hnew. rewrite <- Heq.
          eapply elem_of_paths, H'. }
        rewrite (Hfs' _ Hne). reflexivity.
    + intros p Hp. cbn [map fst] in Hp.
      apply not_elem_of_cons in Hp as [Hp1 Hp2].
      rewrite Hout by exact Hp2. apply Hfs', Hp1.
Qed.

Lemma save_flows_spec har_file outcome c :
  NoDup (map har_file (map fst (flows c))) ->
  (forall ip entries, (ip, entries) ∈ flows c ->
     outcome ip <> MkdirFails /\
     files c !! har_file ip <> Some HarNotList) ->
  let r := _save_flows har_file outcome c in
  r.1 = Ret () /\
  (forall ip entries, (ip, entries) ∈ flows c ->
     files r.2 !! har_file ip =
       match outcome ip with
       | WriteOk =>
           HarEntries <$> all_entries (files c !! har_file ip) entries
       | _ => files c !! har_file ip
       end) /\
  (forall p, p ∉ map har_file (map fst (flows c)) ->
     files r.2 !! p = files c !! p).
Proof.
  intros Hnd Hok. cbn zeta. unfold _save_flows.
  destruct (flows c) as [|kv rest] eqn:E.
  - cbn [fst snd]. split; [reflexivity|]. split; [|reflexivity].
    intros ip entries H. apply elem_of_nil in H. contradiction.
  - destruct (save_each_ok har_file outcome (kv :: rest) (files c) Hnd Hok)
      as (Hr & Hin & Hout).
    destruct (save_each har_file outcome (kv :: rest) (files c)) as [r fs].
    cbn [fst snd files] in *. auto.
Qed.

(** X19.  [_save_flows], when the clients' files are distinct, no [mkdir]
    fails and no file lists something else than a list under
    [log.entries]: the call returns; the file of each client whose write
    succeeds lists the entries it listed before (none, for a file that is
    missing or cannot be read), in their order, followed by the client's
    pending entries, in theirs; the file of a client whose write fails, and
    every other file, is as before. *)
Theorem save_flows_appends (har_file : string -> string)
    (outcome : string -> write_outcome) (c : TrafficCapture entry) :
  NoDup (map har_file (map fst (flows c))) ->
  (forall ip entries, (ip, entries) ∈ flows c ->
     outcome ip <> MkdirFails /\
     files c !! har_file ip <> Some HarNotList) ->
  let r := _save_flows har_file outcome c in
  r.1 = Ret () /\
  (forall ip entries, (ip, entries) ∈ flows c ->
     files r.2 !! har_file ip =
       match outcome ip with
       | WriteOk =>
           HarEntries <$> all_entries (files c !! har_file ip) entries
       | _ => files c !! har_file ip
       end) /\
  (forall p, p ∉ map har_file (map fst (flows c)) ->
     files r.2 !! p = files c !! p).
Proof. exact (save_flows_spec har_file outcome c). Qed.

Lemma flows_append_get ip (e : entry) fl :
  flows_get ip (flows_append ip e fl)
    = Some (default [] (flows_get ip fl) ++ [e]).
Proof.
  induction fl as [|[k l] rest IH]; cbn [flows_append flows_get].
  - rewrite decide_True by reflexivity. reflexivity.
  - destruct (decide (ip = k)) as [->|Hne]; cbn [flows_get].
    + rewrite decide_True by reflexivity. reflexivity.
    + rewrite decide_False by exact Hne. exact IH.
Qed.

Lemma flows_append_get_ne ip ip' (e : entry) fl :
  ip' <> ip -> flows_get ip' (flows_append ip e fl) = flows_get ip' fl.
Proof.
  intros Hne.
  induction fl as [|[k l] rest IH]; cbn [flows_append flows_get].
  - rewrite decide_False by exact Hne. reflexivity.
  - destruct (decide (ip = k)) as [->|Hk]; cbn [flows_get].
    + rewrite !decide_False by exact Hne. reflexivity.
    + destruct (decide (ip' = k)); [reflexivity|exact IH].
Qed.

Lemma flows_append_keys ip (e : entry) fl :
  map fst (flows_append ip e fl) =
    if decide (ip ∈ map fst fl) then map fst fl else map fst fl ++ [ip].
Proof.
  induction fl as [|[k l] rest IH]; cbn [flows_append map fst].
  - rewrite decide_False by apply not_elem_of_nil. reflexivity.
  - destruct (decide (ip = k)) as [->|Hk]; cbn [map fst].
    + rewrite decide_True by left. reflexivity.
    + rewrite IH. destruct (decide (ip ∈ map fst rest)) as [Hin|Hnin].
      * rewrite decide_True by (right; exact Hin). reflexivity.
      * rewrite decide_False; [reflexivity|].
        intros H. apply elem_of_cons in H as [H|H]; contradiction.
Qed.

Lemma flows_get_elem ip (l : list entry) fl :
  flows_get ip fl = Some l -> (ip, l) ∈ fl.
Proof.
  induction fl as [|[k l'] rest IH]; cbn [flows_get]; [discriminate|].
  destruct (decide (ip = k)) as [->|Hne].
  - intros [= ->]. left.
  - intros H. right. apply IH, H.
Qed.

(** X20.  [add_flow] puts the entry at the end of the client's pending
    entries, starts them when the client has none (the client then comes
    last), and leaves the other clients' entries and the order of the
    clients as they are. *)
Theorem add_flow_appends (client_ip : string) (har_entry : entry)
    (c : TrafficCapture entry) :
  let c' := add_flow client_ip har_entry c in
  flows_get client_ip (flows c')
    = Some (default [] (flows_get client_ip (flows c)) ++ [har_entry]) /\
  (forall ip, ip <> client_ip ->
     flows_get ip (flows c') = flows_get ip (flows c)) /\
  map fst (flows c') =
    (if decide (client_ip ∈ map fst (flows c)) then map fst (flows c)
     else map fst (flows c) ++ [client_ip]) /\
  files c' = files c.
Proof.
  cbn zeta. unfold add_flow. cbn [flows files].
  split; [apply flows_append_get|].
  split; [intros ip Hne; apply flows_append_get_ne, Hne|].
  split; [apply flows_append_keys|reflexivity].
Qed.

(** X21.  An entry handed to [add_flow] is the last entry of the client's
    file after the next [_save_flows], provided the clients' files are
    distinct, no [mkdir] fails, no file lists something else than a list
    under [log.entries], and the write of this client's file succeeds. *)
Theorem capture_reaches_file (har_file : string -> string)
    (outcome : string -> write_outcome) (client_ip : string)
    (har_entry : entry) (c : TrafficCapture entry) :
  NoDup (map har_file (map fst (flows (add_flow client_ip har_entry c)))) ->
  (forall ip entries, (ip, entries) ∈ flows (add_flow client_ip har_entry c) ->
     outcome ip <> MkdirFails /\
     files c !! har_file ip <> Some HarNotList) ->
  outcome client_ip = WriteOk ->
  exists before,
    files (_save_flows har_file outcome (add_flow client_ip har_entry c)).2
      !! har_file client_ip
    = Some (HarEntries (before ++ [har_entry])).
Proof.
  intros Hnd Hok Hw.
  destruct (save_flows_spec har_file outcome
              (add_flow client_ip har_entry c) Hnd Hok) as (_ & Hin & _).
  pose proof (flows_get_elem client_ip _ _
                (flows_append_get client_ip har_entry (flows c))) as Hel.
  destruct (Hok _ _ Hel) as [_ Hlist].
  rewrite (Hin _ _ Hel), Hw. cbn [add_flow files].
  unfold all_entries.
  destruct (files c !! har_file client_ip) as [[|old|]|]; cbn [fmap option_fmap option_map].
  - eexists. reflexivity.
  - eexists. rewrite app_assoc. reflexivity.
  - congruence.
  - eexists. reflexivity.
Qed.

End CaptureFacts.

(** ** Blocked addresses and attempt windows *)

Section UntrackedFacts.
Variable isoformat : Z -> string.
Variable fromisoformat : string -> option Z.

Lemma untracked_narrow s s' :
  shrinks s s' -> counts_narrow s s' ->
  blocked_untracked s -> blocked_untracked s'.
Proof.
  intros [Hb _] (_ & Hc & _) H ip Hin.
  destruct (connection_attempts (blocker s') !! ip) as [l|] eqn:E;
    [|reflexivity].
  apply Hc in E. rewrite H in E; [discriminate|].
  destruct (dict_get ip (blocked_ips (blocker s))) as [v|] eqn:Eg; [eauto|].
  apply Hb in Eg. rewrite Eg in Hin. destruct Hin; discriminate.
Qed.

Lemma entering_untracked io ip v tb' (s : sys) :
  blocked_untracked s ->
  blocked_untracked
    (saved io
       (mkSys (mkIPBlocker (dict_set ip v (blocked_ips (blocker s))) tb'
                 (delete ip (connection_attempts (blocker s)))
                 (block_threshold (blocker s)) (_last_save_state (blocker s))
                 (_last_file_mtime (blocker s)))
              (disk s))).
Proof.
  intros Hinv ip' Hb. rewrite saved_blocked_ips in Hb.
  rewrite saved_connection_attempts.
  cbn in *. destruct (decide (ip = ip')) as [->|Hne].
  - apply lookup_delete_eq.
  - rewrite lookup_delete_ne by exact Hne. apply Hinv.
    rewrite dict_get_set_ne in Hb; auto.
Qed.

(** X25.  Every operation of the engine that does not reload the block
    record from the file keeps the property that a blocked address has no
    attempt window: the window is deleted whenever the engine blocks an
    address, and no attempt of a blocked address is recorded. *)
Theorem operations_keep_blocked_untracked (o : op) (s : sys) :
  reloads o = false ->
  blocked_untracked s ->
  blocked_untracked (run_op isoformat fromisoformat o s).
Proof.
  intros Hrel Hinv.
  destruct o as [nows|io|nows|now io|t|nows now io t|t now io ip|now io ip
                |now io ip|io ip|now io ip|ip]; cbn [run_op reloads] in *;
    try discriminate.
  - rewrite save_run. cbn [snd].
    eapply untracked_narrow;
      [apply shrinks_saved|apply counts_narrow_saved|exact Hinv].
  - eapply untracked_narrow;
      [apply cleanup_expired_shrinks|apply cleanup_expired_counts|exact Hinv].
  - destruct (cleanup_old_spec t s) as (_ & (Hb & _) & Hl).
    intros ip Hin. rewrite Hb in Hin. rewrite Hl, (Hinv ip Hin). reflexivity.
  - destruct (bool_cases (dict_mem ip (blocked_ips (blocker s)))) as [Hb|Hb].
    + rewrite track_blocked by exact Hb. exact Hinv.
    + destruct (Z_lt_ge_dec (Z.of_nat (length (counted t ip s)))
                  (block_threshold (blocker s))) as [Hlt|Hge].
      * rewrite track_below by assumption. cbn [snd].
        intros ip' Hb'. cbn in *. destruct (decide (ip = ip')) as [->|Hne].
        -- apply dict_mem_false in Hb. rewrite Hb in Hb'.
           destruct Hb'; discriminate.
        -- rewrite lookup_insert_ne by exact Hne. apply Hinv. exact Hb'.
      * rewrite track_reached by assumption. cbn [snd].
        apply entering_untracked. exact Hinv.
  - eapply untracked_narrow;
      [apply is_ip_blocked_shrinks|apply is_ip_blocked_counts|exact Hinv].
  - rewrite block_ip_run. cbn [snd]. apply entering_untracked. exact Hinv.
  - destruct (bool_cases (dict_mem ip (blocked_ips (blocker s)))) as [Hb|Hb].
    + rewrite unblock_ip_present by exact Hb. cbn [snd].
      eapply untracked_narrow; [| |exact Hinv].
      * eapply shrinks_trans; [|apply shrinks_saved]. apply shrinks_unblocked.
      * eapply counts_narrow_trans; [|apply counts_narrow_saved].
        apply counts_narrow_delete.
    + rewrite unblock_ip_absent by exact Hb. exact Hinv.
  - destruct (bool_cases (dict_mem ip (blocked_ips (blocker s)))) as [Hb|Hb].
    + rewrite increment_blocked by exact Hb. exact Hinv.
    + destruct (Qlt_le_dec
                  (Qred (default 0%Q (to_block (blocker s) !! ip) + 1 / 2))
                  (inject_Z (block_threshold (blocker s)))) as [Hlt|Hle].
      * rewrite increment_below by assumption. exact Hinv.
      * rewrite increment_reached by assumption. cbn [snd].
        apply entering_untracked. exact Hinv.
  - rewrite reset_run. exact Hinv.
Qed.

End UntrackedFacts.

(** ** The address a flow is accounted under *)

Section ClientIpFacts.
Variable strip : string -> string.
Variable fromisoformat : string -> option Z.

Lemma from_headers_clean h ip :
  from_headers strip h = Some ip ->
  Forall (fun a => special a = false) (String.list_ascii_of_string ip).
Proof.
  unfold from_headers, from_forwarded. intros H.
  apply Forall_forall. intros a.
  repeat match type of H with
         | match ?x with _ => _ end = _ => destruct x; try discriminate
         | (if ?x then _ else _) = _ => destruct x; try discriminate
         end;
    injection H as <-; apply normalize_ip_chars.
Qed.

(** X26.  Whatever the headers and the peer name of the flow, and whatever
    [strip] does, the address [get_client_ip] returns holds no colon and
    no square bracket. *)
Theorem get_client_ip_clean (f : flow) :
  Forall (fun a => special a = false)
    (String.list_ascii_of_string (get_client_ip strip f)).
Proof.
  unfold get_client_ip.
  assert (Hu : Forall (fun a => special a = false)
                 (String.list_ascii_of_string "unknown")).
  { apply Forall_forall. intros a. apply (normalize_ip_chars ""). }
  destruct (negb (fl_client_conn f)); [exact Hu|].
  destruct (fl_request f) as [h|]; cbn [from_option].
  - destruct (from_headers strip h) as [ip|] eqn:E.
    + eapply from_headers_clean, E.
    + destruct (fl_peername f); [|exact Hu].
      apply Forall_forall. intros a. apply normalize_ip_chars.
  - destruct (fl_peername f); [|exact Hu].
    apply Forall_forall. intros a. apply normalize_ip_chars.
Qed.

(** X27.  A request that carries a non-empty [X-Real-IP] header is
    accounted under the normalised value of the header, whatever the peer
    of the connection is; when that address is not in the block record,
    [requestheaders] (and [http_connect]) does not kill the flow and
    changes nothing, whether or not the peer's own address is blocked. *)
Theorem header_address_overrides_peer (f : flow) (h : request_headers)
    (real_ip : string) (c1 : clock) (s : sys) :
  fl_client_conn f = true ->
  fl_request f = Some h ->
  x_real_ip h = Some real_ip ->
  real_ip <> "" ->
  dict_mem (normalize_ip real_ip) (blocked_ips (blocker s)) = false ->
  get_client_ip strip f = normalize_ip real_ip /\
  requestheaders fromisoformat (get_client_ip strip f) c1 s = (Ret false, s).
Proof.
  intros Hconn Hreq Hreal Hne Hfree.
  assert (Hip : get_client_ip strip f = normalize_ip real_ip).
  { unfold get_client_ip, from_headers.
    rewrite Hconn, Hreq. cbn [negb from_option]. rewrite Hreal.
    destruct real_ip; [congruence|reflexivity]. }
  split; [exact Hip|]. rewrite Hip.
  unfold requestheaders. rewrite try_except_all.
  cbv beta iota zeta delta [mbind M_bind mret M_ret].
  rewrite is_ip_blocked_absent by (apply dict_mem_false, Hfree).
  reflexivity.
Qed.

End ClientIpFacts.

(** ** The further properties, at sample inputs *)

Lemma cleanup_expired_blocks_removes_stale_witness :
  dict_get "b" (blocked_ips (blocker
    (_cleanup_expired_blocks sample_fromisoformat 3600000001 None
       sample_unsorted).2)) = None /\
  dict_get "a" (blocked_ips (blocker
    (_cleanup_expired_blocks sample_fromisoformat 3600000001 None
       sample_unsorted).2)) = Some (PStr "1970-01-01T00:00:01").
Proof.
  pose proof (cleanup_expired_blocks_removes_stale sample_fromisoformat
                3600000001 None sample_unsorted sample_unsorted_NoDup) as H.
  cbv zeta in H. destruct H as (_ & H & _).
  split; rewrite H; reflexivity.
Defined.

Lemma cleanup_tick_leaves_live_blocks_witness :
  (cleanup_tick sample_isoformat sample_fromisoformat (fun _ => 0)
     3600000001 None 0%Q sample_edited).1 = Ret () /\
  NoDup (dict_keys (blocked_ips (blocker
    (cleanup_tick sample_isoformat sample_fromisoformat (fun _ => 0)
       3600000001 None 0%Q sample_edited).2))).
Proof.
  assert (Hnd : NoDup (dict_keys (blocked_ips (blocker sample_edited))))
    by (apply (bool_decide_unpack _); vm_compute; exact I).
  assert (Hacc : disk sample_edited <> NoAccess) by discriminate.
  pose proof (cleanup_tick_leaves_live_blocks sample_isoformat
                sample_fromisoformat (fun _ => 0) 3600000001 None 0%Q
                sample_edited Hnd) as H.
  cbv zeta in H. destruct H as (Hret & _ & Hlive).
  split; [exact Hret|exact (proj1 (Hlive Hacc))].
Defined.

Lemma fresh_attempts_bounded : attempts_bounded fresh.
Proof. intros ip l H. cbn in H. rewrite lookup_empty in H. discriminate. Qed.

Lemma fresh_scores_bounded : scores_bounded fresh.
Proof. intros ip q H. cbn in H. rewrite lookup_empty in H. discriminate. Qed.

Lemma stored_windows_below_threshold_witness :
  attempts_bounded fresh /\
  attempts_bounded
    (run_ops sample_isoformat sample_fromisoformat sample_ops fresh).
Proof.
  split; [exact fresh_attempts_bounded|].
  exact (stored_windows_below_threshold sample_isoformat sample_fromisoformat
           sample_ops fresh fresh_attempts_bounded).
Defined.

Lemma stored_scores_below_threshold_witness :
  scores_bounded fresh /\
  scores_bounded
    (run_ops sample_isoformat sample_fromisoformat sample_ops fresh).
Proof.
  split; [exact fresh_scores_bounded|].
  exact (stored_scores_below_threshold sample_isoformat sample_fromisoformat
           sample_ops fresh fresh_scores_bounded).
Defined.

Lemma block_ip_blocks_witness :
  is_ip_blocked sample_fromisoformat 3600000000 None sample_ip
    (block_ip sample_isoformat 0 None sample_ip fresh).2
  = (Ret true, (block_ip sample_isoformat 0 None sample_ip fresh).2).
Proof.
  assert (Hsoon : 3600000000 - 0 <= BLOCK_RESET_INTERVAL)
    by (vm_compute; discriminate).
  pose proof (block_ip_blocks sample_isoformat sample_fromisoformat
                0 3600000000 0%Q None None sample_ip fresh eq_refl Hsoon)
    as H.
  exact (proj1 (proj2 (proj2 (proj2 (proj2 H))))).
Defined.

Lemma invalid_timestamp_unblocks_in_memory_witness :
  (is_ip_blocked sample_fromisoformat 0 None sample_ip sample_invalid).1
    = Ret false /\
  to_block (blocker
    (is_ip_blocked sample_fromisoformat 0 None sample_ip sample_invalid).2)
    = to_block (blocker sample_invalid).
Proof.
  pose proof (invalid_timestamp_unblocks_in_memory sample_fromisoformat 0
                None sample_ip sample_invalid (PStr "yesterday")
                eq_refl eq_refl) as H.
  split; [exact (proj1 H)|exact (proj1 (proj2 (proj2 H)))].
Defined.

Lemma own_write_not_reloaded_witness :
  _check_external_changes sample_isoformat (fun _ => 0)
    (_save_blocked_ips (Some 7%Q) sample_unsorted).2
  = (Ret (), (_save_blocked_ips (Some 7%Q) sample_unsorted).2).
Proof.
  assert (Hne : _last_save_state (blocker sample_unsorted) <>
            Some (json_dumps_sorted (blocked_ips (blocker sample_unsorted))))
    by discriminate.
  exact (proj2 (proj2 (proj2 (own_write_not_reloaded sample_isoformat
                                (fun _ => 0) 7%Q sample_unsorted Hne)))).
Defined.

Lemma failures_block_at_twice_threshold_witness :
  (fail_all sample_isoformat sample_failures sample_ip sample_low).1
    = [Ret false; Ret false; Ret false; Ret true].
Proof.
  assert (Hne : sample_failures <> []) by discriminate.
  exact (proj1 (failures_block_at_twice_threshold sample_isoformat sample_ip
                  sample_failures 0 sample_low eq_refl eq_refl eq_refl Hne)).
Defined.

Lemma few_attempts_never_block_witness :
  (track_all sample_isoformat sample_pair sample_ip fresh).1
    = [Ret false; Ret false].
Proof.
  assert (Hlen : Z.of_nat
            (length (default [] (connection_attempts (blocker fresh)
                                   !! sample_ip))
             + length sample_pair) < block_threshold (blocker fresh))
    by (vm_compute; reflexivity).
  exact (proj1 (few_attempts_never_block sample_isoformat sample_ip
                  sample_pair fresh eq_refl Hlen)).
Defined.

Lemma slow_attempts_never_block_witness :
  (track_all sample_isoformat sample_slow sample_ip sample_low).1
    = [Ret false; Ret false; Ret false].
Proof.
  assert (Hth : 2 <= block_threshold (blocker sample_low))
    by (vm_compute; discriminate).
  assert (Hold : Forall (fun t => (t <= -30)%Q)
            (default [] (connection_attempts (blocker sample_low)
                           !! sample_ip)))
    by (vm_compute; constructor).
  assert (Hsp : spaced (-30) (map at_time sample_slow))
    by (repeat split; vm_compute; discriminate).
  exact (proj1 (slow_attempts_never_block sample_isoformat sample_ip
                  sample_slow (-30) sample_low eq_refl Hth Hold Hsp)).
Defined.

Lemma normalize_ip_idempotent_witness :
  normalize_ip "[::1]:8080" = "__1_8080" /\
  normalize_ip (normalize_ip "[::1]:8080") = normalize_ip "[::1]:8080".
Proof.
  split; [reflexivity|].
  assert (Hne : normalize_ip "[::1]:8080" <> "") by (vm_compute; discriminate).
  exact (normalize_ip_idempotent "[::1]:8080" Hne).
Defined.

Lemma response_counts_failures_witness :
  response sample_isoformat sample_fromisoformat sample_ip (Some 200)
    sample_clock sample_clock sample_clock sample_scored
  = (Ret true, (reset_failure_count sample_ip sample_scored).2).
Proof.
  assert (Hok : HTTP_OK <= 200 < HTTP_MULTIPLE_CHOICES)
    by (vm_compute; split; [discriminate|reflexivity]).
  pose proof (response_counts_failures sample_isoformat sample_fromisoformat
                sample_ip 200 sample_clock sample_clock sample_clock
                sample_scored eq_refl) as H.
  exact (proj1 (proj1 (proj2 H) Hok)).
Defined.

Lemma sample_capture_ok :
  forall ip (entries : list nat), (ip, entries) ∈ flows sample_capture ->
    (fun _ : string => WriteOk) ip <> MkdirFails /\
    files sample_capture !! sample_har_file ip <> Some HarNotList.
Proof.
  intros ip entries H. split; [discriminate|].
  apply list_elem_of_singleton in H. injection H as -> _.
  vm_compute. discriminate.
Qed.

Lemma sample_capture_NoDup :
  NoDup (map sample_har_file (map fst (flows sample_capture))).
Proof. apply (bool_decide_unpack _). vm_compute. exact I. Qed.

Lemma save_flows_appends_witness :
  files (_save_flows sample_har_file (fun _ => WriteOk) sample_capture).2
    !! sample_har_file sample_ip
  = Some (HarEntries [0; 1; 2]%nat).
Proof.
  pose proof (save_flows_appends sample_har_file (fun _ => WriteOk)
                sample_capture sample_capture_NoDup sample_capture_ok) as H.
  destruct H as (_ & H & _).
  rewrite (H sample_ip [1; 2]%nat) by left. reflexivity.
Defined.

Lemma sample_added_ok :
  forall ip (entries : list nat),
    (ip, entries) ∈ flows (add_flow sample_ip 3%nat sample_capture) ->
    (fun _ : string => WriteOk) ip <> MkdirFails /\
    files sample_capture !! sample_har_file ip <> Some HarNotList.
Proof.
  intros ip entries H. split; [discriminate|].
  apply list_elem_of_singleton in H. injection H as -> _.
  vm_compute. discriminate.
Qed.

Lemma sample_added_NoDup :
  NoDup (map sample_har_file
           (map fst (flows (add_flow sample_ip 3%nat sample_capture)))).
Proof. apply (bool_decide_unpack _). vm_compute. exact I. Qed.

Lemma capture_reaches_file_witness :
  exists before,
    files (_save_flows sample_har_file (fun _ => WriteOk)
             (add_flow sample_ip 3%nat sample_capture)).2
      !! sample_har_file sample_ip
    = Some (HarEntries (before ++ [3%nat])).
Proof.
  exact (capture_reaches_file sample_har_file (fun _ => WriteOk) sample_ip
           3%nat sample_capture sample_added_NoDup sample_added_ok eq_refl).
Defined.

Lemma lazy_and_periodic_expiry_agree_witness :
  (is_ip_blocked sample_fromisoformat 3600000001 None "b" sample_unsorted).1
  = Ret (dict_mem "b" (blocked_ips (blocker
           (_cleanup_expired_blocks sample_fromisoformat 3600000001 None
              sample_unsorted).2))).
Proof.
  exact (lazy_and_periodic_expiry_agree sample_fromisoformat 3600000001
           None None "b" sample_unsorted sample_unsorted_NoDup).
Defined.

Lemma sample_tracking_untracked : blocked_untracked sample_tracking.
Proof. intros ip [v H]. discriminate. Qed.

Lemma operations_keep_blocked_untracked_witness :
  blocked_untracked sample_tracking /\
  blocked_untracked
    (run_op sample_isoformat sample_fromisoformat
       (BlockIp 0 None sample_ip) sample_tracking).
Proof.
  split; [exact sample_tracking_untracked|].
  exact (operations_keep_blocked_untracked sample_isoformat
           sample_fromisoformat (BlockIp 0 None sample_ip) sample_tracking
           eq_refl sample_tracking_untracked).
Defined.

Lemma header_address_overrides_peer_witness :
  dict_mem (normalize_ip sample_ip) (blocked_ips (blocker sample_blocked))
    = true /\
  requestheaders sample_fromisoformat
    (get_client_ip (fun x => x) sample_flow) sample_clock sample_blocked
  = (Ret false, sample_blocked).
Proof.
  split; [reflexivity|].
  assert (Hne : "10.9.9.9" <> "") by discriminate.
  exact (proj2 (header_address_overrides_peer (fun x => x)
                  sample_fromisoformat sample_flow
                  (mkHeaders (Some "10.9.9.9") None) "10.9.9.9"
                  sample_clock sample_blocked eq_refl eq_refl eq_refl Hne
                  eq_refl)).
Defined.

Lemma external_change_reconciled_witness :
  _check_external_changes sample_isoformat (fun _ => 0) sample_edited =
    (Ret (),
     mkSys (mkIPBlocker [] ∅ ∅ BLOCK_THRESHOLD None 5%Q)
           (File (mkFile (DictDoc []) 5%Q))) /\
  dict_get sample_ip (blocked_ips (blocker
    (cleanup_tick sample_isoformat sample_fromisoformat (fun _ => 0)
       1 None 1%Q sample_edited).2)) = None.
Proof.
  assert (Hnewer : (_last_file_mtime (blocker sample_edited) < 5)%Q)
    by reflexivity.
  pose proof (proj2 (external_change_reconciled sample_isoformat
                       sample_fromisoformat sample_edited (fun _ => 0)
                       1 None 1%Q) _ eq_refl Hnewer) as H.
  cbv zeta in H. destruct H as (Hcheck & _ & _ & Hom).
  split; [exact Hcheck|].
  apply Hom. cbn. apply not_elem_of_nil.
Defined.

(** C6, as stated, fails for the state that goes with a blocked address:
    the sample address is blocked and has a failure count; the file is
    gone; the check empties the block record and the failure count is
    still there. *)
Lemma deleted_file_keeps_score_counterexample :
  ~ (forall (isoformat : Z -> string) (nows : nat -> Z) (s : sys)
       (ip : string),
       disk s = NoFile ->
       is_Some (dict_get ip (blocked_ips (blocker s))) ->
       dict_get ip (blocked_ips (blocker
         (_check_external_changes isoformat nows s).2)) = None /\
       to_block (blocker
         (_check_external_changes isoformat nows s).2) !! ip = None /\
       connection_attempts (blocker
         (_check_external_changes isoformat nows s).2) !! ip = None).
Proof.
  intros H.
  assert (Hb : is_Some (dict_get sample_ip
                          (blocked_ips (blocker sample_deleted))))
    by (vm_compute; eauto).
  destruct (H sample_isoformat (fun _ => 0) sample_deleted sample_ip
              eq_refl Hb) as (_ & Hscore & _).
  vm_compute in Hscore. discriminate.
Qed.

